(** * Modsync: the change-detection-and-reconciliation engine

    A shallow embedding of [core/sync_engine.py] (path mapper, sync policy,
    reconciler) and [core/metadata_db.py] (metadata store), with the
    properties of the engine stated and proved over it.

    Conventions of the model
    - A Python [str] is a [string]; the operations used by the engine
      (prefix, suffix, slicing off one character, splitting at ['/']) act
      the same on code points and on their UTF-8 bytes.
    - The file system is one name space (the remote tree is mounted inside
      it), a finite map from resolved paths (lists of components) to nodes.
      Paths are resolved lexically, as [os.path.abspath] does.  There are
      no symbolic links, and an operation fails only for a reason visible
      in the tree (a missing entry, a file where a directory is needed and
      the like); permission and device errors are outside the model.
    - Time stamps are integers on one totally ordered time axis. *)

From Stdlib Require Import ZArith Ascii String List Lia Bool.
From stdpp Require Import gmap strings list.

Open Scope Z_scope.
Open Scope string_scope.
Open Scope list_scope.

(** ** Python strings *)

Module Str.

(** [s.startswith(p)] *)
Definition startswith (s p : string) : bool := String.prefix p s.

Fixpoint rev (s : string) : string :=
  match s with
  | EmptyString => EmptyString
  | String c r => rev r +:+ String c EmptyString
  end.

(** [s.endswith(p)] *)
Definition endswith (s p : string) : bool := String.prefix (rev p) (rev s).

(** [s[1:]] *)
Definition drop_first (s : string) : string :=
  match s with
  | EmptyString => EmptyString
  | String _ r => r
  end.

(** [s[:-1]] *)
Fixpoint drop_last (s : string) : string :=
  match s with
  | EmptyString => EmptyString
  | String c r =>
      match r with
      | EmptyString => EmptyString
      | String _ _ => String c (drop_last r)
      end
  end.

(** [s.rstrip('/')] *)
Fixpoint rstrip_slash (s : string) : string :=
  match s with
  | EmptyString => EmptyString
  | String c r =>
      match rstrip_slash r with
      | EmptyString => if Ascii.eqb c "/" then EmptyString else String c EmptyString
      | r' => String c r'
      end
  end.

(** [s == '/' * len(s)] *)
Fixpoint all_slashes (s : string) : bool :=
  match s with
  | EmptyString => true
  | String c r => Ascii.eqb c "/" && all_slashes r
  end.

(** [s.split('/')]: never empty, [''.split('/') = ['']]. *)
Fixpoint split (s : string) : list string :=
  match s with
  | EmptyString => [EmptyString]
  | String c r =>
      if Ascii.eqb c "/" then EmptyString :: split r
      else match split r with
           | h :: t => String c h :: t
           | [] => [String c EmptyString]
           end
  end.

(** ['/'.join(l)] *)
Fixpoint sepjoin (l : list string) : string :=
  match l with
  | [] => EmptyString
  | [x] => x
  | x :: r => x +:+ "/" +:+ sepjoin r
  end.

(** ['/' * n] *)
Fixpoint slashes (n : nat) : string :=
  match n with
  | O => EmptyString
  | S n' => String "/" (slashes n')
  end.

(** ['/' in s] *)
Fixpoint has_slash (s : string) : bool :=
  match s with
  | EmptyString => false
  | String c r => Ascii.eqb c "/" || has_slash r
  end.

(** Truthiness of a [str]: the empty string is false. *)
Definition truthy (s : string) : bool :=
  match s with EmptyString => false | _ => true end.

End Str.

(** ** [posixpath] *)

Module posixpath.

(** [os.path.join(a, b)] *)
Definition join (a b : string) : string :=
  if Str.startswith b "/" then b
  else if negb (Str.truthy a) || Str.endswith a "/" then a +:+ b
  else a +:+ "/" +:+ b.

(** [os.path.basename(p)]: what follows the last ['/']. *)
Definition basename (p : string) : string := List.last (Str.split p) EmptyString.

(** [os.path.dirname(p)]: [p] up to its last ['/'], with the trailing
    slashes stripped unless nothing else is left. *)
Definition dirname (p : string) : string :=
  match Str.split p with
  | [] | [_] => EmptyString
  | parts =>
      let head := Str.sepjoin (removelast parts) +:+ "/" in
      if Str.all_slashes head then head else Str.rstrip_slash head
  end.

(** [os.path.isabs(p)] *)
Definition isabs (p : string) : bool := Str.startswith p "/".

(** The component loop of [normpath] on an absolute path: empty and
    ['.'] components are skipped, ['..'] pops (and is dropped at the
    root). *)
Fixpoint norm_comps (stack : list string) (comps : list string) : list string :=
  match comps with
  | [] => stack
  | c :: r =>
      if String.eqb c "" || String.eqb c "." then norm_comps stack r
      else if String.eqb c ".." then norm_comps (removelast stack) r
      else norm_comps (stack ++ [c]) r
  end.

(** The components of [os.path.abspath(p)], that is of
    [normpath(join(os.getcwd(), p))], when [os.getcwd()] is [cwd]. *)
Definition abs_comps (cwd : string) (p : string) : list string :=
  norm_comps [] (Str.split (join cwd p)).

(** [os.path.commonprefix([a, b])] on two lists of components. *)
Fixpoint commonprefix (a b : list string) : list string :=
  match a, b with
  | x :: a', y :: b' => if String.eqb x y then x :: commonprefix a' b' else []
  | _, _ => []
  end.

(** [os.path.relpath(path, start)]; [None] is the [ValueError] raised
    for an empty [path]. *)
Definition relpath (cwd : string) (path start : string) : option string :=
  if negb (Str.truthy path) then None
  else
    let start_list := abs_comps cwd start in
    let path_list := abs_comps cwd path in
    let i := length (commonprefix start_list path_list) in
    let rel_list := repeat ".." (length start_list - i) ++ drop i path_list in
    match rel_list with
    | [] => Some "."
    | _ => Some (Str.sepjoin rel_list)
    end.

End posixpath.

(** The three shapes of [posixpath.join a b]. *)
Inductive join_shape (a b : string) : string -> Prop :=
| join_abs : Str.startswith b "/" = true -> join_shape a b b
| join_cat :
    Str.startswith b "/" = false -> a = "" \/ Str.endswith a "/" = true ->
    join_shape a b (a +:+ b)
| join_sep :
    Str.startswith b "/" = false -> a <> "" -> Str.endswith a "/" = false ->
    join_shape a b (a +:+ "/" +:+ b).

(** A proper path component: a name, neither empty nor a dot entry. *)
Definition clean (c : string) : Prop :=
  c <> "" /\ c <> "." /\ c <> ".." /\ Str.has_slash c = false.

(** ** Configuration *)

(** One entry of [sync_directories]. *)
Record DirConfig := {
  local_path : string;
  remote_path : string;
  exclude_patterns : list string
}.

(** The configuration read by [_load_config]: [server.mount_point] and
    [sync_directories].  A configuration that could not be loaded is the
    empty dictionary, that is, no directory at all. *)
Record Config := {
  mount_point : string;
  sync_directories : list DirConfig
}.

(** ** Sync policy and path mapper ([sync_engine.py]) *)

(** The body of the inner loop of [_should_sync_file]: does [pattern]
    exclude [filename]? *)
Definition pattern_excludes (pattern filename : string) : bool :=
  if Str.startswith pattern "*" then Str.endswith filename (Str.drop_first pattern)
  else if Str.endswith pattern "*" then Str.startswith filename (Str.drop_last pattern)
  else String.eqb pattern filename.

(** [for pattern in dir_config.get('exclude_patterns', [])]: [false] is the
    early [return False], [true] means the loop ran to its end. *)
Fixpoint scan_patterns (patterns : list string) (filename : string) : bool :=
  match patterns with
  | [] => true
  | pattern :: rest =>
      if pattern_excludes pattern filename then false
      else scan_patterns rest filename
  end.

(** [for dir_config in self.config.get('sync_directories', [])] *)
Fixpoint scan_dirs (dirs : list DirConfig) (filename : string) : bool :=
  match dirs with
  | [] => true
  | dir_config :: rest =>
      if scan_patterns (exclude_patterns dir_config) filename
      then scan_dirs rest filename
      else false
  end.

(** [SyncEngine._should_sync_file] *)
Definition _should_sync_file (config : Config) (file_path : string) : bool :=
  let filename := posixpath.basename file_path in
  scan_dirs (sync_directories config) filename.

(** Exceptions raised by the modelled code. *)
Inductive exn :=
| ValueError
| NameError
| FileNotFoundError
| FileExistsError
| IsADirectoryError
| NotADirectoryError
| SameFileError
| ShutilError
| OperationalError.

(** The result of a pure computation that may raise. *)
Inductive result (A : Type) :=
| Returns (a : A)
| Raises (e : exn).
Arguments Returns {A} a.
Arguments Raises {A} e.

(** The loop of [_get_remote_path] over the configured directories. *)
Fixpoint get_remote_path_loop (cwd : string) (mount : string)
    (dirs : list DirConfig) (local : string) : result (option string) :=
  match dirs with
  | [] => Returns None
  | dir_config :: rest =>
      let local_dir := local_path dir_config in
      if Str.startswith local local_dir then
        match posixpath.relpath cwd local local_dir with
        | None => Raises ValueError
        | Some relative_path =>
            let remote_dir := posixpath.join mount (remote_path dir_config) in
            Returns (Some (posixpath.join remote_dir relative_path))
        end
      else get_remote_path_loop cwd mount rest local
  end.

(** [SyncEngine._get_remote_path] *)
Definition _get_remote_path (cwd : string) (config : Config)
    (local : string) : result (option string) :=
  get_remote_path_loop cwd (mount_point config) (sync_directories config) local.

(** ** The sync policy, as the rules read *)

(** [excluded_by pattern filename]: the three rules of the exclude
    patterns, read in the order the policy tries them. *)
Inductive excluded_by (pattern filename : string) : Prop :=
| excl_suffix (rest x : string) :
    pattern = "*" +:+ rest -> filename = x +:+ rest -> excluded_by pattern filename
| excl_prefix (rest x : string) :
    Str.startswith pattern "*" = false ->
    pattern = rest +:+ "*" -> filename = rest +:+ x -> excluded_by pattern filename
| excl_exact :
    Str.startswith pattern "*" = false -> Str.endswith pattern "*" = false ->
    pattern = filename -> excluded_by pattern filename.

Definition cfg_example : Config :=
  {| mount_point := "/mnt/remote";
     sync_directories :=
       [ {| local_path := "/data/proj"; remote_path := "proj";
            exclude_patterns := ["*.log"] |} ] |}.


(** Two overlapping mappings: the first one is a partial prefix of the
    second. *)
Definition cfg_overlap : Config :=
  {| mount_point := "/mnt/remote";
     sync_directories :=
       [ {| local_path := "/data"; remote_path := "proj"; exclude_patterns := [] |};
         {| local_path := "/database"; remote_path := "db"; exclude_patterns := [] |} ] |}.

(** ** The world: file system, metadata database, clock and log *)

(** A regular file carries its bytes, modification time and permission
    bits; a directory carries nothing the engine looks at. *)
Inductive node :=
| File (data : string) (mtime : Z) (mode : Z)
| Dir.

Global Instance node_eq_dec : EqDecision node.
Proof. solve_decision. Defined.

(** One row of the table [files]. *)
Record Row := {
  row_id : Z;
  row_path : string;
  modified_time : Z;
  size : Z;
  last_synced : Z;
  sync_status : string;
  checksum : option string
}.

(** The SQLite database once [_init_db] has created the table: the rows
    by their unique [path], and the AUTOINCREMENT counter. *)
Record Database := {
  files : gmap string Row;
  sqlite_sequence : Z
}.

Inductive level := DEBUG | INFO | WARNING | ERROR.

(** A log record: level, message text, and the exception formatted into
    the message when there is one. *)
Record LogEntry := {
  log_level : level;
  log_msg : string;
  log_exc : option exn
}.

Definition log_entry (l : level) (msg : string) (e : option exn) : LogEntry :=
  {| log_level := l; log_msg := msg; log_exc := e |}.

Record World := {
  fs : gmap (list string) node;
  (** [os.getcwd()] *)
  cwd : string;
  (** [None]: the table [files] does not exist, every statement raises
      [sqlite3.OperationalError] *)
  db : option Database;
  (** [time.time()] *)
  clock : Z;
  (** what [os.stat] reports for a directory: [(st_mtime, st_size)] *)
  dir_stat : list string -> Z * Z;
  log : list LogEntry
}.

Definition set_fs (f : gmap (list string) node) (w : World) : World :=
  {| fs := f; cwd := cwd w; db := db w; clock := clock w;
     dir_stat := dir_stat w; log := log w |}.

Definition set_db (d : option Database) (w : World) : World :=
  {| fs := fs w; cwd := cwd w; db := d; clock := clock w;
     dir_stat := dir_stat w; log := log w |}.

Definition add_log (e : LogEntry) (w : World) : World :=
  {| fs := fs w; cwd := cwd w; db := db w; clock := clock w;
     dir_stat := dir_stat w; log := log w ++ [e] |}.

(** A world that differs from [w] in the tree only. *)
Definition same_but_fs (w w' : World) : Prop := w' = set_fs (fs w') w.

(** ** Computations: state, exceptions, fuel *)

Inductive outcome (A : Type) :=
| Done (a : A) (w : World)
| Raised (e : exn) (w : World)
| OutOfFuel.
Arguments Done {A} a w.
Arguments Raised {A} e w.
Arguments OutOfFuel {A}.

Definition M (A : Type) : Type := World -> outcome A.

Global Instance M_ret : MRet M := fun A a w => Done a w.

Global Instance M_bind : MBind M := fun A B f m w =>
  match m w with
  | Done a w' => f a w'
  | Raised e w' => Raised e w'
  | OutOfFuel => OutOfFuel
  end.

Definition raise {A : Type} (e : exn) : M A := fun w => Raised e w.

Definition get : M World := fun w => Done w w.

Definition modify (f : World -> World) : M unit := fun w => Done tt (f w).

(** [try: body except Exception as e: handler(e)] *)
Definition try_except {A : Type} (body : M A) (handler : exn -> M A) : M A :=
  fun w =>
    match body w with
    | Done a w' => Done a w'
    | Raised e w' => handler e w'
    | OutOfFuel => OutOfFuel
    end.

(** A computation that needs no fuel: it returns or raises. *)
Definition total {A : Type} (m : M A) : Prop := forall w, m w <> OutOfFuel.

(** A pure computation that may raise, run in the world. *)
Definition lift_result {A : Type} (r : result A) : M A :=
  match r with
  | Returns a => mret a
  | Raises e => raise e
  end.

(** The world a computation leaves behind, whether it returned or raised. *)
Definition final_world {A : Type} (o : outcome A) (w0 : World) : World :=
  match o with
  | Done _ w => w
  | Raised _ w => w
  | OutOfFuel => w0
  end.

Definition logger (l : level) (msg : string) (e : option exn) : M unit :=
  modify (add_log (log_entry l msg e)).

(** ** File system operations *)

(** The node at a resolved path; the root is always a directory. *)
Definition node_at (f : gmap (list string) node) (k : list string) : option node :=
  match k with
  | [] => Some Dir
  | _ => f !! k
  end.

(** Where a path leads: the components of [os.path.abspath(p)].  The
    tree is looked up at these components, so [..] is resolved on the
    path and not in the tree.  On a normalised absolute path
    ([plain_path] below) this is the lookup of the kernel, component by
    component. *)
Definition resolve (w : World) (p : string) : list string :=
  posixpath.abs_comps (cwd w) p.

Definition lookup_path (w : World) (p : string) : option node :=
  node_at (fs w) (resolve w p).

(** [os.path.exists] *)
Definition os_path_exists (w : World) (p : string) : bool :=
  match lookup_path w p with Some _ => true | None => false end.

(** [os.path.isdir] *)
Definition os_path_isdir (w : World) (p : string) : bool :=
  match lookup_path w p with Some Dir => true | _ => false end.

(** What [os.stat(p)] reports, the two fields the store reads:
    [(st_mtime, st_size)]. *)
Definition stat_of (w : World) (p : string) : option (Z * Z) :=
  match lookup_path w p with
  | Some (File data mtime _) => Some (mtime, Z.of_nat (String.length data))
  | Some Dir => Some (dir_stat w (resolve w p))
  | None => None
  end.

(** [os.stat(p)] *)
Definition os_stat (p : string) : M (Z * Z) := fun w =>
  match stat_of w p with
  | Some st => Done st w
  | None => Raised FileNotFoundError w
  end.

(** The directory-creating loop of [os.makedirs(name, exist_ok=True)]:
    every missing directory on the way from [base] down is created; a
    regular file on the way is an error ([FileExistsError] for the last
    component, [NotADirectoryError] above it). *)
Fixpoint makedirs_from (base rest : list string) (f : gmap (list string) node)
    : gmap (list string) node * option exn :=
  match rest with
  | [] => (f, None)
  | c :: rest' =>
      let k := base ++ [c] in
      match f !! k with
      | Some Dir => makedirs_from k rest' f
      | Some (File _ _ _) =>
          (f, Some (match rest' with [] => FileExistsError | _ => NotADirectoryError end))
      | None => makedirs_from k rest' (<[k := Dir]> f)
      end
  end.

(** [os.makedirs(name, exist_ok=True)], on a tree without permissions
    and without a limit on the length of a path. *)
Definition os_makedirs (name : string) : M unit := fun w =>
  if negb (Str.truthy name) then Raised FileNotFoundError w
  else
    match makedirs_from [] (resolve w name) (fs w) with
    | (f, None) => Done tt (set_fs f w)
    | (f, Some e) => Raised e (set_fs f w)
    end.

(** Opening [k] for writing needs its parent to be a directory and [k]
    itself not to be one. *)
Definition check_writable (f : gmap (list string) node) (k : list string) : option exn :=
  match node_at f k with
  | Some Dir => Some IsADirectoryError
  | _ =>
      match node_at f (removelast k) with
      | Some Dir => None
      | Some (File _ _ _) => Some NotADirectoryError
      | None => Some FileNotFoundError
      end
  end.

(** [shutil.copy2(src, dst)]: into [dst] when it is a directory; the
    bytes ([copyfile]) and then modification time and mode ([copystat]). *)
Definition shutil_copy2 (src dst : string) : M string := fun w =>
  let dst' := if os_path_isdir w dst
              then posixpath.join dst (posixpath.basename src) else dst in
  let ks := resolve w src in
  let kd := resolve w dst' in
  if os_path_exists w src && os_path_exists w dst' && bool_decide (ks = kd)
  then Raised SameFileError w
  else
    match node_at (fs w) ks with
    | None => Raised FileNotFoundError w
    | Some Dir => Raised IsADirectoryError w
    | Some (File data mtime mode) =>
        match check_writable (fs w) kd with
        | Some e => Raised e w
        | None => Done dst' (set_fs (<[kd := File data mtime mode]> (fs w)) w)
        end
    end.

(** [os.remove(p)] *)
Definition os_remove (p : string) : M unit := fun w =>
  match lookup_path w p with
  | None => Raised FileNotFoundError w
  | Some Dir => Raised IsADirectoryError w
  | Some (File _ _ _) => Done tt (set_fs (delete (resolve w p) (fs w)) w)
  end.

(** The entries of the tree at or below [a]. *)
Definition subtree (a : list string) (f : gmap (list string) node)
    : list (list string * node) :=
  List.filter (fun kn => bool_decide (a `prefix_of` kn.1)) (map_to_list f).

(** The tree with everything at or below [a] moved to [b]. *)
Definition move_tree (a b : list string) (f : gmap (list string) node)
    : gmap (list string) node :=
  foldr (fun kn m => <[b ++ drop (length a) kn.1 := kn.2]> m)
        (filter (fun kn => ~ a `prefix_of` kn.1) f)
        (subtree a f).

(** [shutil.move(src, dst)].  A move into an existing directory lands
    under the source's name and refuses to replace anything; a file
    replaces a file; a directory moves with its subtree, its target's
    parents being created when the rename falls back to [copytree]. *)
Definition shutil_move (src dst : string) : M unit := fun w =>
  let ks := resolve w src in
  if os_path_isdir w dst && os_path_exists w src && bool_decide (ks = resolve w dst)
  then Done tt w
  else
    let real_dst :=
      if os_path_isdir w dst
      then posixpath.join dst (posixpath.basename (Str.rstrip_slash src))
      else dst in
    let kd := resolve w real_dst in
    if os_path_isdir w dst && os_path_exists w real_dst then Raised ShutilError w
    else
      match node_at (fs w) ks with
      | None => Raised FileNotFoundError w
      | Some (File data mtime mode) =>
          if bool_decide (ks = kd) then Done tt w
          else
            match check_writable (fs w) kd with
            | Some e => Raised e w
            | None =>
                Done tt
                  (set_fs (<[kd := File data mtime mode]> (delete ks (fs w))) w)
            end
      | Some Dir =>
          if bool_decide (ks `prefix_of` kd) then Raised ShutilError w
          else
            match node_at (fs w) kd with
            | Some _ => Raised FileExistsError w
            | None =>
                match makedirs_from [] (removelast kd) (fs w) with
                | (f, Some e) => Raised e (set_fs f w)
                | (f, None) => Done tt (set_fs (move_tree ks kd f) w)
                end
            end
      end.

(** ** The metadata store ([metadata_db.py]) *)

Module MetadataDB.

(** The names bound at the top level of [metadata_db.py]: its imports
    ([os], [json], [logging], [sqlite3], [from datetime import datetime])
    and its class. *)
Definition module_globals : list string :=
  ["os"; "json"; "logging"; "sqlite3"; "datetime"; "MetadataDB"].

(** Loading a global name: [NameError] when the module does not bind it. *)
Definition load_global (name : string) : M unit :=
  if bool_decide (name ∈ module_globals) then mret tt else raise NameError.

(** [time.time()] as written in [metadata_db.py] *)
Definition time_time : M Z :=
  load_global "time";; w ← get; mret (clock w).

(** [sqlite3.connect(self.db_path)]: the connection works on the
    committed state and publishes its changes at [commit]. *)
Definition connect : M (option Database) := w ← get; mret (db w).

Definition commit (conn : option Database) : M unit := modify (set_db conn).

(** [SELECT * FROM files WHERE path = ?] followed by [fetchone()] *)
Definition select_by_path (conn : option Database) (path : string) : M (option Row) :=
  match conn with
  | None => raise OperationalError
  | Some d => mret (files d !! path)
  end.

(** [UPDATE files SET modified_time = ?, size = ?, last_synced = ?,
    sync_status = ? WHERE path = ?] *)
Definition update_row (conn : option Database)
    (mtime sz synced : Z) (status path : string) : M (option Database) :=
  match conn with
  | None => raise OperationalError
  | Some d =>
      mret (Some {| files :=
                      alter (fun r => {| row_id := row_id r; row_path := row_path r;
                                         modified_time := mtime; size := sz;
                                         last_synced := synced; sync_status := status;
                                         checksum := checksum r |})
                            path (files d);
                    sqlite_sequence := sqlite_sequence d |})
  end.

(** [INSERT INTO files (path, modified_time, size, last_synced,
    sync_status) VALUES (?, ?, ?, ?, ?)] *)
Definition insert_row (conn : option Database)
    (path : string) (mtime sz synced : Z) (status : string) : M (option Database) :=
  match conn with
  | None => raise OperationalError
  | Some d =>
      let id := sqlite_sequence d + 1 in
      mret (Some {| files :=
                      <[path := {| row_id := id; row_path := path;
                                   modified_time := mtime; size := sz;
                                   last_synced := synced; sync_status := status;
                                   checksum := None |}]> (files d);
                    sqlite_sequence := id |})
  end.

(** [DELETE FROM files WHERE path = ?] *)
Definition delete_row (conn : option Database) (path : string) : M (option Database) :=
  match conn with
  | None => raise OperationalError
  | Some d =>
      mret (Some {| files := delete path (files d);
                    sqlite_sequence := sqlite_sequence d |})
  end.

(** [MetadataDB._init_db]: [CREATE TABLE IF NOT EXISTS files]. *)
Definition _init_db : M unit :=
  conn ← connect;
  commit (match conn with
          | None => Some {| files := ∅; sqlite_sequence := 0 |}
          | Some d => Some d
          end);;
  logger INFO "Initialized metadata database" None.

(** [MetadataDB.delete_file_metadata] *)
Definition delete_file_metadata (file_path : string) : M unit :=
  try_except
    (conn ← connect;
     conn' ← delete_row conn file_path;
     commit conn';;
     logger DEBUG ("Deleted metadata for " +:+ file_path) None)
    (fun e => logger ERROR ("Error deleting metadata for " +:+ file_path) (Some e)).

(** [MetadataDB.update_file_metadata] *)
Definition update_file_metadata (file_path : string) : M unit :=
  try_except
    (w ← get;
     if negb (os_path_exists w file_path) then delete_file_metadata file_path
     else
       st ← os_stat file_path;
       let modified_time := st.1 in
       let size := st.2 in
       conn ← connect;
       existing ← select_by_path conn file_path;
       conn' ← match existing with
               | Some _ =>
                   now ← time_time;
                   update_row conn modified_time size now "synced" file_path
               | None =>
                   now ← time_time;
                   insert_row conn file_path modified_time size now "synced"
               end;
       commit conn';;
       logger DEBUG ("Updated metadata for " +:+ file_path) None)
    (fun e => logger ERROR ("Error updating metadata for " +:+ file_path) (Some e)).

(** [MetadataDB.get_file_metadata] *)
Definition get_file_metadata (file_path : string) : M (option Row) :=
  try_except
    (conn ← connect;
     row ← select_by_path conn file_path;
     mret row)
    (fun e =>
       logger ERROR ("Error getting metadata for " +:+ file_path) (Some e);;
       mret None).

(** [MetadataDB.needs_sync] *)
Definition needs_sync (file_path : string) : M bool :=
  w ← get;
  if negb (os_path_exists w file_path) then mret false
  else
    metadata ← get_file_metadata file_path;
    match metadata with
    | None => mret true
    | Some md =>
        st ← os_stat file_path;
        mret (bool_decide (modified_time md < st.1) || negb (bool_decide (st.2 = size md)))
    end.

End MetadataDB.

(** ** The reconciler ([sync_engine.py]) *)

(** [dest_path or self._get_remote_path(file_path)] *)
Definition dest_or_remote (config : Config) (file_path : string)
    (dest_path : option string) : M (option string) :=
  match dest_path with
  | Some d =>
      if Str.truthy d then mret (Some d)
      else w ← get; lift_result (_get_remote_path (cwd w) config file_path)
  | None => w ← get; lift_result (_get_remote_path (cwd w) config file_path)
  end.

(** Truthiness of a value that is [None] or a [str]. *)
Definition truthy_opt (o : option string) : option string :=
  match o with
  | Some s => if Str.truthy s then Some s else None
  | None => None
  end.

(** The body of the [try] of [sync_file]. *)
Definition sync_action (config : Config) (action file_path : string)
    (dest_path : option string) (remote_path : string) : M unit :=
  if String.eqb action "created" || String.eqb action "modified" then
    os_makedirs (posixpath.dirname remote_path);;
    shutil_copy2 file_path remote_path;;
    logger INFO ("Synced " +:+ action +:+ " file: " +:+ file_path +:+ " -> " +:+ remote_path) None
  else if String.eqb action "deleted" then
    w ← get;
    if os_path_exists w remote_path then
      os_remove remote_path;;
      logger INFO ("Deleted remote file: " +:+ remote_path) None
    else mret tt
  else if String.eqb action "moved" then
    match truthy_opt dest_path with
    | Some dest =>
        w ← get;
        remote_dest ← lift_result (_get_remote_path (cwd w) config dest);
        match truthy_opt remote_dest with
        | Some remote_dest =>
            os_makedirs (posixpath.dirname remote_dest);;
            shutil_move remote_path remote_dest;;
            logger INFO ("Moved remote file: " +:+ remote_path +:+ " -> " +:+ remote_dest) None
        | None => mret tt
        end
    | None => mret tt
    end
  else mret tt.

(** [SyncEngine.sync_file].  The engine's own attribute [metadata_db] (an
    empty dictionary set in [__init__]) is read and written by no method,
    and the engine holds no [MetadataDB]. *)
Definition sync_file (config : Config) (action file_path : string)
    (dest_path : option string) : M unit :=
  if negb (_should_sync_file config file_path) then
    logger DEBUG ("Skipping excluded file: " +:+ file_path) None
  else
    remote_path ← dest_or_remote config file_path dest_path;
    match truthy_opt remote_path with
    | None => logger WARNING ("Could not determine remote path for: " +:+ file_path) None
    | Some remote_path =>
        try_except
          (sync_action config action file_path dest_path remote_path)
          (fun e => logger ERROR ("Error syncing file " +:+ file_path) (Some e))
    end.

(** ** Worlds used in the examples *)

Definition empty_db : option Database := Some {| files := ∅; sqlite_sequence := 0 |}.

Definition mk_world (tree : list (list string * node)) (d : option Database) : World :=
  {| fs := list_to_map tree; cwd := "/"; db := d; clock := 1000;
     dir_stat := fun _ => (0, 4096); log := [] |}.

Definition row_a : Row :=
  {| row_id := 1; row_path := "/data/proj/a.txt"; modified_time := 5; size := 5;
     last_synced := 900; sync_status := "synced"; checksum := None |}.

Definition db_a : option Database :=
  Some {| files := {[ "/data/proj/a.txt" := row_a ]}; sqlite_sequence := 1 |}.

(** [a.txt] was synced and recorded, then renamed locally to [b.txt]. *)
Definition w_renamed : World :=
  mk_world
    [ (["data"], Dir); (["data"; "proj"], Dir);
      (["data"; "proj"; "b.txt"], File "hello" 5 420);
      (["mnt"], Dir); (["mnt"; "remote"], Dir); (["mnt"; "remote"; "proj"], Dir);
      (["mnt"; "remote"; "proj"; "a.txt"], File "hello" 5 420) ]
    db_a.

(** [a.txt] was synced and recorded, then deleted locally. *)
Definition w_deleted : World :=
  mk_world
    [ (["data"], Dir); (["data"; "proj"], Dir);
      (["mnt"], Dir); (["mnt"; "remote"], Dir); (["mnt"; "remote"; "proj"], Dir);
      (["mnt"; "remote"; "proj"; "a.txt"], File "hello" 5 420) ]
    db_a.

(** A new local file [b.txt], nothing remote yet, an empty store. *)
Definition w_new : World :=
  mk_world
    [ (["data"], Dir); (["data"; "proj"], Dir);
      (["data"; "proj"; "b.txt"], File "hello" 5 420);
      (["mnt"], Dir); (["mnt"; "remote"], Dir) ]
    empty_db.

(** [debug.log] reached the remote tree before [*.log] was excluded. *)
Definition w_log : World :=
  mk_world
    [ (["data"], Dir); (["data"; "proj"], Dir);
      (["mnt"], Dir); (["mnt"; "remote"], Dir); (["mnt"; "remote"; "proj"], Dir);
      (["mnt"; "remote"; "proj"; "debug.log"], File "trace" 7 420) ]
    empty_db.

(** ** The claims about the store and the reconciler, as predicates *)

(** A computation returns [a] (in some world). *)
Definition returns {A : Type} (m : M A) (w : World) (a : A) : Prop :=
  exists w', m w = Done a w'.

(** The store holds a record for [path]. *)
Definition has_record (w : World) (path : string) : Prop :=
  exists d r, db w = Some d /\ files d !! path = Some r.

(** Staleness as the store's contract words it: true for a vanished file
    that has a record, true without a record, and otherwise true exactly
    when the file is newer than the record or differs in size. *)
Definition needs_sync_contract (w : World) (path : string) : Prop :=
  forall d, db w = Some d ->
    (os_path_exists w path = false -> is_Some (files d !! path) ->
     returns (MetadataDB.needs_sync path) w true)
    /\ (files d !! path = None -> returns (MetadataDB.needs_sync path) w true)
    /\ (forall r mt sz,
          stat_of w path = Some (mt, sz) -> files d !! path = Some r ->
          returns (MetadataDB.needs_sync path) w
                  (bool_decide (modified_time r < mt \/ sz <> size r))).

(** [upsert] as the store's contract words it, for an existing file:
    afterwards the store holds a record with the file's modification time
    and size, marked synced at the current time. *)
Definition upsert_contract (w : World) (path : string) : Prop :=
  forall mt sz, stat_of w path = Some (mt, sz) ->
    exists w' d r,
      MetadataDB.update_file_metadata path w = Done tt w' /\
      db w' = Some d /\ files d !! path = Some r /\
      modified_time r = mt /\ size r = sz /\
      last_synced r = clock w /\ sync_status r = "synced".

(** A Created or Modified event as the reconciler's table words it: the
    file is copied to its remote counterpart and then upserted. *)
Definition created_contract (config : Config) (action : string) (w : World)
    (path : string) : Prop :=
  forall remote n,
    _get_remote_path (cwd w) config path = Returns (Some remote) ->
    lookup_path w path = Some n ->
    let w' := final_world (sync_file config action path None w) w in
    lookup_path w' remote = Some n /\ has_record w' path.

(** A Deleted event as the table words it: neither the remote file nor
    the record is left. *)
Definition deleted_contract (config : Config) (w : World) (path : string) : Prop :=
  forall remote,
    _get_remote_path (cwd w) config path = Returns (Some remote) ->
    let w' := final_world (sync_file config "deleted" path None w) w in
    os_path_exists w' remote = false /\ ~ has_record w' path.

(** A Moved event as the table words it: nothing is left at the remote
    counterpart of the source, a file is at the remote counterpart of the
    destination, and the store holds a record for the destination only. *)
Definition moved_contract (config : Config) (w : World) (src dst : string) : Prop :=
  forall remote_src remote_dst,
    _get_remote_path (cwd w) config src = Returns (Some remote_src) ->
    _get_remote_path (cwd w) config dst = Returns (Some remote_dst) ->
    let w' := final_world (sync_file config "moved" src (Some dst) w) w in
    os_path_exists w' remote_src = false /\
    os_path_exists w' remote_dst = true /\
    has_record w' dst /\ ~ has_record w' src.

(** ** Walking a tree and the full synchronization *)

(** [for x in l: body(x)] *)
Fixpoint for_each {A : Type} (l : list A) (body : A -> M unit) : M unit :=
  match l with
  | [] => mret tt
  | x :: rest => body x;; for_each rest body
  end.

(** [k] is an entry of the directory [K]. *)
Definition is_child (K : list string) (kn : list string * node) : Prop :=
  kn.1 = K ++ [List.last kn.1 ""].

Global Instance is_child_dec (K : list string) (kn : list string * node) :
  Decision (is_child K kn).
Proof. unfold is_child. apply _. Defined.

Definition is_dir (n : node) : bool :=
  match n with Dir => true | File _ _ _ => false end.

(** The entries of the directory [K], by name, in the order the map
    enumerates them (the order of [os.scandir] is arbitrary as well). *)
Definition entries (f : gmap (list string) node) (K : list string) : list (string * node) :=
  map (fun kn => (List.last kn.1 "", kn.2)) (map_to_list (filter (is_child K) f)).

(** [os.scandir(top)] split as [os.walk] splits it, into the names of the
    directories and the names of the rest; [None] when [top] cannot be
    listed. *)
Definition scandir (w : World) (top : string) : option (list string * list string) :=
  match lookup_path w top with
  | Some Dir =>
      let es := entries (fs w) (resolve w top) in
      Some (map fst (List.filter (fun e => is_dir e.2) es),
            map fst (List.filter (fun e => negb (is_dir e.2)) es))
  | _ => None
  end.

(** [for root, dirs, files in os.walk(top): body(root, dirs, files)], top
    down: a directory is listed when the walk reaches it, the body runs,
    and then the walk descends into each listed directory.  A directory
    that cannot be listed is skipped.  [fuel] bounds the depth. *)
Fixpoint os_walk (fuel : nat) (body : string -> list string -> list string -> M unit)
    (top : string) : M unit :=
  match fuel with
  | O => fun _ => OutOfFuel
  | S fuel' =>
      w ← get;
      match scandir w top with
      | None => mret tt
      | Some (dirs, nondirs) =>
          body top dirs nondirs;;
          for_each dirs (fun dirname => os_walk fuel' body (posixpath.join top dirname))
      end
  end.

(** [os.path.relpath] as a computation. *)
Definition os_path_relpath (path start : string) : M string :=
  w ← get;
  match posixpath.relpath (cwd w) path start with
  | Some rel => mret rel
  | None => raise ValueError
  end.

(** The body of the loop of [sync_directory]. *)
Definition sync_directory_body (config : Config) (local_dir remote_dir : string)
    (root : string) (dirs files : list string) : M unit :=
  for_each dirs (fun dir_name =>
    let local_path := posixpath.join root dir_name in
    relative_path ← os_path_relpath local_path local_dir;
    let remote_path := posixpath.join remote_dir relative_path in
    os_makedirs remote_path);;
  for_each files (fun file_name =>
    let local_path := posixpath.join root file_name in
    if _should_sync_file config local_path then
      relative_path ← os_path_relpath local_path local_dir;
      let remote_path := posixpath.join remote_dir relative_path in
      sync_file config "created" local_path (Some remote_path)
    else mret tt).

(** [SyncEngine.sync_directory] *)
Definition sync_directory (fuel : nat) (config : Config)
    (local_dir remote_dir : string) : M unit :=
  logger INFO ("Starting directory sync: " +:+ local_dir +:+ " -> " +:+ remote_dir) None;;
  os_makedirs remote_dir;;
  os_walk fuel (sync_directory_body config local_dir remote_dir) local_dir.

(** [SyncEngine.full_sync] *)
Definition full_sync (fuel : nat) (config : Config) : M unit :=
  logger INFO "Starting full synchronization" None;;
  for_each (sync_directories config) (fun dir_config =>
    let local_path := local_path dir_config in
    let remote_path := posixpath.join (mount_point config) (remote_path dir_config) in
    w ← get;
    if os_path_exists w local_path then sync_directory fuel config local_path remote_path
    else logger WARNING ("Local directory does not exist: " +:+ local_path) None);;
  logger INFO "Full synchronization completed" None.

(** ** Worlds and claims for the full synchronization *)

Definition cfg_two : Config :=
  {| mount_point := "/mnt/remote";
     sync_directories :=
       [ {| local_path := "/data/proj"; remote_path := "proj"; exclude_patterns := [] |};
         {| local_path := "/data/other"; remote_path := "other"; exclude_patterns := [] |} ] |}.

(** The local directory [sub] meets a regular file of the same name in
    the remote tree. *)
Definition w_blocked : World :=
  mk_world
    [ (["data"], Dir); (["data"; "proj"], Dir);
      (["data"; "proj"; "sub"], Dir);
      (["data"; "proj"; "z.txt"], File "zed" 7 420);
      (["data"; "other"], Dir);
      (["data"; "other"; "o.txt"], File "oh" 9 420);
      (["mnt"], Dir); (["mnt"; "remote"], Dir); (["mnt"; "remote"; "proj"], Dir);
      (["mnt"; "remote"; "proj"; "sub"], File "stale" 3 420) ]
    empty_db.

(** The local root of the first directory is the remote target of the
    second. *)
Definition cfg_chain : Config :=
  {| mount_point := "/mnt";
     sync_directories :=
       [ {| local_path := "/mnt/r"; remote_path := "s"; exclude_patterns := [] |};
         {| local_path := "/a"; remote_path := "r"; exclude_patterns := [] |} ] |}.

Definition w_chain : World :=
  mk_world [ (["a"], Dir); (["a"; "x.txt"], File "ex" 4 420); (["mnt"], Dir) ] empty_db.

(** The remote tree: what lies at or below the mount point. *)
Definition remote_tree (config : Config) (w : World) : gmap (list string) node :=
  filter (fun kn => resolve w (mount_point config) `prefix_of` kn.1) (fs w).

(** Idempotence as the testable property words it: a second run right
    after the first leaves the remote tree as the first run left it. *)
Definition full_sync_idempotent (config : Config) (w : World) : Prop :=
  forall fuel w1 w2,
    full_sync fuel config w = Done tt w1 ->
    full_sync fuel config w1 = Done tt w2 ->
    remote_tree config w2 = remote_tree config w1.

(** ** The plan of a full synchronization

    What a full synchronization does to the world, as the list of the
    steps it takes: the directories it makes, the files it hands to
    [sync_file], the lines it logs.  The plan is read off one world; the
    run performs it when what it writes stays clear of what it reads. *)

Inductive step :=
| SLog (e : LogEntry)
| SMkdir (remote : string)
| SCreated (local remote : string)
| SAbort (e : exn)
| SFuel.

Definition exec_step (config : Config) (s : step) : M unit :=
  match s with
  | SLog e => modify (add_log e)
  | SMkdir remote => os_makedirs remote
  | SCreated local remote => sync_file config "created" local (Some remote)
  | SAbort e => raise e
  | SFuel => fun _ => OutOfFuel
  end.

Definition exec (config : Config) (plan : list step) : M unit :=
  for_each plan (exec_step config).

(** The steps of one directory entry of the walk. *)
Definition plan_dir_entry (cwd0 local_dir remote_dir root dir_name : string) : list step :=
  match posixpath.relpath cwd0 (posixpath.join root dir_name) local_dir with
  | Some rel => [SMkdir (posixpath.join remote_dir rel)]
  | None => [SAbort ValueError]
  end.

(** The steps of one file entry of the walk. *)
Definition plan_file_entry (config : Config) (cwd0 local_dir remote_dir root file_name : string)
    : list step :=
  let local := posixpath.join root file_name in
  if _should_sync_file config local then
    match posixpath.relpath cwd0 local local_dir with
    | Some rel => [SCreated local (posixpath.join remote_dir rel)]
    | None => [SAbort ValueError]
    end
  else [].

Definition plan_body (config : Config) (cwd0 local_dir remote_dir root : string)
    (dirs files : list string) : list step :=
  concat (map (plan_dir_entry cwd0 local_dir remote_dir root) dirs)
  ++ concat (map (plan_file_entry config cwd0 local_dir remote_dir root) files).

Fixpoint plan_walk (fuel : nat) (config : Config) (w0 : World)
    (local_dir remote_dir top : string) : list step :=
  match fuel with
  | O => [SFuel]
  | S fuel' =>
      match scandir w0 top with
      | None => []
      | Some (dirs, files) =>
          plan_body config (cwd w0) local_dir remote_dir top dirs files
          ++ concat (map (fun d => plan_walk fuel' config w0 local_dir remote_dir
                                     (posixpath.join top d)) dirs)
      end
  end.

Definition plan_sync_directory (fuel : nat) (config : Config) (w0 : World)
    (local_dir remote_dir : string) : list step :=
  SLog (log_entry INFO ("Starting directory sync: " +:+ local_dir +:+ " -> " +:+ remote_dir)
          None)
  :: SMkdir remote_dir
  :: plan_walk fuel config w0 local_dir remote_dir local_dir.

Definition plan_mapping (fuel : nat) (config : Config) (w0 : World) (d : DirConfig)
    : list step :=
  if os_path_exists w0 (local_path d)
  then plan_sync_directory fuel config w0 (local_path d)
         (posixpath.join (mount_point config) (remote_path d))
  else [SLog (log_entry WARNING
                ("Local directory does not exist: " +:+ local_path d) None)].

Definition plan_full_sync (fuel : nat) (config : Config) (w0 : World) : list step :=
  SLog (log_entry INFO "Starting full synchronization" None)
  :: concat (map (plan_mapping fuel config w0) (sync_directories config))
  ++ [SLog (log_entry INFO "Full synchronization completed" None)].

(** ** Local and remote regions *)

(** The keys at or below some configured local root. *)
Definition local_key (config : Config) (w0 : World) (k : list string) : Prop :=
  exists d, In d (sync_directories config) /\ resolve w0 (local_path d) `prefix_of` k.

(** The keys at or below some configured remote target. *)
Definition remote_key (config : Config) (w0 : World) (k : list string) : Prop :=
  exists d, In d (sync_directories config) /\
            resolve w0 (posixpath.join (mount_point config) (remote_path d)) `prefix_of` k.

(** No local root lies at or below a remote target, and none contains one. *)
Definition separated (config : Config) (w0 : World) : Prop :=
  forall d d', In d (sync_directories config) -> In d' (sync_directories config) ->
    ~ resolve w0 (local_path d)
        `prefix_of` resolve w0 (posixpath.join (mount_point config) (remote_path d'))
    /\ ~ resolve w0 (posixpath.join (mount_point config) (remote_path d'))
           `prefix_of` resolve w0 (local_path d).

(** Every entry of the tree has a name. *)
Definition wf_fs (f : gmap (list string) node) : Prop :=
  forall k n, f !! k = Some n -> Forall clean k.

(** [w] has the working directory of [w0] and its local trees. *)
Definition agree (config : Config) (w0 w : World) : Prop :=
  cwd w = cwd w0 /\ forall k, local_key config w0 k -> fs w !! k = fs w0 !! k.

(** A step that reads below a local root and writes around a remote
    target only. *)
Definition good_step (config : Config) (w0 : World) (s : step) : Prop :=
  match s with
  | SMkdir remote => remote_key config w0 (resolve w0 remote)
  | SCreated local remote =>
      _should_sync_file config local = true /\
      Str.truthy remote = true /\
      local_key config w0 (resolve w0 local) /\
      (exists data mt md, fs w0 !! resolve w0 local = Some (File data mt md)) /\
      remote_key config w0 (resolve w0 remote) /\
      resolve w0 remote <> [] /\
      resolve w0 (posixpath.dirname remote) = removelast (resolve w0 remote) /\
      resolve w0 (posixpath.join remote (posixpath.basename local))
      = resolve w0 remote ++ [posixpath.basename local]
  | _ => True
  end.

(** The tree [f'] has every entry of [f], of the same kind. *)
Definition kind_le (f f' : gmap (list string) node) : Prop :=
  forall k n, f !! k = Some n -> exists n', f' !! k = Some n' /\ is_dir n' = is_dir n.

(** The length of the longest key. *)
Definition height (f : gmap (list string) node) : nat :=
  max_list (map (fun kn => length kn.1) (map_to_list f)).

(** The world an outcome carries. *)
Definition outcome_world {A : Type} (o : outcome A) : option World :=
  match o with
  | Done _ w => Some w
  | Raised _ w => Some w
  | OutOfFuel => None
  end.

Definition is_done {A : Type} (o : outcome A) : bool :=
  match o with Done _ _ => true | _ => false end.

(** ** The steps on the tree alone *)

(** [os.makedirs(name, exist_ok=True)] on the tree, [name] resolving to [K]. *)
Definition mkdir_fs (f : gmap (list string) node) (name : string) (K : list string)
    : gmap (list string) node * option exn :=
  if Str.truthy name then makedirs_from [] K f else (f, Some FileNotFoundError).

(** The copy of the file at [ks] to [kd]. *)
Definition copy_fs (f : gmap (list string) node) (ks kd : list string)
    : gmap (list string) node * option exn :=
  match node_at f ks with
  | None => (f, Some FileNotFoundError)
  | Some Dir => (f, Some IsADirectoryError)
  | Some (File data mtime mode) =>
      match check_writable f kd with
      | Some e => (f, Some e)
      | None => (<[kd := File data mtime mode]> f, None)
      end
  end.

(** The destination of a copy to [K]: inside it, under the name [b], when
    it is a directory. *)
Definition copy_target (f : gmap (list string) node) (K : list string) (b : string)
    : list string :=
  match node_at f K with
  | Some Dir => K ++ [b]
  | _ => K
  end.

(** A Created event with a given remote path on the tree: the parent
    directories, then the copy. *)
Definition created_fs (f : gmap (list string) node) (parent : string)
    (ks K : list string) (b : string) : gmap (list string) node * option exn :=
  match mkdir_fs f parent (removelast K) with
  | (f1, Some e) => (f1, Some e)
  | (f1, None) => copy_fs f1 ks (copy_target f1 K b)
  end.

(** One step on the tree, with the exception that ends the run, if any. *)
Definition step_fs (w0 : World) (s : step) (f : gmap (list string) node)
    : gmap (list string) node * option exn :=
  match s with
  | SMkdir remote => mkdir_fs f remote (resolve w0 remote)
  | SCreated local remote =>
      ((created_fs f (posixpath.dirname remote) (resolve w0 local) (resolve w0 remote)
          (posixpath.basename local)).1, None)
  | SAbort e => (f, Some e)
  | _ => (f, None)
  end.

Fixpoint run_fs (w0 : World) (plan : list step) (f : gmap (list string) node)
    : gmap (list string) node * option exn :=
  match plan with
  | [] => (f, None)
  | s :: rest =>
      match step_fs w0 s f with
      | (f1, None) => run_fs w0 rest f1
      | r => r
      end
  end.

(** Every entry of [t] is the entry of [s] or the entry of [F]: a second
    run on its way, [s] being the first run at the same point and [F] the
    tree the first run ended with. *)
Definition rejoin (F s t : gmap (list string) node) : Prop :=
  forall k, t !! k = s !! k \/ t !! k = F !! k.

(** A local tree with a subdirectory and an excluded file, nothing remote
    yet. *)
Definition w_tree : World :=
  mk_world
    [ (["data"], Dir); (["data"; "proj"], Dir);
      (["data"; "proj"; "z.txt"], File "zed" 7 420);
      (["data"; "proj"; "debug.log"], File "trace" 7 420);
      (["data"; "proj"; "sub"], Dir);
      (["data"; "proj"; "sub"; "y.txt"], File "why" 8 420);
      (["mnt"], Dir); (["mnt"; "remote"], Dir) ]
    empty_db.

(** ** What a computation keeps *)

(** [keeps R m]: whenever [m] returns or raises, the world it leaves is
    related by [R] to the one it started in. *)
Definition keeps {A : Type} (R : World -> World -> Prop) (m : M A) : Prop :=
  forall w,
    match m w with
    | Done _ w' => R w w'
    | Raised _ w' => R w w'
    | OutOfFuel => True
    end.

(** The store and the working directory are what they were. *)
Definition same_store (w w' : World) : Prop :=
  db w' = db w /\ cwd w' = cwd w.

(** Nothing was removed and nothing changed its kind. *)
Definition grown (w w' : World) : Prop := kind_le (fs w) (fs w').

(** What a Created or Modified event for [file_path] may do to the tree
    of [w]: the file itself stays as it is, and an entry either stays as
    it is or is a regular file that now holds the copy of [file_path]. *)
Definition copied_into (file_path : string) (w w' : World) : Prop :=
  cwd w' = cwd w
  /\ (forall n, lookup_path w file_path = Some n -> lookup_path w' file_path = Some n)
  /\ (forall k n, fs w !! k = Some n ->
        fs w' !! k = Some n
        \/ (is_dir n = false
            /\ exists data mt md,
                 lookup_path w file_path = Some (File data mt md)
                 /\ fs w' !! k = Some (File data mt md))).

(** Every regular file of [w'] has the content, modification time and
    mode of a regular file of [w]. *)
Definition only_copies (w w' : World) : Prop :=
  forall k data mt md, fs w' !! k = Some (File data mt md) ->
    exists k', fs w !! k' = Some (File data mt md).

(** The warning of [full_sync] for a local root that does not exist. *)
Definition missing_root_warning (d : DirConfig) : LogEntry :=
  log_entry WARNING ("Local directory does not exist: " +:+ local_path d) None.

(** The value a computation returns, if it returns. *)
Definition answer {A : Type} (o : outcome A) : option A :=
  match o with
  | Done a _ => Some a
  | _ => None
  end.

(** The records of the store; none when the table is missing. *)
Definition records (w : World) : gmap string Row :=
  match db w with
  | Some d => files d
  | None => ∅
  end.

(** ** Pre- and postconditions *)

(** [hoare pre m post exc]: started in a world that satisfies [pre], the
    computation [m] returns a value and a world that satisfy [post], or
    raises an exception and leaves a world that satisfy [exc]. *)
Definition hoare {A : Type} (pre : World -> Prop) (m : M A)
    (post : A -> World -> Prop) (exc : exn -> World -> Prop) : Prop :=
  forall w, pre w ->
    match m w with
    | Done a w' => post a w'
    | Raised e w' => exc e w'
    | OutOfFuel => True
    end.

(** The exception [e] and the world [w'] are what a call of
    [os.makedirs(name, exist_ok=True)] raised and left behind. *)
Definition raised_by_makedirs (e : exn) (w' : World) : Prop :=
  exists name w0, os_makedirs name w0 = Raised e w'.

(** A world whose tree is well formed. *)
Definition wf_world (w : World) : Prop := wf_fs (fs w).

(** ** The remote tree as a mirror of the local trees *)

(** The resolved local root and remote target of a mapping. *)
Definition local_root (w0 : World) (d : DirConfig) : list string :=
  resolve w0 (local_path d).

Definition remote_root (config : Config) (w0 : World) (d : DirConfig) : list string :=
  resolve w0 (posixpath.join (mount_point config) (remote_path d)).

(** The walk from [L] reaches the directory [L ++ sfx]: it and all the
    directories above it, down from [L], are directories. *)
Definition walked (w0 : World) (L sfx : list string) : Prop :=
  forall p, p `prefix_of` sfx -> node_at (fs w0) (L ++ p) = Some Dir.

(** Mappings whose remote targets are equal or nested are the same
    mapping: they have the same local root and the same remote target. *)
Definition distinct_targets (config : Config) (w0 : World) : Prop :=
  forall d d', In d (sync_directories config) -> In d' (sync_directories config) ->
    remote_root config w0 d `prefix_of` remote_root config w0 d' ->
    local_root w0 d = local_root w0 d' /\ remote_root config w0 d = remote_root config w0 d'.

(** The steps of the plan mirror the local trees: a directory is made
    at the remote target of a mapping or at the counterpart of a walked
    local directory, and a copy hands a file of a walked local directory
    to its counterpart under the remote target of the same mapping. *)
Definition mirror_step (config : Config) (w0 : World) (s : step) : Prop :=
  match s with
  | SMkdir remote =>
      exists d sfx,
        In d (sync_directories config)
        /\ resolve w0 remote = remote_root config w0 d ++ sfx
        /\ (sfx <> [] -> walked w0 (local_root w0 d) sfx)
  | SCreated local remote =>
      exists d sfx n,
        In d (sync_directories config)
        /\ walked w0 (local_root w0 d) sfx
        /\ resolve w0 local = local_root w0 d ++ sfx ++ [n]
        /\ resolve w0 remote = remote_root config w0 d ++ sfx ++ [n]
        /\ posixpath.basename local = n
        /\ (Str.truthy (posixpath.join (mount_point config) (remote_path d)) = true ->
            Str.truthy (posixpath.dirname remote) = true)
  | _ => True
  end.

(** [walked], computed. *)
Fixpoint walkedb (f : gmap (list string) node) (L sfx : list string) : bool :=
  match node_at f L with
  | Some Dir =>
      match sfx with
      | [] => true
      | x :: sfx' => walkedb f (L ++ [x]) sfx'
      end
  | _ => false
  end.

(** The entry at [k] is the copy of a file of a walked local directory
    whose name is not excluded, at its remote counterpart or, when a
    directory stood there, inside it under the same name. *)
Definition copied_from_local (config : Config) (w0 : World) (k : list string)
    (c : node) : Prop :=
  exists d sfx n,
    In d (sync_directories config)
    /\ walked w0 (local_root w0 d) sfx
    /\ fs w0 !! (local_root w0 d ++ sfx ++ [n]) = Some c
    /\ _should_sync_file config n = true
    /\ (k = remote_root config w0 d ++ sfx ++ [n]
        \/ k = remote_root config w0 d ++ sfx ++ [n] ++ [n]).

(** ** Normalised paths *)

(** A normalised absolute path: a slash followed by proper names joined
    by slashes.  It has no [.] and no [..] component, no empty component
    and no trailing slash, so [os.path.abspath] leaves it as it is and
    every component names the entry that a lookup component by component
    goes through. *)
Definition plain_path (p : string) : Prop :=
  exists comps, Forall clean comps /\ p = "/" +:+ Str.sepjoin comps.

(** Every configured local root and every remote target, as
    [sync_directory] joins it from the mount point and the mapping's
    remote path, is a normalised absolute path. *)
Definition plain_config (config : Config) : Prop :=
  Forall (fun d =>
            plain_path (local_path d)
            /\ plain_path (posixpath.join (mount_point config) (remote_path d)))
    (sync_directories config).
(** ** Facts about Python strings *)

Section StrFacts.

Lemma app_cons (c : ascii) (s t : string) : String c s +:+ t = String c (s +:+ t).
Proof. reflexivity. Qed.

Lemma app_nil (t : string) : "" +:+ t = t.
Proof. reflexivity. Qed.

Lemma app_empty_r (s : string) : s +:+ "" = s.
Proof.
  induction s as [|c s IH]; [reflexivity|].
  now rewrite app_cons, IH.
Qed.

Lemma app_assoc_s (a b c : string) : (a +:+ b) +:+ c = a +:+ (b +:+ c).
Proof.
  induction a as [|x a IH]; [reflexivity|].
  now rewrite !app_cons, IH.
Qed.

Lemma startswith_spec (s p : string) :
  Str.startswith s p = true <-> exists x, s = p +:+ x.
Proof.
  unfold Str.startswith. revert s.
  induction p as [|a p IH]; intros s.
  - destruct s; simpl; split; eauto.
  - destruct s as [|b s]; simpl.
    + split; [discriminate | intros [x Hx]; discriminate].
    + destruct (ascii_dec a b) as [->|Hne].
      * rewrite IH. split; intros [x Hx]; exists x; rewrite ?app_cons in *; congruence.
      * split; [discriminate | intros [x Hx]; rewrite app_cons in Hx; congruence].
Qed.

Lemma rev_app (a b : string) : Str.rev (a +:+ b) = Str.rev b +:+ Str.rev a.
Proof.
  induction a as [|x a IH].
  - now rewrite app_nil, app_empty_r.
  - rewrite app_cons. cbn [Str.rev]. now rewrite IH, app_assoc_s.
Qed.

Lemma rev_involutive (s : string) : Str.rev (Str.rev s) = s.
Proof.
  induction s as [|c s IH]; [reflexivity|].
  cbn [Str.rev]. now rewrite rev_app, IH.
Qed.

Lemma endswith_spec (s p : string) :
  Str.endswith s p = true <-> exists x, s = x +:+ p.
Proof.
  unfold Str.endswith. fold (Str.startswith (Str.rev s) (Str.rev p)).
  rewrite startswith_spec. split; intros [x Hx].
  - exists (Str.rev x).
    rewrite <- (rev_involutive s), Hx, rev_app. now rewrite rev_involutive.
  - exists (Str.rev x). now rewrite Hx, rev_app.
Qed.

Lemma startswith_char (s : string) (c : ascii) :
  Str.startswith s (String c "") = true <-> s = String c (Str.drop_first s).
Proof.
  rewrite startswith_spec. split.
  - intros [x ->]. reflexivity.
  - intros ->. now exists (Str.drop_first s).
Qed.

Lemma drop_last_snoc (s : string) (c : ascii) :
  Str.drop_last (s +:+ String c "") = s.
Proof.
  induction s as [|a s IH]; [reflexivity|].
  rewrite app_cons. cbn [Str.drop_last]. rewrite IH.
  destruct s; reflexivity.
Qed.

Lemma endswith_char (s : string) (c : ascii) :
  Str.endswith s (String c "") = true <-> s = Str.drop_last s +:+ String c "".
Proof.
  rewrite endswith_spec. split.
  - intros [x ->]. now rewrite drop_last_snoc.
  - intros ->. now exists (Str.drop_last s).
Qed.

Lemma startswith_false (s p : string) :
  Str.startswith s p = false <-> ~ exists x, s = p +:+ x.
Proof.
  rewrite <- startswith_spec. destruct (Str.startswith s p); split; congruence.
Qed.

End StrFacts.

(** ** The sync policy, rule by rule *)

Lemma pattern_excludes_spec (pattern filename : string) :
  pattern_excludes pattern filename = true <-> excluded_by pattern filename.
Proof.
  unfold pattern_excludes.
  destruct (Str.startswith pattern "*") eqn:Hs.
  - apply startswith_char in Hs. rewrite endswith_spec. split.
    + intros [x Hx]. exact (excl_suffix _ _ (Str.drop_first pattern) x Hs Hx).
    + intros [r x Hp Hf | r x Hn _ _ | Hn _ _].
      * exists x. rewrite Hp. exact Hf.
      * apply startswith_false in Hn. destruct Hn. eexists. exact Hs.
      * apply startswith_false in Hn. destruct Hn. eexists. exact Hs.
  - destruct (Str.endswith pattern "*") eqn:He.
    + apply endswith_char in He. rewrite startswith_spec. split.
      * intros [x Hx]. exact (excl_prefix _ _ (Str.drop_last pattern) x Hs He Hx).
      * intros [r x Hp Hf | r x _ Hp Hf | _ Hn _].
        -- apply startswith_false in Hs. destruct Hs. exists r. exact Hp.
        -- exists x. rewrite Hp, drop_last_snoc. exact Hf.
        -- assert (Str.endswith pattern "*" = true) as Ht
             by (apply endswith_spec; eexists; exact He).
           congruence.
    + rewrite String.eqb_eq. split.
      * intros Heq. now apply excl_exact.
      * intros [r x Hp Hf | r x _ Hp Hf | _ _ Heq].
        -- apply startswith_false in Hs. destruct Hs. exists r. exact Hp.
        -- assert (Str.endswith pattern "*" = true) as Ht
             by (apply endswith_spec; eauto).
           congruence.
        -- exact Heq.
Qed.

Lemma scan_patterns_false (patterns : list string) (filename : string) :
  scan_patterns patterns filename = false
  <-> exists pattern, In pattern patterns /\ excluded_by pattern filename.
Proof.
  induction patterns as [|p rest IH]; simpl.
  - split; [discriminate | intros (p & [] & _)].
  - destruct (pattern_excludes p filename) eqn:Hp.
    + split; [|reflexivity]. intros _. exists p. split; [now left|].
      now apply pattern_excludes_spec.
    + rewrite IH. split.
      * intros (q & Hin & Hq). exists q. split; [now right | exact Hq].
      * intros (q & [<- | Hin] & Hq).
        -- apply pattern_excludes_spec in Hq. congruence.
        -- eauto.
Qed.

Lemma scan_dirs_false (dirs : list DirConfig) (filename : string) :
  scan_dirs dirs filename = false
  <-> exists d pattern,
        In d dirs /\ In pattern (exclude_patterns d) /\ excluded_by pattern filename.
Proof.
  induction dirs as [|d rest IH]; simpl.
  - split; [discriminate | intros (d & p & [] & _)].
  - destruct (scan_patterns (exclude_patterns d) filename) eqn:Hd.
    + rewrite IH. split.
      * intros (d' & p & Hin & Hp). exists d', p. split; [now right | exact Hp].
      * intros (d' & p & [<- | Hin] & Hp & He).
        -- assert (scan_patterns (exclude_patterns d) filename = false) as Hf
             by (apply scan_patterns_false; eauto).
           congruence.
        -- eauto.
    + split; [|reflexivity]. intros _.
      apply scan_patterns_false in Hd as (p & Hin & Hp).
      exists d, p. split; [now left | now split].
Qed.

(** C5. The policy looks at the file name only and at the exclude patterns
    of every configured directory: a file is refused exactly when some
    pattern of some directory excludes its name, where a pattern that
    begins with a star excludes the names ending with the rest of the
    pattern, a pattern that ends with a star excludes the names starting
    with the rest, and any other pattern excludes the equal name only. *)
Theorem should_sync_file_policy (config : Config) (file_path : string) :
  _should_sync_file config file_path = false
  <-> exists d pattern,
        In d (sync_directories config) /\
        In pattern (exclude_patterns d) /\
        excluded_by pattern (posixpath.basename file_path).
Proof. unfold _should_sync_file. apply scan_dirs_false. Qed.

(** ** The path mapper *)

Lemma relpath_some (cwd : string) (path start : string) :
  path <> "" -> exists rel, posixpath.relpath cwd path start = Some rel.
Proof.
  intros Hne. unfold posixpath.relpath.
  destruct path as [|c p]; [congruence|]. cbn [Str.truthy negb].
  match goal with |- context [match ?l with [] => _ | _ => _ end] => destruct l end;
    eauto.
Qed.

Lemma get_remote_path_loop_skip (cwd : string) (mount : string)
    (pre rest : list DirConfig) (local : string) :
  Forall (fun d => Str.startswith local (local_path d) = false) pre ->
  get_remote_path_loop cwd mount (pre ++ rest) local
  = get_remote_path_loop cwd mount rest local.
Proof.
  induction 1 as [|d pre Hd _ IH]; [reflexivity|].
  cbn [app get_remote_path_loop]. now rewrite Hd.
Qed.

Lemma get_remote_path_loop_none (cwd : string) (mount : string)
    (dirs : list DirConfig) (local : string) :
  get_remote_path_loop cwd mount dirs local = Returns None
  <-> Forall (fun d => Str.startswith local (local_path d) = false) dirs.
Proof.
  induction dirs as [|d dirs IH]; cbn [get_remote_path_loop].
  - split; [constructor | reflexivity].
  - destruct (Str.startswith local (local_path d)) eqn:Hd.
    + split.
      * destruct (posixpath.relpath cwd local (local_path d)); discriminate.
      * intros HF. inversion HF; congruence.
    + rewrite IH. split.
      * intros HF. now constructor.
      * intros HF. now inversion HF.
Qed.

(** C6. The mapper scans the configured directories in order and the first
    one whose local root is a string prefix of the path wins; the result is
    the mount point joined with that directory's remote path and with the
    path relative to the local root.  It is absent exactly when no local
    root is a prefix.  The first match need not be the longest, and a
    partial prefix matches: with the roots /data and /database in this
    order, /database/x is mapped through /data. *)
Theorem get_remote_path_first_match (cwd : string) (config : Config)
    (local : string) :
  (forall pre d post,
      sync_directories config = pre ++ d :: post ->
      Forall (fun d' => Str.startswith local (local_path d') = false) pre ->
      Str.startswith local (local_path d) = true ->
      local <> "" ->
      exists rel,
        posixpath.relpath cwd local (local_path d) = Some rel /\
        _get_remote_path cwd config local
        = Returns (Some (posixpath.join
                           (posixpath.join (mount_point config) (remote_path d))
                           rel)))
  /\ (_get_remote_path cwd config local = Returns None
      <-> Forall (fun d => Str.startswith local (local_path d) = false)
                 (sync_directories config))
  /\ _get_remote_path "/" cfg_overlap "/database/x"
     = Returns (Some "/mnt/remote/proj/../database/x").
Proof.
  split; [|split].
  - intros pre d post Hdirs Hpre Hd Hne.
    destruct (relpath_some cwd local (local_path d) Hne) as [rel Hrel].
    exists rel. split; [exact Hrel|].
    unfold _get_remote_path. rewrite Hdirs, get_remote_path_loop_skip by exact Hpre.
    cbn [get_remote_path_loop]. now rewrite Hd, Hrel.
  - apply get_remote_path_loop_none.
  - reflexivity.
Qed.

Lemma get_remote_path_first_match_witness :
  exists rel,
    posixpath.relpath "/" "/database/x" "/data" = Some rel /\
    _get_remote_path "/" cfg_overlap "/database/x"
    = Returns (Some (posixpath.join (posixpath.join "/mnt/remote" "proj") rel)).
Proof.
  apply (proj1 (get_remote_path_first_match "/" cfg_overlap "/database/x")
           [] {| local_path := "/data"; remote_path := "proj"; exclude_patterns := [] |}
           [ {| local_path := "/database"; remote_path := "db"; exclude_patterns := [] |} ]).
  - reflexivity.
  - constructor.
  - reflexivity.
  - discriminate.
Defined.

(** ** Examples of the policy and the mapper *)

Example basename_ex : posixpath.basename "/data/proj/src/main.c" = "main.c".
Proof. reflexivity. Qed.

Example dirname_ex : posixpath.dirname "/mnt/remote/proj/src/main.c" = "/mnt/remote/proj/src".
Proof. reflexivity. Qed.

Example dirname_root_ex : posixpath.dirname "/x" = "/".
Proof. reflexivity. Qed.

Example remote_ex :
  _get_remote_path "/" cfg_example "/data/proj/src/main.c"
  = Returns (Some "/mnt/remote/proj/src/main.c").
Proof. reflexivity. Qed.

Example excluded_ex : _should_sync_file cfg_example "/data/proj/debug.log" = false.
Proof. reflexivity. Qed.


Example exclude_suffix_ex : pattern_excludes "*.tmp" "a.tmp" = true.
Proof. reflexivity. Qed.

Example exclude_prefix_ex : pattern_excludes "cache*" "cache_1.txt" = true.
Proof. reflexivity. Qed.

Example exclude_exact_ex :
  pattern_excludes "secret.txt" "secret.txt" = true
  /\ pattern_excludes "secret.txt" "secret.txt.bak" = false.
Proof. split; reflexivity. Qed.

Example relpath_partial_ex : posixpath.relpath "/" "/database/x" "/data" = Some "../database/x".
Proof. reflexivity. Qed.

(** ** The metadata store *)

Ltac munfold :=
  unfold logger in *;
  unfold mbind, M_bind, mret, M_ret, get, modify, raise, try_except, lift_result in *.

Lemma stat_of_exists (w : World) (p : string) (st : Z * Z) :
  stat_of w p = Some st -> os_path_exists w p = true.
Proof.
  unfold stat_of, os_path_exists. destruct (lookup_path w p); [reflexivity | discriminate].
Qed.

Lemma exists_stat_of (w : World) (p : string) :
  os_path_exists w p = true -> exists st, stat_of w p = Some st.
Proof.
  unfold stat_of, os_path_exists.
  destruct (lookup_path w p) as [[data mt md|]|]; try discriminate; eauto.
Qed.

Lemma get_file_metadata_table (w : World) (d : Database) (path : string) :
  db w = Some d ->
  MetadataDB.get_file_metadata path w = Done (files d !! path) w.
Proof.
  intros Hd. unfold MetadataDB.get_file_metadata, MetadataDB.connect,
    MetadataDB.select_by_path. munfold. now rewrite Hd.
Qed.

(** Without the table the lookup fails, the failure is logged and the
    answer is "no record". *)
Lemma get_file_metadata_no_table (w : World) (path : string) :
  db w = None ->
  MetadataDB.get_file_metadata path w
  = Done None (add_log {| log_level := ERROR;
                          log_msg := "Error getting metadata for " +:+ path;
                          log_exc := Some OperationalError |} w).
Proof.
  intros Hd. unfold MetadataDB.get_file_metadata, MetadataDB.connect,
    MetadataDB.select_by_path. munfold. now rewrite Hd.
Qed.

(** C2, as the code has it.  [needs_sync] answers false for every path
    that no longer exists on disk, with or without a record; for an
    existing path it answers true when there is no record, and with a
    record it answers true exactly when the current modification time is
    strictly greater than the recorded one or the current size differs
    from the recorded one. *)
Theorem needs_sync_spec (w : World) (path : string) :
  (os_path_exists w path = false ->
   MetadataDB.needs_sync path w = Done false w)
  /\ (forall d,
        os_path_exists w path = true -> db w = Some d -> files d !! path = None ->
        MetadataDB.needs_sync path w = Done true w)
  /\ (forall d r mt sz,
        stat_of w path = Some (mt, sz) -> db w = Some d -> files d !! path = Some r ->
        MetadataDB.needs_sync path w
        = Done (bool_decide (modified_time r < mt \/ sz <> size r)) w).
Proof.
  split; [|split].
  - intros He. unfold MetadataDB.needs_sync. munfold. now rewrite He.
  - intros d He Hd Hr. unfold MetadataDB.needs_sync. munfold.
    rewrite He. cbn [negb]. rewrite (get_file_metadata_table w d path Hd), Hr.
    reflexivity.
  - intros d r mt sz Hst Hd Hr. unfold MetadataDB.needs_sync. munfold.
    rewrite (stat_of_exists _ _ _ Hst). cbn [negb].
    rewrite (get_file_metadata_table w d path Hd), Hr.
    unfold os_stat. rewrite Hst. cbn [fst snd]. f_equal.
    destruct (decide (modified_time r < mt)) as [Hlt|Hlt];
      destruct (decide (sz = size r)) as [Heq|Heq].
    + rewrite (bool_decide_eq_true_2 _ Hlt). cbn [orb].
      symmetry. apply bool_decide_eq_true_2. now left.
    + rewrite (bool_decide_eq_true_2 _ Hlt). cbn [orb].
      symmetry. apply bool_decide_eq_true_2. now left.
    + rewrite (bool_decide_eq_false_2 _ Hlt), (bool_decide_eq_true_2 _ Heq).
      cbn [orb negb]. symmetry. apply bool_decide_eq_false_2. tauto.
    + rewrite (bool_decide_eq_false_2 _ Hlt), (bool_decide_eq_false_2 _ Heq).
      cbn [orb negb]. symmetry. apply bool_decide_eq_true_2. now right.
Qed.

Lemma needs_sync_spec_witness :
  MetadataDB.needs_sync "/data/proj/a.txt" w_deleted = Done false w_deleted
  /\ MetadataDB.needs_sync "/data/proj/b.txt" w_new = Done true w_new
  /\ MetadataDB.needs_sync "/mnt/remote/proj/a.txt"
       (set_db (Some {| files := {[ "/mnt/remote/proj/a.txt" := row_a ]};
                        sqlite_sequence := 1 |}) w_deleted)
     = Done (bool_decide (modified_time row_a < 5 \/ 5 <> size row_a))
         (set_db (Some {| files := {[ "/mnt/remote/proj/a.txt" := row_a ]};
                          sqlite_sequence := 1 |}) w_deleted).
Proof.
  split; [|split].
  - apply (proj1 (needs_sync_spec w_deleted "/data/proj/a.txt")). reflexivity.
  - apply (proj1 (proj2 (needs_sync_spec w_new "/data/proj/b.txt"))
             {| files := ∅; sqlite_sequence := 0 |}); reflexivity.
  - apply (proj2 (proj2 (needs_sync_spec _ "/mnt/remote/proj/a.txt"))
             {| files := {[ "/mnt/remote/proj/a.txt" := row_a ]}; sqlite_sequence := 1 |}
             row_a 5 5); reflexivity.
Defined.

(** The file is gone and its record is still there: the answer is false,
    where the contract asks for true. *)
Lemma needs_sync_contract_fails :
  ~ needs_sync_contract w_deleted "/data/proj/a.txt".
Proof.
  intros H.
  destruct (H {| files := {[ "/data/proj/a.txt" := row_a ]}; sqlite_sequence := 1 |}
              eq_refl) as [Hgone _].
  destruct Hgone as [w' Hw'].
  - reflexivity.
  - exists row_a. reflexivity.
  - discriminate Hw'.
Qed.

(** [update_file_metadata] on a path that exists never reaches its
    [UPDATE] or [INSERT]: evaluating the arguments raises (the unbound name
    [time], or the missing table before that), the handler logs it, and
    nothing is committed. *)
Lemma update_file_metadata_existing (w : World) (path : string) :
  os_path_exists w path = true ->
  exists e,
    MetadataDB.update_file_metadata path w
    = Done tt (add_log {| log_level := ERROR;
                          log_msg := "Error updating metadata for " +:+ path;
                          log_exc := Some e |} w).
Proof.
  intros He. destruct (exists_stat_of w path He) as [st Hst].
  unfold MetadataDB.update_file_metadata, MetadataDB.connect,
    MetadataDB.select_by_path, MetadataDB.time_time, MetadataDB.load_global.
  munfold. rewrite He. cbn [negb]. unfold os_stat. rewrite Hst.
  destruct (db w) as [d|].
  - exists NameError. destruct (files d !! path); reflexivity.
  - exists OperationalError. reflexivity.
Qed.

(** C3 on a concrete input.  [b.txt] exists and has no record; after
    [update_file_metadata] the store is what it was, without a record for
    it, and the log holds the [NameError]. *)
Theorem update_file_metadata_drops_record :
  let path := "/data/proj/b.txt" in
  let w' := final_world (MetadataDB.update_file_metadata path w_new) w_new in
  os_path_exists w_new path = true
  /\ db w' = db w_new
  /\ ~ has_record w' path
  /\ log w' = [ {| log_level := ERROR;
                   log_msg := "Error updating metadata for /data/proj/b.txt";
                   log_exc := Some NameError |} ]
  /\ ~ upsert_contract w_new path.
Proof.
  cbv zeta. split; [reflexivity|]. split; [reflexivity|].
  assert (~ has_record (final_world (MetadataDB.update_file_metadata "/data/proj/b.txt" w_new) w_new)
            "/data/proj/b.txt") as Hno.
  { intros (d & r & Hd & Hr). vm_compute in Hd. injection Hd as <-.
    vm_compute in Hr. discriminate Hr. }
  split; [exact Hno|]. split; [reflexivity|].
  intros H. destruct (H 5 5 eq_refl) as (w' & d & r & Hrun & Hd & Hr & _).
  apply Hno. exists d, r.
  rewrite Hrun. cbn [final_world]. now split.
Qed.

(** ** Facts about paths *)

Section PathFacts.

Lemma truthy_ne (s : string) : Str.truthy s = true <-> s <> "".
Proof. destruct s; simpl; split; congruence. Qed.

Lemma truthy_app_r (a b : string) : Str.truthy b = true -> Str.truthy (a +:+ b) = true.
Proof. destruct a; [now rewrite app_nil | reflexivity]. Qed.

Lemma truthy_app_l (a b : string) : Str.truthy a = true -> Str.truthy (a +:+ b) = true.
Proof. destruct a; [discriminate | reflexivity]. Qed.

Lemma split_nonempty (s : string) : Str.split s <> [].
Proof.
  induction s as [|c s IH]; cbn [Str.split]; [discriminate|].
  destruct (Ascii.eqb c "/"); [discriminate|].
  destruct (Str.split s); [contradiction | discriminate].
Qed.

Lemma split_app_slash (a b : string) :
  Str.split (a +:+ String "/" b) = Str.split a ++ Str.split b.
Proof.
  induction a as [|c a IH].
  - reflexivity.
  - rewrite app_cons. cbn [Str.split]. rewrite IH.
    destruct (Ascii.eqb c "/"); [reflexivity|].
    pose proof (split_nonempty a) as Hne.
    destruct (Str.split a); [contradiction | reflexivity].
Qed.

Lemma startswith_app_l (a b : string) (p : ascii) :
  a <> "" -> Str.startswith (a +:+ b) (String p "") = Str.startswith a (String p "").
Proof.
  intros Hne. destruct a as [|c a]; [congruence|].
  rewrite app_cons. unfold Str.startswith. simpl.
  destruct (ascii_dec p c); [|reflexivity]. now destruct a, b.
Qed.

Lemma endswith_app_r (a b : string) (p : ascii) :
  b <> "" -> Str.endswith (a +:+ b) (String p "") = Str.endswith b (String p "").
Proof.
  intros Hne. unfold Str.endswith. rewrite rev_app.
  fold (Str.startswith (Str.rev b +:+ Str.rev a) (Str.rev (String p ""))).
  fold (Str.startswith (Str.rev b) (Str.rev (String p ""))).
  apply startswith_app_l.
  intros Hr. apply Hne. rewrite <- (rev_involutive b), Hr. reflexivity.
Qed.

Lemma endswith_slash_inv (a : string) :
  Str.endswith a "/" = true -> exists a', a = a' +:+ "/".
Proof. intros H. apply endswith_spec in H. exact H. Qed.

Lemma join_cases (a b : string) : join_shape a b (posixpath.join a b).
Proof.
  unfold posixpath.join.
  destruct (Str.startswith b "/") eqn:Hb; [now constructor|].
  destruct a as [|c a].
  - cbn [Str.truthy negb orb]. apply join_cat; auto.
  - cbn [Str.truthy negb orb].
    destruct (Str.endswith (String c a) "/") eqn:He.
    + apply join_cat; auto.
    + apply join_sep; [assumption | discriminate | assumption].
Qed.

Lemma join_relative (a b : string) :
  Str.startswith b "/" = false ->
  posixpath.join a b
  = if negb (Str.truthy a) || Str.endswith a "/" then a +:+ b else a +:+ "/" +:+ b.
Proof. intros Hb. unfold posixpath.join. now rewrite Hb. Qed.

Lemma join_absolute (a b : string) :
  Str.startswith b "/" = true -> posixpath.join a b = b.
Proof. intros Hb. unfold posixpath.join. now rewrite Hb. Qed.

Lemma join_truthy (a b : string) :
  Str.truthy b = true -> Str.truthy (posixpath.join a b) = true.
Proof.
  intros Hb. destruct (join_cases a b); [exact Hb | |];
    repeat apply truthy_app_r; exact Hb.
Qed.

Lemma join_assoc (a b c : string) :
  posixpath.join a (posixpath.join b c) = posixpath.join (posixpath.join a b) c.
Proof.
  destruct (Str.startswith c "/") eqn:Hc.
  { now rewrite !(join_absolute _ c Hc). }
  destruct b as [|x b].
  - (* b empty *)
    replace (posixpath.join "" c) with c
      by (rewrite join_relative by exact Hc; reflexivity).
    destruct (join_cases a "") as [Habs | _ Ha | _ Hne He]; [discriminate | |].
    + rewrite app_empty_r. reflexivity.
    + rewrite !join_relative by exact Hc.
      assert (Str.truthy a = true) as Ht by now apply truthy_ne.
      rewrite Ht, He. cbn [negb orb].
      assert (Str.truthy (a +:+ "/" +:+ "") = true) as Ht' by now apply truthy_app_l.
      assert (Str.endswith (a +:+ "/" +:+ "") "/" = true) as He'.
      { apply endswith_spec. exists a. reflexivity. }
      rewrite Ht', He'. cbn [negb orb].
      rewrite !app_assoc_s. reflexivity.
  - (* b not empty *)
    set (b' := String x b) in *.
    assert (b' <> "") as Hb' by discriminate.
    destruct (Str.startswith b' "/") eqn:Hbs.
    + rewrite (join_absolute a b' Hbs).
      assert (Str.startswith (posixpath.join b' c) "/" = true) as Hj.
      { destruct (join_cases b' c); [congruence | |];
          rewrite startswith_app_l by exact Hb'; exact Hbs. }
      now rewrite (join_absolute a _ Hj).
    + assert (forall s, Str.startswith (b' +:+ s) "/" = false) as Hrel.
      { intros s. rewrite startswith_app_l by exact Hb'. exact Hbs. }
      assert (Str.truthy b' = true) as Htb by reflexivity.
      rewrite (join_relative b' c Hc). rewrite Htb. cbn [negb orb].
      rewrite (join_relative a b' Hbs).
      destruct (negb (Str.truthy a) || Str.endswith a "/") eqn:Hsep.
      * assert (Str.endswith (a +:+ b') "/" = Str.endswith b' "/") as He
          by now apply endswith_app_r.
        rewrite (join_relative (a +:+ b') c Hc), He.
        rewrite (truthy_app_r a b' Htb). cbn [negb orb].
        destruct (Str.endswith b' "/").
        -- rewrite (join_relative a _ (Hrel c)), Hsep. now rewrite app_assoc_s.
        -- rewrite (join_relative a _ (Hrel _)), Hsep. now rewrite !app_assoc_s.
      * assert (Str.endswith (a +:+ "/" +:+ b') "/" = Str.endswith b' "/") as He.
        { rewrite <- app_assoc_s. now apply endswith_app_r. }
        rewrite (join_relative (a +:+ "/" +:+ b') c Hc), He.
        rewrite (truthy_app_r a _ (truthy_app_r "/" b' Htb)). cbn [negb orb].
        destruct (Str.endswith b' "/").
        -- rewrite (join_relative a _ (Hrel c)), Hsep. now rewrite !app_assoc_s.
        -- rewrite (join_relative a _ (Hrel _)), Hsep. now rewrite !app_assoc_s.
Qed.

Lemma norm_comps_app (st l1 l2 : list string) :
  posixpath.norm_comps st (l1 ++ l2)
  = posixpath.norm_comps (posixpath.norm_comps st l1) l2.
Proof.
  revert st. induction l1 as [|c l1 IH]; intros st; [reflexivity|].
  cbn [app posixpath.norm_comps].
  destruct (String.eqb c "" || String.eqb c "."); [apply IH|].
  destruct (String.eqb c ".."); apply IH.
Qed.

(** Joining a relative path resolves component by component from where
    the first path resolves to. *)
Lemma abs_comps_join (cwd a b : string) :
  Str.startswith b "/" = false ->
  posixpath.abs_comps cwd (posixpath.join a b)
  = posixpath.norm_comps (posixpath.abs_comps cwd a) (Str.split b).
Proof.
  intros Hb. unfold posixpath.abs_comps. rewrite join_assoc.
  set (X := posixpath.join cwd a).
  destruct (join_cases X b) as [Habs | _ [HX | HX] | _ HX He]; [congruence | | |].
  - rewrite HX. reflexivity.
  - apply endswith_slash_inv in HX as [X' ->].
    rewrite app_assoc_s.
    change ("/" +:+ b) with (String "/" b).
    change (X' +:+ "/") with (X' +:+ String "/" "").
    rewrite !split_app_slash, !norm_comps_app. reflexivity.
  - change ("/" +:+ b) with (String "/" b).
    now rewrite split_app_slash, norm_comps_app.
Qed.

End PathFacts.

Section CleanFacts.

Lemma split_no_slash (s : string) :
  Forall (fun c => Str.has_slash c = false) (Str.split s).
Proof.
  induction s as [|c s IH]; cbn [Str.split].
  - repeat constructor.
  - destruct (Ascii.eqb c "/") eqn:Hc.
    + constructor; [reflexivity | exact IH].
    + destruct (Str.split s) as [|h t]; [repeat constructor; simpl; now rewrite Hc|].
      inversion IH as [|? ? Hh Ht]; subst.
      constructor; [|exact Ht]. simpl. now rewrite Hc, Hh.
Qed.

Lemma split_single (s : string) : Str.has_slash s = false -> Str.split s = [s].
Proof.
  induction s as [|c s IH]; [reflexivity|].
  simpl. destruct (Ascii.eqb c "/"); [discriminate|].
  cbn [orb]. intros H. now rewrite (IH H).
Qed.

Lemma Forall_removelast {A : Type} (P : A -> Prop) (l : list A) :
  Forall P l -> Forall P (removelast l).
Proof.
  induction 1 as [|x l Hx Hl IH]; [constructor|].
  cbn [removelast]. destruct l; [constructor | now constructor].
Qed.

Lemma norm_comps_clean (st comps : list string) :
  Forall clean st ->
  Forall (fun c => Str.has_slash c = false) comps ->
  Forall clean (posixpath.norm_comps st comps).
Proof.
  intros Hst Hc. revert st Hst.
  induction Hc as [|c comps Hs _ IH]; intros st Hst; [exact Hst|].
  cbn [posixpath.norm_comps].
  destruct (String.eqb c "") eqn:E1; [now apply IH|].
  destruct (String.eqb c ".") eqn:E2; [now apply IH|].
  cbn [orb]. destruct (String.eqb c "..") eqn:E3.
  - apply IH. now apply Forall_removelast.
  - apply IH. apply Forall_app. split; [exact Hst|].
    constructor; [|constructor].
    apply String.eqb_neq in E1, E2, E3. now repeat split.
Qed.

Lemma abs_comps_clean (cwd p : string) : Forall clean (posixpath.abs_comps cwd p).
Proof. apply norm_comps_clean; [constructor | apply split_no_slash]. Qed.

Lemma norm_comps_clean_id (st l : list string) :
  Forall clean l -> posixpath.norm_comps st l = st ++ l.
Proof.
  intros Hl. revert st. induction Hl as [|c l (H1 & H2 & H3 & _) _ IH]; intros st.
  - now rewrite app_nil_r.
  - cbn [posixpath.norm_comps].
    apply String.eqb_neq in H1, H2, H3. rewrite H1, H2, H3. cbn [orb].
    rewrite IH, <- app_assoc. reflexivity.
Qed.

Lemma sepjoin_cons_truthy (x : string) (l : list string) :
  x <> "" -> Str.truthy (Str.sepjoin (x :: l)) = true.
Proof.
  intros Hx. cbn [Str.sepjoin].
  destruct l; [now apply truthy_ne | apply truthy_app_l; now apply truthy_ne].
Qed.

Lemma relpath_truthy (cwd path start rel : string) :
  posixpath.relpath cwd path start = Some rel -> Str.truthy rel = true.
Proof.
  unfold posixpath.relpath.
  destruct (negb (Str.truthy path)); [discriminate|].
  set (sl := posixpath.abs_comps cwd start).
  set (pl := posixpath.abs_comps cwd path).
  set (i := length (posixpath.commonprefix sl pl)).
  destruct (length sl - i)%nat as [|n] eqn:Hn.
  - cbn [repeat app].
    assert (Forall clean (drop i pl)) as Hd.
    { apply Forall_drop, abs_comps_clean. }
    destruct (drop i pl) as [|x l]; [intros [= <-]; reflexivity|].
    intros [= <-]. apply sepjoin_cons_truthy.
    inversion Hd as [|? ? Hx _]; subst. apply Hx.
  - cbn [repeat app]. intros [= <-]. now apply sepjoin_cons_truthy.
Qed.

Lemma get_remote_path_truthy (cwd : string) (config : Config) (local remote : string) :
  _get_remote_path cwd config local = Returns (Some remote) ->
  Str.truthy remote = true.
Proof.
  unfold _get_remote_path. generalize (sync_directories config) as dirs.
  induction dirs as [|d dirs IH]; cbn [get_remote_path_loop]; [discriminate|].
  destruct (Str.startswith local (local_path d)); [|exact IH].
  destruct (posixpath.relpath cwd local (local_path d)) as [rel|] eqn:Hrel;
    [|discriminate].
  intros [= <-]. apply join_truthy. exact (relpath_truthy _ _ _ _ Hrel).
Qed.

End CleanFacts.

Ltac solve_clean :=
  split; [discriminate | split; [discriminate | split; [discriminate | reflexivity]]].
Ltac solve_clean_list := repeat (apply List.Forall_cons; [solve_clean|]); apply List.Forall_nil.

(** ** Normalised paths *)

Lemma cfg_example_plain : plain_config cfg_example.
Proof.
  apply List.Forall_cons; [|apply List.Forall_nil]. split.
  - exists ["data"; "proj"]. split; [solve_clean_list | reflexivity].
  - exists ["mnt"; "remote"; "proj"]. split; [solve_clean_list | reflexivity].
Qed.

(** ** File system operations *)

Section FsFacts.

Lemma makedirs_from_mono (base rest : list string) (f : gmap (list string) node)
    (k : list string) (n : node) :
  f !! k = Some n -> (makedirs_from base rest f).1 !! k = Some n.
Proof.
  revert base f. induction rest as [|c rest IH]; intros base f Hk; [exact Hk|].
  cbn [makedirs_from].
  destruct (f !! (base ++ [c])) as [[data mt md|]|] eqn:Hc.
  - exact Hk.
  - now apply IH.
  - apply IH. rewrite lookup_insert_ne; [exact Hk|]. congruence.
Qed.

Lemma makedirs_from_new (base rest : list string) (f : gmap (list string) node)
    (k : list string) (n : node) :
  (makedirs_from base rest f).1 !! k = Some n ->
  f !! k = Some n \/ (f !! k = None /\ n = Dir).
Proof.
  revert base f. induction rest as [|c rest IH]; intros base f Hk; [now left|].
  cbn [makedirs_from] in Hk.
  destruct (f !! (base ++ [c])) as [[data mt md|]|] eqn:Hc.
  - now left.
  - now apply IH in Hk.
  - apply IH in Hk. destruct (decide (base ++ [c] = k)) as [<-|Hne].
    + rewrite lookup_insert_eq in Hk. right. split; [exact Hc|].
      destruct Hk as [Hk | [Hk _]]; congruence.
    + rewrite lookup_insert_ne in Hk by exact Hne. exact Hk.
Qed.

Lemma node_at_snoc (f : gmap (list string) node) (base : list string) (c : string) :
  node_at f (base ++ [c]) = f !! (base ++ [c]).
Proof. unfold node_at. destruct base; reflexivity. Qed.

Lemma makedirs_from_dir (base rest : list string) (f : gmap (list string) node) :
  node_at f base = Some Dir ->
  (makedirs_from base rest f).2 = None ->
  node_at (makedirs_from base rest f).1 (base ++ rest) = Some Dir.
Proof.
  revert base f. induction rest as [|c rest IH]; intros base f Hb Hok.
  - now rewrite app_nil_r.
  - cbn [makedirs_from] in *.
    replace (base ++ c :: rest) with ((base ++ [c]) ++ rest)
      by now rewrite <- app_assoc.
    destruct (f !! (base ++ [c])) as [[data mt md|]|] eqn:Hc.
    + discriminate Hok.
    + apply IH; [|exact Hok]. now rewrite node_at_snoc.
    + apply IH; [|exact Hok]. rewrite node_at_snoc. apply lookup_insert_eq.
Qed.

Lemma os_makedirs_inv (name : string) (w : World) :
  (exists e, os_makedirs name w = Raised e w)
  \/ (exists e, os_makedirs name w
                = Raised e (set_fs (makedirs_from [] (resolve w name) (fs w)).1 w))
  \/ (os_makedirs name w
      = Done tt (set_fs (makedirs_from [] (resolve w name) (fs w)).1 w)
      /\ (makedirs_from [] (resolve w name) (fs w)).2 = None).
Proof.
  unfold os_makedirs. destruct (negb (Str.truthy name)); [left; eauto|].
  destruct (makedirs_from [] (resolve w name) (fs w)) as [f [e|]]; cbn [fst snd];
    [right; left; eauto | right; right; auto].
Qed.

Lemma check_writable_not_dir (f : gmap (list string) node) (k : list string) :
  check_writable f k = None -> node_at f k <> Some Dir.
Proof.
  unfold check_writable. destruct (node_at f k) as [[data mt md|]|]; congruence.
Qed.

Lemma node_at_insert_ne (f : gmap (list string) node) (k k' : list string) (n : node) :
  k <> k' -> node_at (<[k := n]> f) k' = node_at f k'.
Proof.
  intros Hne. destruct k'; [reflexivity|]. cbn [node_at].
  apply lookup_insert_ne. exact Hne.
Qed.

Lemma node_at_insert_file (f : gmap (list string) node) (k : list string)
    (data : string) (mt md : Z) :
  node_at f k <> Some Dir ->
  node_at (<[k := File data mt md]> f) k = Some (File data mt md).
Proof.
  intros Hk. destruct k; [now destruct Hk|]. cbn [node_at]. apply lookup_insert_eq.
Qed.

(** What [shutil.copy2] does when it returns, and that it changes
    nothing when it raises. *)
Lemma shutil_copy2_inv (src dst : string) (w : World) :
  (exists e, shutil_copy2 src dst w = Raised e w)
  \/ (exists data mt md dst',
        dst' = (if os_path_isdir w dst
                then posixpath.join dst (posixpath.basename src) else dst) /\
        lookup_path w src = Some (File data mt md) /\
        check_writable (fs w) (resolve w dst') = None /\
        shutil_copy2 src dst w
        = Done dst' (set_fs (<[resolve w dst' := File data mt md]> (fs w)) w)).
Proof.
  unfold shutil_copy2, lookup_path.
  set (dst' := if os_path_isdir w dst then _ else _).
  destruct (os_path_exists w src && os_path_exists w dst'
            && bool_decide (resolve w src = resolve w dst')); [left; eauto|].
  destruct (node_at (fs w) (resolve w src)) as [[data mt md|]|]; [|left; eauto..].
  destruct (check_writable (fs w) (resolve w dst')) eqn:Hcw; [left; eauto|].
  right. exists data, mt, md, dst'. auto.
Qed.

End FsFacts.

(** ** The reconciler, event by event *)

(** C10.  The exclusion check comes first: when the file name matches an
    exclude pattern, [sync_file] does nothing but write a debug line, for
    every action, "deleted" and "moved" included; the tree and the
    metadata store are what they were. *)
Theorem sync_file_excluded_noop (config : Config) (action file_path : string)
    (dest_path : option string) (w : World) :
  _should_sync_file config file_path = false ->
  exists w',
    sync_file config action file_path dest_path w = Done tt w' /\
    fs w' = fs w /\ db w' = db w /\
    log w' = log w ++ [log_entry DEBUG ("Skipping excluded file: " +:+ file_path) None].
Proof.
  intros Hex. unfold sync_file. rewrite Hex. cbn [negb]. munfold.
  eexists. split; [reflexivity|]. repeat split.
Qed.

Lemma sync_file_excluded_noop_witness :
  exists w',
    sync_file cfg_example "deleted" "/data/proj/debug.log" None w_log = Done tt w' /\
    fs w' = fs w_log /\ db w' = db w_log /\
    log w' = log w_log
             ++ [log_entry DEBUG ("Skipping excluded file: " +:+ "/data/proj/debug.log") None].
Proof.
  apply (sync_file_excluded_noop cfg_example "deleted" "/data/proj/debug.log" None w_log).
  reflexivity.
Defined.

Lemma sync_file_mapped (config : Config) (action file_path remote : string) (w : World) :
  _should_sync_file config file_path = true ->
  _get_remote_path (cwd w) config file_path = Returns (Some remote) ->
  sync_file config action file_path None w
  = try_except (sync_action config action file_path None remote)
      (fun e => logger ERROR ("Error syncing file " +:+ file_path) (Some e)) w.
Proof.
  intros Hs Hr. unfold sync_file, dest_or_remote. rewrite Hs. cbn [negb].
  munfold. rewrite Hr. munfold. cbn [truthy_opt].
  now rewrite (get_remote_path_truthy _ _ _ _ Hr).
Qed.

(** C7, as the code has it.  For a Deleted event whose file name is not
    excluded and whose remote path is resolvable and is a normalised
    absolute path (no [.], no [..], no empty component), [sync_file]
    removes the remote file when there is one and touches nothing when
    there is none: afterwards no regular file is at the remote path, every
    other path is as before, and the metadata store has not been touched.
    The record is removed by [delete_file_metadata], which the engine does
    not call.  On a remote path with a [..] component [os.path.exists]
    and [os.remove] go through the entry before the [..], which the
    resolution by [abspath] drops; such paths are left out here. *)
Theorem sync_file_deleted (config : Config) (file_path remote : string) (w : World) :
  _should_sync_file config file_path = true ->
  _get_remote_path (cwd w) config file_path = Returns (Some remote) ->
  plain_path remote ->
  (exists w',
     sync_file config "deleted" file_path None w = Done tt w' /\
     db w' = db w /\
     (forall data mt md, lookup_path w' remote <> Some (File data mt md)) /\
     (forall p, resolve w p <> resolve w remote -> lookup_path w' p = lookup_path w p) /\
     (os_path_exists w remote = false -> w' = w))
  /\ (forall d, db w = Some d ->
        exists w'' d',
          MetadataDB.delete_file_metadata file_path w = Done tt w'' /\
          fs w'' = fs w /\ db w'' = Some d' /\
          files d' = delete file_path (files d)).
Proof.
  intros Hs Hr _. split.
  - rewrite (sync_file_mapped _ _ _ _ _ Hs Hr).
    unfold sync_action. cbn [String.eqb Ascii.eqb Bool.eqb orb]. munfold.
    unfold os_path_exists at 1.
    destruct (lookup_path w remote) as [[data mt md|]|] eqn:Hl.
    + (* a regular file: removed *)
      unfold os_remove. rewrite Hl.
      eexists. split; [reflexivity|]. split; [reflexivity|].
      unfold lookup_path in *. cbn [fs set_fs add_log].
      change (resolve (add_log _ (set_fs _ w))) with (resolve w).
      assert (resolve w remote <> []) as Hne.
      { intros E. rewrite E in Hl. discriminate. }
      split; [|split].
      * intros data' mt' md'. destruct (resolve w remote) eqn:E; [congruence|].
        cbn [node_at]. now rewrite lookup_delete_eq.
      * intros p Hp. destruct (resolve w p) eqn:E; [reflexivity|]. cbn [node_at].
        apply lookup_delete_ne. congruence.
      * unfold os_path_exists, lookup_path. now rewrite Hl.
    + (* a directory: [os.remove] raises, the handler logs *)
      unfold os_remove. rewrite Hl.
      eexists. split; [reflexivity|]. split; [reflexivity|].
      unfold lookup_path in *. cbn [fs add_log].
      change (resolve (add_log _ w)) with (resolve w).
      split; [|split].
      * intros data mt md. now rewrite Hl.
      * reflexivity.
      * unfold os_path_exists, lookup_path. now rewrite Hl.
    + exists w. repeat split. intros data mt md. now rewrite Hl.
  - intros d Hd. unfold MetadataDB.delete_file_metadata, MetadataDB.connect,
      MetadataDB.delete_row, MetadataDB.commit. munfold. rewrite Hd.
    eexists _, _. split; [reflexivity|]. repeat split.
Qed.

Lemma sync_file_deleted_witness :
  (exists w',
     sync_file cfg_example "deleted" "/data/proj/a.txt" None w_deleted = Done tt w' /\
     db w' = db w_deleted /\
     (forall data mt md,
         lookup_path w' "/mnt/remote/proj/a.txt" <> Some (File data mt md)) /\
     (forall p, resolve w_deleted p <> resolve w_deleted "/mnt/remote/proj/a.txt" ->
                lookup_path w' p = lookup_path w_deleted p) /\
     (os_path_exists w_deleted "/mnt/remote/proj/a.txt" = false -> w' = w_deleted))
  /\ (forall d, db w_deleted = Some d ->
        exists w'' d',
          MetadataDB.delete_file_metadata "/data/proj/a.txt" w_deleted = Done tt w'' /\
          fs w'' = fs w_deleted /\ db w'' = Some d' /\
          files d' = delete "/data/proj/a.txt" (files d)).
Proof.
  apply (sync_file_deleted cfg_example "/data/proj/a.txt" "/mnt/remote/proj/a.txt"
           w_deleted).
  - reflexivity.
  - reflexivity.
  - exists ["mnt"; "remote"; "proj"; "a.txt"]. split; [solve_clean_list | reflexivity].
Defined.

(** The remote file goes, the record stays: the second half of the
    table's postcondition fails. *)
Lemma deleted_contract_fails :
  ~ deleted_contract cfg_example w_deleted "/data/proj/a.txt".
Proof.
  intros H. destruct (H "/mnt/remote/proj/a.txt" eq_refl) as [_ Hrec].
  apply Hrec. exists {| files := {[ "/data/proj/a.txt" := row_a ]}; sqlite_sequence := 1 |}, row_a.
  split; reflexivity.
Qed.

(** C4, as the code has it.  For a Created or Modified event whose file
    name is not excluded and whose remote path is resolvable, [sync_file]
    returns and never touches the metadata store.  Either it logs an
    error, or the parent directory of the remote path exists afterwards
    and the remote path holds the bytes, modification time and mode of the
    local file, whatever was there before (the copy lands inside the
    remote path, under the file's name, when that path is a directory). *)
Theorem sync_file_created (config : Config) (action file_path remote : string)
    (w : World) :
  action = "created" \/ action = "modified" ->
  _should_sync_file config file_path = true ->
  _get_remote_path (cwd w) config file_path = Returns (Some remote) ->
  exists w',
    sync_file config action file_path None w = Done tt w' /\
    db w' = db w /\
    ((exists e,
        log w' = log w ++ [log_entry ERROR ("Error syncing file " +:+ file_path) (Some e)])
     \/ (exists data mt md,
           let dst := if os_path_isdir w' remote
                      then posixpath.join remote (posixpath.basename file_path)
                      else remote in
           lookup_path w file_path = Some (File data mt md) /\
           lookup_path w' dst = Some (File data mt md) /\
           os_path_isdir w' (posixpath.dirname remote) = true /\
           log w' = log w
                    ++ [log_entry INFO
                          ("Synced " +:+ action +:+ " file: " +:+ file_path
                           +:+ " -> " +:+ remote) None])).
Proof.
  intros Hact Hs Hr. rewrite (sync_file_mapped _ _ _ _ _ Hs Hr).
  unfold sync_action.
  replace (String.eqb action "created" || String.eqb action "modified") with true
    by (destruct Hact as [-> | ->]; reflexivity).
  munfold.
  destruct (os_makedirs_inv (posixpath.dirname remote) w)
    as [[e He] | [[e He] | [He Hok]]]; rewrite He.
  1, 2: eexists; split; [reflexivity|]; split; [reflexivity|]; left; eexists; reflexivity.
  pose proof (makedirs_from_dir [] (resolve w (posixpath.dirname remote)) (fs w)
                eq_refl Hok) as Hparent.
  pose proof (fun k n => makedirs_from_new [] (resolve w (posixpath.dirname remote))
                           (fs w) k n) as Hnew.
  revert Hparent Hnew.
  generalize ((makedirs_from [] (resolve w (posixpath.dirname remote)) (fs w)).1) as f1.
  intros f1 Hparent Hnew. cbn [app] in Hparent.
  destruct (shutil_copy2_inv file_path remote (set_fs f1 w))
    as [[e Hc] | (data & mt & md & dst & Hdst & Hsrc & Hcw & Hc)]; rewrite Hc.
  { eexists. split; [reflexivity|]. split; [reflexivity|]. left. eexists. reflexivity. }
  eexists. split; [reflexivity|]. split; [reflexivity|]. right.
  exists data, mt, md.
  unfold os_path_isdir, lookup_path in *. cbn [fs set_fs add_log] in *.
  change (resolve (add_log _ _)) with (resolve w).
  change (resolve (set_fs f1 w)) with (resolve w) in *.
  pose proof (check_writable_not_dir _ _ Hcw) as Hnd.
  assert (match node_at (<[resolve w dst := File data mt md]> f1) (resolve w remote) with
          | Some Dir => true | _ => false end
          = match node_at f1 (resolve w remote) with
            | Some Dir => true | _ => false end) as Hb.
  { destruct (decide (resolve w dst = resolve w remote)) as [E|E].
    - rewrite <- E, node_at_insert_file by exact Hnd.
      destruct (node_at f1 (resolve w dst)) as [[|]|]; congruence.
    - now rewrite node_at_insert_ne. }
  rewrite Hb, <- Hdst.
  split; [|split; [|split]].
  - destruct (resolve w file_path) as [|c l] eqn:E; [discriminate Hsrc|].
    cbn [node_at] in *.
    apply Hnew in Hsrc as [Hsrc | [_ Hsrc]]; [exact Hsrc | discriminate].
  - now apply node_at_insert_file.
  - rewrite node_at_insert_ne; [now rewrite Hparent|]. congruence.
  - reflexivity.
Qed.

Lemma sync_file_created_witness :
  exists w',
    sync_file cfg_example "created" "/data/proj/b.txt" None w_new = Done tt w' /\
    db w' = db w_new /\
    ((exists e,
        log w' = log w_new
                 ++ [log_entry ERROR ("Error syncing file " +:+ "/data/proj/b.txt") (Some e)])
     \/ (exists data mt md,
           let dst := if os_path_isdir w' "/mnt/remote/proj/b.txt"
                      then posixpath.join "/mnt/remote/proj/b.txt"
                             (posixpath.basename "/data/proj/b.txt")
                      else "/mnt/remote/proj/b.txt" in
           lookup_path w_new "/data/proj/b.txt" = Some (File data mt md) /\
           lookup_path w' dst = Some (File data mt md) /\
           os_path_isdir w' (posixpath.dirname "/mnt/remote/proj/b.txt") = true /\
           log w' = log w_new
                    ++ [log_entry INFO
                          ("Synced " +:+ "created" +:+ " file: " +:+ "/data/proj/b.txt"
                           +:+ " -> " +:+ "/mnt/remote/proj/b.txt") None])).
Proof.
  apply (sync_file_created cfg_example "created" "/data/proj/b.txt"
           "/mnt/remote/proj/b.txt" w_new).
  - now left.
  - reflexivity.
  - reflexivity.
Defined.

(** The copy is made and no record is written: the upsert of the table's
    postcondition does not happen. *)
Lemma created_contract_fails :
  ~ created_contract cfg_example "created" w_new "/data/proj/b.txt".
Proof.
  intros H.
  destruct (H "/mnt/remote/proj/b.txt" (File "hello" 5 420) eq_refl eq_refl)
    as [_ (d & r & Hd & Hr)].
  vm_compute in Hd. injection Hd as <-. vm_compute in Hr. discriminate Hr.
Qed.

(** ** Moving *)

Section MoveFacts.

Lemma set_fs_id (w : World) : set_fs (fs w) w = w.
Proof. now destruct w. Qed.

Lemma foldr_insert_is_Some (key : list string * node -> list string)
    (l : list (list string * node)) (m : gmap (list string) node) (k : list string) :
  is_Some (m !! k) \/ (exists kn, In kn l /\ key kn = k) ->
  is_Some (foldr (fun kn m => <[key kn := kn.2]> m) m l !! k).
Proof.
  induction l as [|x l IH]; cbn [foldr].
  - intros [H | (kn & Hin & _)]; [exact H | destruct Hin].
  - intros H. destruct (decide (key x = k)) as [<-|Hne].
    + rewrite lookup_insert_eq. eauto.
    + rewrite lookup_insert_ne by exact Hne. apply IH.
      destruct H as [H | (kn & [<- | Hin] & Hk)]; [now left | congruence | right; eauto].
Qed.

Lemma subtree_root (a : list string) (f : gmap (list string) node) (n : node) :
  f !! a = Some n -> In (a, n) (subtree a f).
Proof.
  intros Ha. unfold subtree. apply filter_In. split.
  - apply list_elem_of_In, elem_of_map_to_list. exact Ha.
  - apply bool_decide_eq_true_2. reflexivity.
Qed.

(** The root of a moved tree arrives at the target. *)
Lemma move_tree_target (a b : list string) (f : gmap (list string) node) (n : node) :
  f !! a = Some n -> is_Some (move_tree a b f !! b).
Proof.
  intros Ha. unfold move_tree.
  apply (foldr_insert_is_Some (fun kn => b ++ drop (length a) kn.1)).
  right. exists (a, n). split; [now apply subtree_root|].
  cbn [fst]. now rewrite drop_all, app_nil_r.
Qed.

(** What is not below the source stays. *)
Lemma move_tree_keep (a b k : list string) (f : gmap (list string) node) (n : node) :
  ~ a `prefix_of` k -> f !! k = Some n -> is_Some (move_tree a b f !! k).
Proof.
  intros Hk Hf. unfold move_tree.
  apply (foldr_insert_is_Some (fun kn => b ++ drop (length a) kn.1)).
  left. exists n. apply map_lookup_filter_Some. split; [exact Hf | exact Hk].
Qed.

Lemma node_at_is_Some (f : gmap (list string) node) (k : list string) :
  is_Some (node_at f k) <-> k = [] \/ is_Some (f !! k).
Proof.
  destruct k; cbn [node_at].
  - split; [now left | eauto].
  - split; [now right | intros [? | ?]; [discriminate | assumption]].
Qed.

Lemma exists_is_Some (w : World) (p : string) :
  os_path_exists w p = true <-> is_Some (node_at (fs w) (resolve w p)).
Proof.
  unfold os_path_exists, lookup_path.
  destruct (node_at (fs w) (resolve w p)); split; eauto; try discriminate.
  intros [? ?]; discriminate.
Qed.

Lemma isdir_node (w : World) (p : string) :
  os_path_isdir w p = true <-> node_at (fs w) (resolve w p) = Some Dir.
Proof.
  unfold os_path_isdir, lookup_path.
  destruct (node_at (fs w) (resolve w p)) as [[|]|]; split; congruence.
Qed.

Lemma basename_no_slash (p : string) : Str.has_slash (posixpath.basename p) = false.
Proof.
  unfold posixpath.basename. pose proof (split_no_slash p) as H.
  induction H as [|x l Hx Hl IH]; [reflexivity|].
  cbn [List.last]. destruct l; [exact Hx | exact IH].
Qed.

Lemma no_slash_relative (s : string) :
  Str.has_slash s = false -> Str.startswith s "/" = false.
Proof.
  intros H. apply startswith_false. intros [x ->].
  change ("/" +:+ x) with (String "/" x) in H. discriminate H.
Qed.

(** Appending one name to a path: the name is skipped, pops the last
    component, or is appended. *)
Lemma resolve_join_name (w : World) (d name : string) :
  Str.has_slash name = false ->
  resolve w (posixpath.join d name) = resolve w d
  \/ resolve w (posixpath.join d name) = removelast (resolve w d)
  \/ resolve w (posixpath.join d name) = resolve w d ++ [name].
Proof.
  intros Hn. unfold resolve.
  rewrite abs_comps_join by now apply no_slash_relative.
  rewrite (split_single _ Hn). cbn [posixpath.norm_comps].
  destruct (String.eqb name "" || String.eqb name "."); [now left|].
  destruct (String.eqb name ".."); [right; now left | right; now right].
Qed.

Lemma prefix_removelast (a k : list string) :
  a `prefix_of` k -> ~ a `prefix_of` removelast k -> a = k.
Proof.
  intros [t ->] Hn. destruct t as [|x t] using rev_ind.
  - now rewrite app_nil_r.
  - destruct Hn. rewrite app_assoc, removelast_last. now exists t.
Qed.

Lemma same_but_fs_refl (w : World) : same_but_fs w w.
Proof. unfold same_but_fs. now rewrite set_fs_id. Qed.

Lemma same_but_fs_set (w : World) (f : gmap (list string) node) :
  same_but_fs w (set_fs f w).
Proof. reflexivity. Qed.

(** [shutil.move] changes the tree only, and when it returns something
    is at the destination. *)
Lemma shutil_move_spec (src dst : string) (w : World) :
  (exists e w', shutil_move src dst w = Raised e w' /\ same_but_fs w w')
  \/ (exists w', shutil_move src dst w = Done tt w' /\ same_but_fs w w'
                 /\ os_path_exists w' dst = true).
Proof.
  unfold shutil_move.
  destruct (os_path_isdir w dst && os_path_exists w src
            && bool_decide (resolve w src = resolve w dst)) eqn:Hsame.
  { right. exists w. split; [reflexivity|]. split; [apply same_but_fs_refl|].
    apply andb_prop in Hsame as [Hsame _]. apply andb_prop in Hsame as [Hd _].
    apply exists_is_Some. apply isdir_node in Hd. rewrite Hd. eauto. }
  set (real_dst := if os_path_isdir w dst then _ else dst).
  destruct (os_path_isdir w dst && os_path_exists w real_dst) eqn:Hblock.
  { left. eexists _, _. split; [reflexivity | apply same_but_fs_refl]. }
  assert (is_Some (node_at (fs w) (resolve w dst)) \/ real_dst = dst) as Hdst.
  { subst real_dst. destruct (os_path_isdir w dst) eqn:Hd; [left | now right].
    apply isdir_node in Hd. rewrite Hd. eauto. }
  destruct (node_at (fs w) (resolve w src)) as [[data mt md|]|] eqn:Hsrc.
  - (* a regular file *)
    destruct (bool_decide (resolve w src = resolve w real_dst)) eqn:Heq.
    + right. exists w. split; [reflexivity|]. split; [apply same_but_fs_refl|].
      apply exists_is_Some. destruct Hdst as [H | ->]; [exact H|].
      apply bool_decide_eq_true_1 in Heq. rewrite <- Heq, Hsrc. eauto.
    + destruct (check_writable (fs w) (resolve w real_dst)) eqn:Hcw.
      { left. eexists _, _. split; [reflexivity | apply same_but_fs_refl]. }
      right. eexists. split; [reflexivity|]. split; [apply same_but_fs_set|].
      apply exists_is_Some. cbn [fs set_fs].
      change (resolve (set_fs _ w) dst) with (resolve w dst).
      apply node_at_is_Some.
      destruct (resolve w dst) as [|c l] eqn:Ek; [now left | right].
      destruct (decide (resolve w real_dst = c :: l)) as [E|E].
      * rewrite E, lookup_insert_eq. eauto.
      * rewrite lookup_insert_ne by exact E.
        destruct Hdst as [H | H]; [|rewrite H, Ek in E; now destruct E].
        cbn [node_at] in H. rewrite lookup_delete_ne; [exact H|].
        intros E'. rewrite E' in Hsrc. cbn [node_at] in Hsrc.
        assert (os_path_isdir w dst = true) as Hd.
        { subst real_dst. destruct (os_path_isdir w dst); [reflexivity|].
          rewrite Ek in E. now destruct E. }
        apply isdir_node in Hd. rewrite Ek in Hd. cbn [node_at] in Hd. congruence.
  - (* a directory *)
    destruct (bool_decide (resolve w src `prefix_of` resolve w real_dst)) eqn:Hpre.
    { left. eexists _, _. split; [reflexivity | apply same_but_fs_refl]. }
    apply bool_decide_eq_false_1 in Hpre.
    destruct (node_at (fs w) (resolve w real_dst)) eqn:Hkd.
    { left. eexists _, _. split; [reflexivity | apply same_but_fs_refl]. }
    pose proof (fun k n => makedirs_from_mono [] (removelast (resolve w real_dst))
                             (fs w) k n) as Hmono.
    destruct (makedirs_from [] (removelast (resolve w real_dst)) (fs w)) as [f [e|]].
    { left. eexists _, _. split; [reflexivity | apply same_but_fs_set]. }
    cbn [fst] in Hmono.
    right. eexists. split; [reflexivity|]. split; [apply same_but_fs_set|].
    assert (resolve w src <> []) as Hne.
    { intros E. apply Hpre. rewrite E. apply prefix_nil. }
    assert (f !! resolve w src = Some Dir) as Hfs.
    { apply Hmono. destruct (resolve w src); [congruence | exact Hsrc]. }
    apply exists_is_Some. cbn [fs set_fs].
    change (resolve (set_fs _ w) dst) with (resolve w dst).
    apply node_at_is_Some.
    destruct Hdst as [Hex | ->]; [|right; now apply (move_tree_target _ _ _ Dir)].
    apply node_at_is_Some in Hex as [Ek | [n Hn]]; [now left | right].
    apply Hmono in Hn.
    apply (move_tree_keep _ _ _ _ n); [|exact Hn].
    intros Hk.
    assert (os_path_isdir w dst = true) as Hd.
    { destruct (os_path_isdir w dst) eqn:Hd; [reflexivity|]. subst real_dst.
      apply Hpre in Hk. contradiction. }
    subst real_dst. rewrite Hd in *.
    destruct (resolve_join_name w dst (posixpath.basename (Str.rstrip_slash src))
                (basename_no_slash _)) as [E | [E | E]]; rewrite E in Hpre.
    + contradiction.
    + apply (prefix_removelast _ _ Hk) in Hpre.
      cbn [andb] in Hsame.
      assert (os_path_exists w src = true) as Hex.
      { apply exists_is_Some. rewrite Hsrc. eauto. }
      rewrite Hex, Hpre in Hsame. cbn [andb] in Hsame.
      rewrite bool_decide_eq_true_2 in Hsame by reflexivity. discriminate.
    + apply Hpre. now apply prefix_app_r.
  - left. eexists _, _. split; [reflexivity | apply same_but_fs_refl].
Qed.

Lemma os_makedirs_same (name : string) (w : World) :
  (exists e w', os_makedirs name w = Raised e w' /\ same_but_fs w w')
  \/ (exists w', os_makedirs name w = Done tt w' /\ same_but_fs w w').
Proof.
  destruct (os_makedirs_inv name w) as [[e He] | [[e He] | [He _]]].
  - left. eexists _, _. split; [exact He | apply same_but_fs_refl].
  - left. eexists _, _. split; [exact He | apply same_but_fs_set].
  - right. eexists. split; [exact He | apply same_but_fs_set].
Qed.

Lemma same_but_fs_trans (w1 w2 w3 : World) :
  same_but_fs w1 w2 -> same_but_fs w2 w3 -> same_but_fs w1 w3.
Proof. unfold same_but_fs. intros H12 H23. rewrite H23 at 1. rewrite H12. reflexivity. Qed.

End MoveFacts.

Lemma same_but_fs_fields (w w' : World) :
  same_but_fs w w' -> db w' = db w /\ log w' = log w /\ cwd w' = cwd w.
Proof. unfold same_but_fs. intros ->. repeat split. Qed.

(** After the rename of [a.txt] to [b.txt] is handled, the remote [a.txt]
    is still there (what moved is the local [b.txt]) and the store still
    holds the record of [a.txt] and none for [b.txt]. *)
Lemma moved_contract_fails :
  ~ moved_contract cfg_example w_renamed "/data/proj/a.txt" "/data/proj/b.txt".
Proof.
  intros H.
  destruct (H "/mnt/remote/proj/a.txt" "/mnt/remote/proj/b.txt" eq_refl eq_refl)
    as [Hgone _].
  vm_compute in Hgone. discriminate Hgone.
Qed.

(** C1 on a concrete input.  [a.txt] was synchronized and then renamed
    to [b.txt] in the watched directory.  Handling the Moved event
    returns and logs a move, but the path that [sync_file] hands to
    [shutil.move] as the source is the local destination path (the
    assignment [remote_path = dest_path or self._get_remote_path(file_path)]
    takes [dest_path] whenever there is one): the remote [a.txt] is never
    looked at and is still there afterwards, the local [b.txt] has left
    the watched directory for the remote tree, and the log reports a move
    of a remote file whose source is a local path.  The store is not
    touched either, so the contract of the Moved event fails on this
    input. *)
Theorem sync_file_moved_leaves_remote_source :
  let src := "/data/proj/a.txt" in
  let dst := "/data/proj/b.txt" in
  let o := sync_file cfg_example "moved" src (Some dst) w_renamed in
  let w' := final_world o w_renamed in
  _get_remote_path (cwd w_renamed) cfg_example src = Returns (Some "/mnt/remote/proj/a.txt")
  /\ _get_remote_path (cwd w_renamed) cfg_example dst
     = Returns (Some "/mnt/remote/proj/b.txt")
  /\ lookup_path w_renamed "/mnt/remote/proj/a.txt" = Some (File "hello" 5 420)
  /\ lookup_path w_renamed dst = Some (File "hello" 5 420)
  /\ is_done o = true
  /\ lookup_path w' "/mnt/remote/proj/a.txt" = Some (File "hello" 5 420)
  /\ lookup_path w' "/mnt/remote/proj/b.txt" = Some (File "hello" 5 420)
  /\ lookup_path w' dst = None
  /\ log w' = [ log_entry INFO
                  "Moved remote file: /data/proj/b.txt -> /mnt/remote/proj/b.txt" None ]
  /\ db w' = db_a
  /\ ~ moved_contract cfg_example w_renamed src dst.
Proof.
  cbv zeta.
  repeat (split; [vm_compute; reflexivity|]).
  exact moved_contract_fails.
Qed.

(** ** The full synchronization *)

(** C8 on a concrete input.  The remote counterpart of the local
    directory [sub] is a regular file: [os.makedirs] in [sync_directory]
    raises [FileExistsError] outside any handler, and [full_sync] ends
    there.  The file [z.txt] of the same directory is never copied, the
    second configured directory is never visited, and the run does not log
    its completion. *)
Theorem full_sync_aborts_on_makedirs :
  exists w',
    full_sync 3 cfg_two w_blocked = Raised FileExistsError w'
    /\ os_path_exists w_blocked "/data/proj/z.txt" = true
    /\ os_path_exists w' "/mnt/remote/proj/z.txt" = false
    /\ os_path_exists w_blocked "/data/other/o.txt" = true
    /\ os_path_exists w' "/mnt/remote/other/o.txt" = false
    /\ log w' = [ log_entry INFO "Starting full synchronization" None;
                  log_entry INFO "Starting directory sync: /data/proj -> /mnt/remote/proj"
                    None ].
Proof. eexists. split; [vm_compute; reflexivity|]. vm_compute. repeat split. Qed.

Section Totality.

Lemma total_ret {A : Type} (a : A) : total (mret a).
Proof. intros w. discriminate. Qed.

Lemma total_bind {A B : Type} (m : M A) (f : A -> M B) :
  total m -> (forall a, total (f a)) -> total (m ≫= f).
Proof.
  intros Hm Hf w. unfold mbind, M_bind. specialize (Hm w).
  destruct (m w); [apply Hf | discriminate | contradiction].
Qed.

Lemma total_raise {A : Type} (e : exn) : total (@raise A e).
Proof. intros w. discriminate. Qed.

Lemma total_get : total get.
Proof. intros w. discriminate. Qed.

Lemma total_logger (l : level) (msg : string) (e : option exn) : total (logger l msg e).
Proof. intros w. discriminate. Qed.

Lemma total_try {A : Type} (body : M A) (handler : exn -> M A) :
  total body -> (forall e, total (handler e)) -> total (try_except body handler).
Proof.
  intros Hb Hh w. unfold try_except. specialize (Hb w).
  destruct (body w); [discriminate | apply Hh | contradiction].
Qed.

Lemma total_lift {A : Type} (r : result A) : total (lift_result r).
Proof. destruct r; [apply total_ret | apply total_raise]. Qed.

Lemma total_makedirs (name : string) : total (os_makedirs name).
Proof.
  intros w. destruct (os_makedirs_same name w) as [(e & w' & -> & _) | (w' & -> & _)];
    discriminate.
Qed.

Lemma total_copy2 (src dst : string) : total (shutil_copy2 src dst).
Proof.
  intros w. destruct (shutil_copy2_inv src dst w) as [[e ->] | (? & ? & ? & ? & _ & _ & _ & ->)];
    discriminate.
Qed.

Lemma total_remove (p : string) : total (os_remove p).
Proof. intros w. unfold os_remove. destruct (lookup_path w p) as [[|]|]; discriminate. Qed.

Lemma total_move (src dst : string) : total (shutil_move src dst).
Proof.
  intros w. destruct (shutil_move_spec src dst w) as [(e & w' & -> & _) | (w' & -> & _)];
    discriminate.
Qed.

Lemma total_sync_action (config : Config) (action file_path : string)
    (dest_path : option string) (remote : string) :
  total (sync_action config action file_path dest_path remote).
Proof.
  unfold sync_action.
  destruct (String.eqb action "created" || String.eqb action "modified").
  { apply total_bind; [apply total_makedirs | intros _].
    apply total_bind; [apply total_copy2 | intros _]. apply total_logger. }
  destruct (String.eqb action "deleted").
  { apply total_bind; [apply total_get | intros w].
    destruct (os_path_exists w remote); [|apply total_ret].
    apply total_bind; [apply total_remove | intros _]. apply total_logger. }
  destruct (String.eqb action "moved"); [|apply total_ret].
  destruct (truthy_opt dest_path); [|apply total_ret].
  apply total_bind; [apply total_get | intros w].
  apply total_bind; [apply total_lift | intros r].
  destruct (truthy_opt r); [|apply total_ret].
  apply total_bind; [apply total_makedirs | intros _].
  apply total_bind; [apply total_move | intros _]. apply total_logger.
Qed.

Lemma total_sync_file (config : Config) (action file_path : string)
    (dest_path : option string) :
  total (sync_file config action file_path dest_path).
Proof.
  unfold sync_file. destruct (negb (_should_sync_file config file_path));
    [apply total_logger|].
  apply total_bind.
  - unfold dest_or_remote.
    destruct dest_path as [d|]; [destruct (Str.truthy d); [apply total_ret|]|];
      (apply total_bind; [apply total_get | intros w; apply total_lift]).
  - intros r. destruct (truthy_opt r); [|apply total_logger].
    apply total_try; [apply total_sync_action | intros e; apply total_logger].
Qed.

End Totality.

(** A single event never raises out of [sync_file] once the remote path
    is given or the path to map is not empty: every file system operation
    of [sync_file] sits inside its handler. *)
Lemma sync_file_returns (config : Config) (action file_path : string)
    (dest_path : option string) (w : World) :
  file_path <> "" \/ (exists d, dest_path = Some d /\ d <> "") ->
  exists w', sync_file config action file_path dest_path w = Done tt w'.
Proof.
  intros Hin. unfold sync_file.
  destruct (_should_sync_file config file_path); cbn [negb]; [|munfold; eauto].
  assert (exists r, dest_or_remote config file_path dest_path w = Done r w) as [r Hr].
  { unfold dest_or_remote.
    assert (file_path <> "" ->
            exists r, (w0 ← get; lift_result (_get_remote_path (cwd w0) config file_path)) w
                      = Done r w) as Hmap.
    { intros Hne. munfold. unfold _get_remote_path.
      generalize (sync_directories config) as dirs.
      induction dirs as [|d dirs IH]; cbn [get_remote_path_loop]; [eauto|].
      destruct (Str.startswith file_path (local_path d)); [|exact IH].
      destruct (relpath_some (cwd w) file_path (local_path d) Hne) as [rel ->]. eauto. }
    destruct Hin as [Hne | (d & -> & Hd)].
    - destruct dest_path as [d|]; [|now apply Hmap].
      destruct (Str.truthy d); [munfold; eauto | now apply Hmap].
    - apply truthy_ne in Hd. rewrite Hd. munfold. eauto. }
  unfold mbind, M_bind at 1. rewrite Hr.
  destruct (truthy_opt r) as [remote|]; [|munfold; eauto].
  unfold try_except.
  pose proof (total_sync_action config action file_path dest_path remote w) as Ht.
  destruct (sync_action config action file_path dest_path remote w) as [[] w'|e w'|].
  - eauto.
  - munfold. eauto.
  - contradiction.
Qed.

(** The second run finds the local root [/mnt/r] that the first run
    created as a remote target, and copies it on to [/mnt/s]. *)
Lemma full_sync_idempotent_fails : ~ full_sync_idempotent cfg_chain w_chain.
Proof.
  intros H.
  assert (exists w1 w2,
             full_sync 3 cfg_chain w_chain = Done tt w1 /\
             full_sync 3 cfg_chain w1 = Done tt w2 /\
             remote_tree cfg_chain w1 !! ["mnt"; "s"; "x.txt"] = None /\
             remote_tree cfg_chain w2 !! ["mnt"; "s"; "x.txt"] = Some (File "ex" 4 420))
    as (w1 & w2 & H1 & H2 & Hn1 & Hn2).
  { eexists _, _. split; [vm_compute; reflexivity|].
    split; [vm_compute; reflexivity|]. split; vm_compute; reflexivity. }
  rewrite (H 3%nat w1 w2 H1 H2) in Hn2. congruence.
Qed.

(** ** Paths below a root *)

Section PathsBelow.

Lemma resolve_join_clean (cwd a n : string) :
  clean n -> posixpath.abs_comps cwd (posixpath.join a n) = posixpath.abs_comps cwd a ++ [n].
Proof.
  intros Hn. pose proof Hn as (_ & _ & _ & Hs).
  rewrite abs_comps_join by now apply no_slash_relative.
  rewrite (split_single _ Hs). apply norm_comps_clean_id. now constructor.
Qed.

Lemma sepjoin_cons2 (x y : string) (l : list string) :
  Str.sepjoin (x :: y :: l) = x +:+ "/" +:+ Str.sepjoin (y :: l).
Proof. reflexivity. Qed.

Lemma split_sepjoin (l : list string) :
  l <> [] -> Forall (fun c => Str.has_slash c = false) l -> Str.split (Str.sepjoin l) = l.
Proof.
  intros Hne Hl. induction Hl as [|x l Hx Hl IH]; [congruence|].
  destruct l as [|y l].
  - cbn [Str.sepjoin]. now apply split_single.
  - rewrite sepjoin_cons2. change ("/" +:+ Str.sepjoin (y :: l)) with (String "/" (Str.sepjoin (y :: l))).
    rewrite split_app_slash, IH by discriminate. now rewrite (split_single _ Hx).
Qed.

Lemma sepjoin_split (s : string) : Str.sepjoin (Str.split s) = s.
Proof.
  induction s as [|c s IH]; [reflexivity|].
  cbn [Str.split]. pose proof (split_nonempty s) as Hne.
  destruct (Ascii.eqb c "/") eqn:Hc.
  - apply Ascii.eqb_eq in Hc. subst c.
    destruct (Str.split s) as [|h t]; [contradiction|].
    rewrite sepjoin_cons2, IH. reflexivity.
  - destruct (Str.split s) as [|h t]; [contradiction|].
    destruct t as [|h' t].
    + cbn [Str.sepjoin] in *. now rewrite IH.
    + rewrite sepjoin_cons2 in *. rewrite app_cons, IH. reflexivity.
Qed.

Lemma clean_no_slash (l : list string) :
  Forall clean l -> Forall (fun c => Str.has_slash c = false) l.
Proof.
  intros Hl. eapply Forall_impl; [exact Hl|]. intros c (_ & _ & _ & H). exact H.
Qed.

Lemma sepjoin_relative (l : list string) :
  Forall clean l -> Str.startswith (Str.sepjoin l) "/" = false.
Proof.
  intros Hl. destruct Hl as [|x l (Hx & _ & _ & Hs) _]; [reflexivity|].
  destruct l as [|y l].
  - cbn [Str.sepjoin]. now apply no_slash_relative.
  - rewrite sepjoin_cons2, startswith_app_l by exact Hx. now apply no_slash_relative.
Qed.

(** Joining a relative path of proper names appends them. *)
Lemma abs_comps_join_sepjoin (cwd a : string) (sfx : list string) :
  Forall clean sfx -> sfx <> [] ->
  posixpath.abs_comps cwd (posixpath.join a (Str.sepjoin sfx))
  = posixpath.abs_comps cwd a ++ sfx.
Proof.
  intros Hc Hne. rewrite abs_comps_join by now apply sepjoin_relative.
  rewrite split_sepjoin by (try exact Hne; now apply clean_no_slash).
  now apply norm_comps_clean_id.
Qed.

Lemma commonprefix_app (l sfx : list string) : posixpath.commonprefix l (l ++ sfx) = l.
Proof.
  induction l as [|x l IH]; [now destruct sfx|].
  cbn [app posixpath.commonprefix]. now rewrite String.eqb_refl, IH.
Qed.

(** The relative path of a path below [start] is what follows [start]. *)
Lemma relpath_under (cwd path start : string) (sfx : list string) :
  path <> "" -> sfx <> [] ->
  posixpath.abs_comps cwd path = posixpath.abs_comps cwd start ++ sfx ->
  posixpath.relpath cwd path start = Some (Str.sepjoin sfx).
Proof.
  intros Hp Hs Heq. unfold posixpath.relpath.
  apply truthy_ne in Hp. rewrite Hp. cbn [negb].
  rewrite Heq, commonprefix_app, Nat.sub_diag, drop_app_length. cbn [repeat app].
  destruct sfx; [congruence | reflexivity].
Qed.

Lemma last_app_ne {A : Type} (l1 l2 : list A) (d : A) :
  l2 <> [] -> List.last (l1 ++ l2) d = List.last l2 d.
Proof.
  intros Hne. induction l1 as [|x l1 IH]; [reflexivity|].
  cbn [app List.last]. rewrite IH.
  destruct (l1 ++ l2) eqn:E; [|reflexivity].
  apply app_eq_nil in E as [_ ->]. congruence.
Qed.

Lemma basename_join (a b : string) :
  posixpath.basename (posixpath.join a b) = posixpath.basename b.
Proof.
  unfold posixpath.basename.
  destruct (join_cases a b) as [_ | _ [-> | He] | _ _ _].
  - reflexivity.
  - reflexivity.
  - apply endswith_slash_inv in He as [a' ->]. rewrite app_assoc_s.
    change ("/" +:+ b) with (String "/" b).
    rewrite split_app_slash. apply last_app_ne, split_nonempty.
  - change ("/" +:+ b) with (String "/" b).
    rewrite split_app_slash. apply last_app_ne, split_nonempty.
Qed.

Lemma basename_sepjoin (l : list string) (n : string) :
  Forall clean l -> clean n -> posixpath.basename (Str.sepjoin (l ++ [n])) = n.
Proof.
  intros Hl Hn. unfold posixpath.basename.
  rewrite split_sepjoin.
  - apply last_last.
  - now destruct l.
  - apply clean_no_slash, Forall_app. split; [exact Hl | now constructor].
Qed.

Lemma basename_clean_name (n : string) : clean n -> posixpath.basename n = n.
Proof.
  intros (_ & _ & _ & Hs). unfold posixpath.basename. now rewrite (split_single _ Hs).
Qed.

End PathsBelow.

(** On a normalised absolute path the resolution is the list of its
    names: nothing is skipped and nothing is popped. *)
Lemma plain_path_resolve (w : World) (comps : list string) :
  Forall clean comps -> resolve w ("/" +:+ Str.sepjoin comps) = comps.
Proof.
  intros Hc. unfold resolve, posixpath.abs_comps.
  change ("/" +:+ Str.sepjoin comps) with (String "/" (Str.sepjoin comps)).
  rewrite join_absolute by (apply startswith_char; reflexivity).
  change (Str.split (String "/" (Str.sepjoin comps)))
    with (EmptyString :: Str.split (Str.sepjoin comps)).
  cbn [posixpath.norm_comps String.eqb orb].
  destruct comps as [|c comps]; [reflexivity|].
  rewrite split_sepjoin.
  - now rewrite norm_comps_clean_id.
  - discriminate.
  - eapply List.Forall_impl; [|exact Hc]. intros a (_ & _ & _ & Ha). exact Ha.
Qed.

(** ** The parent of a path *)

Section Dirname.

Lemma rstrip_spec (s : string) : exists n, s = Str.rstrip_slash s +:+ Str.slashes n.
Proof.
  induction s as [|c s [n IH]].
  - exists 0%nat. reflexivity.
  - cbn [Str.rstrip_slash]. destruct (Str.rstrip_slash s) as [|c' r'] eqn:E.
    + rewrite app_nil in IH. destruct (Ascii.eqb c "/") eqn:Hc.
      * apply Ascii.eqb_eq in Hc. subst c. exists (S n). rewrite app_nil, IH. reflexivity.
      * exists n. rewrite app_cons, app_nil, <- IH. reflexivity.
    + exists n. rewrite app_cons, <- IH. reflexivity.
Qed.

Lemma all_slashes_slashes (n : nat) : Str.all_slashes (Str.slashes n) = true.
Proof. induction n as [|n IH]; [reflexivity|]. cbn. exact IH. Qed.

Lemma rstrip_not_all (s : string) :
  Str.all_slashes s = false -> Str.rstrip_slash s <> "".
Proof.
  intros Hs He. destruct (rstrip_spec s) as [n Hn].
  rewrite He, app_nil in Hn. rewrite Hn, all_slashes_slashes in Hs. discriminate.
Qed.

Lemma join_app_r (a y z : string) :
  y <> "" -> posixpath.join a (y +:+ z) = posixpath.join a y +:+ z.
Proof.
  intros Hy. unfold posixpath.join.
  rewrite startswith_app_l by exact Hy.
  destruct (Str.startswith y "/"); [reflexivity|].
  destruct (negb (Str.truthy a) || Str.endswith a "/"); now rewrite !app_assoc_s.
Qed.

Lemma abs_comps_app_slash (cwd y : string) :
  y <> "" -> posixpath.abs_comps cwd (y +:+ "/") = posixpath.abs_comps cwd y.
Proof.
  intros Hy. unfold posixpath.abs_comps. rewrite join_app_r by exact Hy.
  change "/" with (String "/" "") at 1.
  rewrite split_app_slash, norm_comps_app. reflexivity.
Qed.

Lemma app_slashes_S (y : string) (n : nat) :
  y +:+ Str.slashes (S n) = (y +:+ "/") +:+ Str.slashes n.
Proof. rewrite app_assoc_s. reflexivity. Qed.

Lemma abs_comps_app_slashes (cwd y : string) (n : nat) :
  y <> "" -> posixpath.abs_comps cwd (y +:+ Str.slashes n) = posixpath.abs_comps cwd y.
Proof.
  revert y. induction n as [|n IH]; intros y Hy.
  - cbn [Str.slashes]. now rewrite app_empty_r.
  - rewrite app_slashes_S, IH.
    + now apply abs_comps_app_slash.
    + destruct y; discriminate.
Qed.

Lemma abs_comps_rstrip (cwd s : string) :
  Str.all_slashes s = false ->
  posixpath.abs_comps cwd (Str.rstrip_slash s) = posixpath.abs_comps cwd s.
Proof.
  intros Hs. destruct (rstrip_spec s) as [n Hn].
  rewrite Hn at 2. symmetry. apply abs_comps_app_slashes. now apply rstrip_not_all.
Qed.

Lemma sepjoin_snoc (l : list string) (t : string) :
  l <> [] -> Str.sepjoin (l ++ [t]) = Str.sepjoin l +:+ "/" +:+ t.
Proof.
  intros Hne. induction l as [|x l IH]; [congruence|].
  destruct l as [|y l].
  - reflexivity.
  - cbn [app] in *. rewrite !sepjoin_cons2, IH by discriminate.
    now rewrite !app_assoc_s.
Qed.

Lemma last_no_slash (s : string) : Str.has_slash (List.last (Str.split s) "") = false.
Proof. apply basename_no_slash. Qed.

(** A path resolves to where its parent resolves to, followed by its
    last component. *)
Lemma abs_comps_dirname (cwd x : string) :
  posixpath.abs_comps cwd x
  = posixpath.norm_comps (posixpath.abs_comps cwd (posixpath.dirname x))
      [posixpath.basename x].
Proof.
  pose proof (sepjoin_split x) as Hx.
  pose proof (basename_no_slash x) as Hb.
  unfold posixpath.dirname, posixpath.basename in *.
  destruct (Str.split x) as [|t0 parts] eqn:E; [now destruct (split_nonempty x)|].
  destruct parts as [|t1 parts].
  - (* no slash *)
    cbn [Str.sepjoin List.last] in *. subst t0.
    assert (posixpath.join "" x = x) as Hj.
    { rewrite join_relative by now apply no_slash_relative. reflexivity. }
    rewrite <- Hj at 1.
    rewrite abs_comps_join by now apply no_slash_relative.
    now rewrite (split_single _ Hb).
  - set (l := t0 :: t1 :: parts) in *.
    assert (l <> []) as Hl by discriminate.
    destruct (exists_last Hl) as (init & t & Hlt).
    rewrite Hlt in *. rewrite removelast_last. rewrite last_last in *.
    assert (init <> []) as Hi.
    { intros ->. subst l. discriminate Hlt. }
    rewrite sepjoin_snoc in Hx by exact Hi.
    set (head := Str.sepjoin init +:+ "/") in *.
    assert (x = posixpath.join head t) as Hj.
    { rewrite join_relative by now apply no_slash_relative.
      assert (Str.endswith head "/" = true) as ->
        by (apply endswith_spec; now exists (Str.sepjoin init)).
      rewrite orb_true_r. rewrite <- Hx. subst head. now rewrite app_assoc_s. }
    rewrite Hj at 1. rewrite abs_comps_join by now apply no_slash_relative.
    rewrite (split_single _ Hb).
    destruct (Str.all_slashes head) eqn:Ha; [reflexivity|].
    now rewrite abs_comps_rstrip.
Qed.

Lemma removelast_snoc {A : Type} (l : list A) (x : A) : removelast (l ++ [x]) = l.
Proof. apply removelast_last. Qed.

Lemma resolve_dirname_clean (w : World) (x : string) (K : list string) (n : string) :
  clean n -> posixpath.basename x = n -> resolve w x = K ++ [n] ->
  resolve w (posixpath.dirname x) = K.
Proof.
  intros Hn Hb Hx. unfold resolve in *.
  rewrite abs_comps_dirname, Hb in Hx.
  rewrite norm_comps_clean_id in Hx by now constructor.
  now apply app_inj_tail in Hx as [Hx _].
Qed.

End Dirname.

(** ** Local and remote regions *)

Section Regions.

Variable config : Config.
Variable w0 : World.
Hypothesis Hsep : separated config w0.

Lemma remote_not_local_up (k X : list string) :
  remote_key config w0 k -> X `prefix_of` k -> ~ local_key config w0 X.
Proof.
  intros (d' & Hd' & HR) HX (d & Hd & HL).
  destruct (Hsep d d' Hd Hd') as [H1 H2].
  assert (resolve w0 (local_path d) `prefix_of` k) as HLk by (etrans; eauto).
  destruct (prefix_weak_total _ _ _ HLk HR); contradiction.
Qed.

Lemma remote_not_local_down (k X : list string) :
  remote_key config w0 k -> k `prefix_of` X -> ~ local_key config w0 X.
Proof.
  intros (d' & Hd' & HR) HX (d & Hd & HL).
  destruct (Hsep d d' Hd Hd') as [H1 H2].
  assert (resolve w0 (posixpath.join (mount_point config) (remote_path d')) `prefix_of` X)
    as HRX by (etrans; eauto).
  destruct (prefix_weak_total _ _ _ HL HRX); contradiction.
Qed.

Lemma remote_not_local (k : list string) :
  remote_key config w0 k -> ~ local_key config w0 k.
Proof. intros Hk. now apply (remote_not_local_up k k). Qed.

Lemma remote_key_app (k l : list string) :
  remote_key config w0 k -> remote_key config w0 (k ++ l).
Proof. intros (d & Hd & HR). exists d. split; [exact Hd | now apply prefix_app_r]. Qed.

Lemma local_key_app (k l : list string) :
  local_key config w0 k -> local_key config w0 (k ++ l).
Proof. intros (d & Hd & HR). exists d. split; [exact Hd | now apply prefix_app_r]. Qed.

Lemma agree_resolve (w : World) (p : string) :
  agree config w0 w -> resolve w p = resolve w0 p.
Proof. intros [Hc _]. unfold resolve. now rewrite Hc. Qed.

Lemma agree_refl : agree config w0 w0.
Proof. split; reflexivity. Qed.

(** [makedirs] touches the way down to its target only. *)
Lemma makedirs_from_other (base rest : list string) (f : gmap (list string) node)
    (k : list string) :
  ~ k `prefix_of` base ++ rest -> (makedirs_from base rest f).1 !! k = f !! k.
Proof.
  revert base f. induction rest as [|c rest IH]; intros base f Hk; [reflexivity|].
  cbn [makedirs_from].
  assert (~ k `prefix_of` (base ++ [c]) ++ rest) as Hk'
    by now rewrite <- app_assoc.
  assert (base ++ [c] <> k) as Hne.
  { intros <-. apply Hk'. now apply prefix_app_r. }
  destruct (f !! (base ++ [c])) as [[data mt md|]|].
  - reflexivity.
  - now apply IH.
  - rewrite IH by exact Hk'. now apply lookup_insert_ne.
Qed.

Lemma mkdir_fs_local (f : gmap (list string) node) (name : string) (K k : list string) :
  remote_key config w0 K -> local_key config w0 k ->
  (mkdir_fs f name K).1 !! k = f !! k.
Proof.
  intros HK Hk. unfold mkdir_fs. destruct (Str.truthy name); [|reflexivity].
  apply makedirs_from_other. cbn [app]. intros Hp.
  exact (remote_not_local_up K k HK Hp Hk).
Qed.

Lemma copy_fs_other (f : gmap (list string) node) (ks kd k : list string) :
  k <> kd -> (copy_fs f ks kd).1 !! k = f !! k.
Proof.
  intros Hne. unfold copy_fs.
  destruct (node_at f ks) as [[data mt md|]|]; try reflexivity.
  destruct (check_writable f kd); [reflexivity|].
  cbn [fst]. now apply lookup_insert_ne.
Qed.

Lemma copy_target_cases (f : gmap (list string) node) (K : list string) (b : string) :
  copy_target f K b = K \/ copy_target f K b = K ++ [b].
Proof. unfold copy_target. destruct (node_at f K) as [[|]|]; auto. Qed.

Lemma copy_target_remote (f : gmap (list string) node) (K : list string) (b : string) :
  remote_key config w0 K -> remote_key config w0 (copy_target f K b).
Proof.
  intros HK. destruct (copy_target_cases f K b) as [-> | ->];
    [exact HK | now apply remote_key_app].
Qed.

Lemma removelast_prefix {A : Type} (l : list A) : removelast l `prefix_of` l.
Proof.
  destruct l as [|x l] using rev_ind; [reflexivity|].
  rewrite removelast_last. now apply prefix_app_r.
Qed.

Lemma created_fs_local (f : gmap (list string) node) (parent : string)
    (ks K k : list string) (b : string) :
  remote_key config w0 K -> local_key config w0 k ->
  (created_fs f parent ks K b).1 !! k = f !! k.
Proof.
  intros HK Hk. unfold created_fs.
  assert (forall f1, makedirs_from [] (removelast K) f = f1 -> f1.1 !! k = f !! k) as Hmk.
  { intros f1 <-. apply makedirs_from_other. cbn [app]. intros Hp.
    apply (remote_not_local_up K k HK); [|exact Hk].
    etrans; [exact Hp | apply removelast_prefix]. }
  unfold mkdir_fs. destruct (Str.truthy parent); [|reflexivity].
  destruct (makedirs_from [] (removelast K) f) as [f1 [e|]] eqn:E.
  - exact (Hmk _ eq_refl).
  - rewrite copy_fs_other; [exact (Hmk _ eq_refl)|].
    intros ->. exact (remote_not_local _ (copy_target_remote f1 K b HK) Hk).
Qed.

(** A good step leaves the local trees alone. *)
Lemma step_fs_local (s : step) (f : gmap (list string) node) (k : list string) :
  good_step config w0 s -> local_key config w0 k ->
  (step_fs w0 s f).1 !! k = f !! k.
Proof.
  intros Hg Hk. destruct s as [e|rp|lp rp|e|]; cbn [step_fs fst]; try reflexivity.
  - now apply mkdir_fs_local.
  - destruct Hg as (_ & _ & _ & _ & HK & _). now apply created_fs_local.
Qed.

End Regions.

(** ** The steps in the world and on the tree *)

Section StepsInTheWorld.

Variable config : Config.
Variable w0 : World.
Hypothesis Hsep : separated config w0.

Lemma os_makedirs_fs (name : string) (w : World) :
  os_makedirs name w
  = match (mkdir_fs (fs w) name (resolve w name)).2 with
    | None => Done tt (set_fs (mkdir_fs (fs w) name (resolve w name)).1 w)
    | Some e => Raised e (set_fs (mkdir_fs (fs w) name (resolve w name)).1 w)
    end.
Proof.
  unfold os_makedirs, mkdir_fs. destruct (Str.truthy name); cbn [negb fst snd].
  - destruct (makedirs_from [] (resolve w name) (fs w)) as [f [e|]]; reflexivity.
  - now rewrite set_fs_id.
Qed.

Lemma shutil_copy2_fs (src dst : string) (w : World) (K : list string) (b : string) :
  resolve w dst = K ->
  resolve w (posixpath.join dst (posixpath.basename src)) = K ++ [b] ->
  resolve w src <> copy_target (fs w) K b ->
  exists d,
    shutil_copy2 src dst w
    = match (copy_fs (fs w) (resolve w src) (copy_target (fs w) K b)).2 with
      | None => Done d (set_fs (copy_fs (fs w) (resolve w src) (copy_target (fs w) K b)).1 w)
      | Some e => Raised e w
      end.
Proof.
  intros HK HKb Hne. unfold shutil_copy2, os_path_isdir, lookup_path. rewrite HK.
  assert (resolve w (if match node_at (fs w) K with Some Dir => true | _ => false end
                     then posixpath.join dst (posixpath.basename src) else dst)
          = copy_target (fs w) K b) as ->.
  { unfold copy_target. destruct (node_at (fs w) K) as [[|]|]; assumption. }
  rewrite (bool_decide_eq_false_2 _ Hne), andb_false_r.
  unfold copy_fs.
  destruct (node_at (fs w) (resolve w src)) as [[data mt md|]|]; cbn [snd]; eauto.
  destruct (check_writable (fs w) (copy_target (fs w) K b)); cbn [fst snd]; eauto.
Qed.

Lemma sync_file_created_fs (lp rp : string) (w : World) :
  good_step config w0 (SCreated lp rp) -> cwd w = cwd w0 ->
  exists e,
    sync_file config "created" lp (Some rp) w
    = Done tt (add_log e
                 (set_fs (created_fs (fs w) (posixpath.dirname rp) (resolve w0 lp)
                            (resolve w0 rp) (posixpath.basename lp)).1 w)).
Proof.
  intros (Hs & Ht & Hl & _ & HK & _ & Hdir & Hb) Hc.
  assert (forall p, resolve w p = resolve w0 p) as Hres
    by (intros p; unfold resolve; now rewrite Hc).
  unfold sync_file, dest_or_remote. rewrite Hs, Ht. cbn [negb]. munfold.
  cbn [truthy_opt]. rewrite Ht.
  unfold sync_action. cbn [String.eqb Ascii.eqb Bool.eqb orb]. munfold.
  rewrite os_makedirs_fs. unfold created_fs. rewrite Hres, Hdir.
  destruct (mkdir_fs (fs w) (posixpath.dirname rp) (removelast (resolve w0 rp)))
    as [f1 [e|]]; cbn [fst snd]; [eauto|].
  destruct (shutil_copy2_fs lp rp (set_fs f1 w) (resolve w0 rp) (posixpath.basename lp))
    as [d Hcp].
  - apply Hres.
  - change (resolve (set_fs f1 w)) with (resolve w). now rewrite Hres.
  - change (resolve (set_fs f1 w)) with (resolve w). rewrite Hres. intros E.
    apply (remote_not_local config w0 Hsep (copy_target (fs (set_fs f1 w)) (resolve w0 rp)
                                              (posixpath.basename lp))).
    + now apply copy_target_remote.
    + now rewrite <- E.
  - rewrite Hcp. change (resolve (set_fs f1 w)) with (resolve w). rewrite Hres.
    cbn [fs set_fs].
    destruct (copy_fs f1 (resolve w0 lp)
                (copy_target f1 (resolve w0 rp) (posixpath.basename lp))) as [f2 [e|]] eqn:E;
      cbn [fst snd].
    + assert (f2 = f1) as ->.
      { revert E. unfold copy_fs.
        destruct (node_at f1 (resolve w0 lp)) as [[data mt md|]|]; try congruence.
        destruct (check_writable f1 _); congruence. }
      eauto.
    + eauto.
Qed.

(** A step of a plan does to the world what it does to the tree, and
    leaves the working directory alone. *)
Lemma exec_step_fs (s : step) (w : World) :
  s <> SFuel -> good_step config w0 s -> cwd w = cwd w0 ->
  exists w',
    cwd w' = cwd w0 /\ fs w' = (step_fs w0 s (fs w)).1 /\
    exec_step config s w
    = match (step_fs w0 s (fs w)).2 with
      | None => Done tt w'
      | Some e => Raised e w'
      end.
Proof.
  intros Hne Hg Hc. destruct s as [e|rp|lp rp|e|]; cbn [exec_step step_fs fst snd].
  - exists (add_log e w). repeat split. exact Hc.
  - rewrite os_makedirs_fs.
    assert (resolve w rp = resolve w0 rp) as -> by (unfold resolve; now rewrite Hc).
    exists (set_fs (mkdir_fs (fs w) rp (resolve w0 rp)).1 w).
    split; [exact Hc|]. split; [reflexivity|].
    destruct (mkdir_fs (fs w) rp (resolve w0 rp)).2; reflexivity.
  - destruct (sync_file_created_fs lp rp w Hg Hc) as [e He]. rewrite He.
    eexists. split; [|split; [|reflexivity]]; [exact Hc | reflexivity].
  - exists w. repeat split. exact Hc.
  - congruence.
Qed.

(** The run of a plan, on the tree. *)
Lemma exec_run_fs (plan : list step) (w : World) :
  Forall (good_step config w0) plan -> cwd w = cwd w0 ->
  (exec config plan w = OutOfFuel /\ In SFuel plan)
  \/ exists w',
       cwd w' = cwd w0 /\ fs w' = (run_fs w0 plan (fs w)).1 /\
       exec config plan w
       = match (run_fs w0 plan (fs w)).2 with
         | None => Done tt w'
         | Some e => Raised e w'
         end.
Proof.
  intros Hg. revert w. induction Hg as [|s plan Hs Hp IH]; intros w Hc.
  - right. exists w. repeat split. exact Hc.
  - unfold exec. cbn [for_each run_fs]. unfold mbind, M_bind.
    assert (s = SFuel \/ s <> SFuel) as [->|Hne]
      by (destruct s; (now left) || (right; discriminate));
      [left; split; [reflexivity | now left]|].
    destruct (exec_step_fs s w Hne Hs Hc) as (w1 & Hc1 & Hf1 & He). rewrite He.
    destruct (step_fs w0 s (fs w)) as [f1 [e|]] eqn:E; cbn [fst snd] in *.
    + right. exists w1. repeat split; assumption.
    + destruct (IH w1 Hc1) as [[Hout Hin] | (w' & Hc' & Hf' & He')].
      * left. split; [exact Hout | now right].
      * right. exists w'. rewrite <- Hf1. repeat split; assumption.
Qed.

(** A plan of good steps leaves the local trees as they are. *)
Lemma run_fs_local (plan : list step) (f : gmap (list string) node) (k : list string) :
  Forall (good_step config w0) plan -> local_key config w0 k ->
  (run_fs w0 plan f).1 !! k = f !! k.
Proof.
  intros Hg Hk. revert f. induction Hg as [|s plan Hs Hp IH]; intros f; [reflexivity|].
  cbn [run_fs]. pose proof (step_fs_local config w0 Hsep s f k Hs Hk) as Hl.
  destruct (step_fs w0 s f) as [f1 [e|]]; cbn [fst] in *; [exact Hl|].
  now rewrite IH.
Qed.

Lemma exec_agree (plan : list step) (w w' : World) :
  Forall (good_step config w0) plan -> agree config w0 w ->
  outcome_world (exec config plan w) = Some w' -> agree config w0 w'.
Proof.
  intros Hg [Hc Hl] Ho.
  destruct (exec_run_fs plan w Hg Hc) as [[Hout _] | (w1 & Hc1 & Hf1 & He)].
  - rewrite Hout in Ho. discriminate.
  - rewrite He in Ho.
    assert (w1 = w') as <- by (destruct (run_fs w0 plan (fs w)).2; now injection Ho).
    split; [exact Hc1|]. intros k Hk. rewrite Hf1, run_fs_local by assumption.
    now apply Hl.
Qed.

End StepsInTheWorld.

(** ** Listing a directory *)

Section Listing.

Lemma entries_elem (f : gmap (list string) node) (K : list string) (n : string) (nd : node) :
  In (n, nd) (entries f K) -> f !! (K ++ [n]) = Some nd.
Proof.
  unfold entries. intros Hin. apply in_map_iff in Hin as ([k nd'] & Heq & Hin).
  cbn [fst snd] in Heq. injection Heq as <- <-.
  apply list_elem_of_In, elem_of_map_to_list, map_lookup_filter_Some in Hin as [Hk Hc].
  unfold is_child in Hc. cbn [fst] in Hc. now rewrite <- Hc.
Qed.

Lemma scandir_dirs (w : World) (top : string) (dirs files : list string) (n : string) :
  scandir w top = Some (dirs, files) -> In n dirs ->
  fs w !! (resolve w top ++ [n]) = Some Dir.
Proof.
  unfold scandir. destruct (lookup_path w top) as [[|]|]; try discriminate.
  intros [= <- <-] Hin. apply in_map_iff in Hin as ([n' nd] & Hn & Hin).
  cbn [fst] in Hn. subst n'. apply filter_In in Hin as [Hin Hd].
  apply entries_elem in Hin. cbn [snd] in Hd. destruct nd; [discriminate | exact Hin].
Qed.

Lemma scandir_files (w : World) (top : string) (dirs files : list string) (n : string) :
  scandir w top = Some (dirs, files) -> In n files ->
  exists data mt md, fs w !! (resolve w top ++ [n]) = Some (File data mt md).
Proof.
  unfold scandir. destruct (lookup_path w top) as [[|]|]; try discriminate.
  intros [= <- <-] Hin. apply in_map_iff in Hin as ([n' nd] & Hn & Hin).
  cbn [fst] in Hn. subst n'. apply filter_In in Hin as [Hin Hd].
  apply entries_elem in Hin. cbn [snd] in Hd. destruct nd; [eauto | discriminate].
Qed.

Lemma wf_fs_name (f : gmap (list string) node) (K : list string) (n : string) (nd : node) :
  wf_fs f -> f !! (K ++ [n]) = Some nd -> clean n.
Proof.
  intros Hwf Hk. apply Hwf in Hk. apply Forall_app in Hk as [_ Hn]. now inversion Hn.
Qed.

(** Two worlds that hold the same entries at and right below a
    directory list it the same way. *)
Lemma scandir_ext (w w' : World) (top : string) :
  cwd w = cwd w' ->
  (forall k, resolve w top `prefix_of` k -> fs w !! k = fs w' !! k) ->
  scandir w top = scandir w' top.
Proof.
  intros Hc Hk. unfold scandir, lookup_path, entries.
  assert (resolve w' top = resolve w top) as -> by (unfold resolve; now rewrite Hc).
  assert (node_at (fs w) (resolve w top) = node_at (fs w') (resolve w top)) as ->.
  { destruct (resolve w top) eqn:E; [reflexivity|]. cbn [node_at]. apply Hk. reflexivity. }
  assert (filter (is_child (resolve w top)) (fs w)
          = filter (is_child (resolve w top)) (fs w')) as ->; [|reflexivity].
  apply map_filter_strong_ext_1. intros k nd. unfold is_child. cbn [fst].
  split; intros [Hc' Hl]; (split; [exact Hc'|]).
  - rewrite <- Hk; [exact Hl|]. rewrite Hc'. now apply prefix_app_r.
  - rewrite Hk; [exact Hl|]. rewrite Hc'. now apply prefix_app_r.
Qed.

End Listing.

(** ** Loops and plans *)

Section Loops.

Variable config : Config.

Lemma exec_nil (w : World) : exec config [] w = Done tt w.
Proof. reflexivity. Qed.

Lemma exec_cons (s : step) (plan : list step) (w : World) :
  exec config (s :: plan) w
  = match exec_step config s w with
    | Done _ w' => exec config plan w'
    | Raised e w' => Raised e w'
    | OutOfFuel => OutOfFuel
    end.
Proof. reflexivity. Qed.

Lemma exec_app (p1 p2 : list step) (w : World) :
  exec config (p1 ++ p2) w
  = match exec config p1 w with
    | Done _ w' => exec config p2 w'
    | Raised e w' => Raised e w'
    | OutOfFuel => OutOfFuel
    end.
Proof.
  revert w. induction p1 as [|s p1 IH]; intros w; [reflexivity|].
  cbn [app]. rewrite !exec_cons.
  destruct (exec_step config s w) as [[] w'|e w'|]; [apply IH | reflexivity..].
Qed.

Lemma exec_single (s : step) (w : World) : exec config [s] w = exec_step config s w.
Proof.
  rewrite exec_cons. destruct (exec_step config s w) as [[] w'|e w'|]; reflexivity.
Qed.

(** A loop whose body performs a plan performs the plans in a row, as long
    as each plan keeps what the bodies rely on. *)
Lemma for_each_plan {A : Type} (l : list A) (body : A -> M unit)
    (plan : A -> list step) (I : World -> Prop) :
  (forall x w, In x l -> I w -> body x w = exec config (plan x) w) ->
  (forall x w w', In x l -> I w -> exec config (plan x) w = Done tt w' -> I w') ->
  forall w, I w -> for_each l body w = exec config (concat (map plan l)) w.
Proof.
  induction l as [|x l IH]; intros Hb Hp w Hw; [reflexivity|].
  cbn [for_each map concat]. rewrite exec_app. unfold mbind, M_bind.
  rewrite (Hb x w (or_introl eq_refl) Hw).
  destruct (exec config (plan x) w) as [[] w'|e w'|] eqn:E; [|reflexivity..].
  apply IH.
  - intros y w1 Hy. apply Hb. now right.
  - intros y w1 w2 Hy. apply Hp. now right.
  - apply (Hp x w w'); [now left | exact Hw | exact E].
Qed.

End Loops.

(** ** The plan is made of good steps *)

Section GoodPlans.

Variable config : Config.
Variable w0 : World.
Hypothesis Hsep : separated config w0.
Hypothesis Hwf : wf_fs (fs w0).

Variable d : DirConfig.
Hypothesis Hd : In d (sync_directories config).

Let local_dir := local_path d.
Let remote_dir := posixpath.join (mount_point config) (remote_path d).

Lemma local_root_key (sfx : list string) :
  local_key config w0 (resolve w0 local_dir ++ sfx).
Proof. exists d. split; [exact Hd | now apply prefix_app_r]. Qed.

Lemma remote_root_key (sfx : list string) :
  remote_key config w0 (resolve w0 remote_dir ++ sfx).
Proof. exists d. split; [exact Hd | now apply prefix_app_r]. Qed.

(** The paths the walk builds for the entry [n] of the directory [top],
    which lies [sfx] below the local root. *)
Lemma below_paths (top : string) (sfx : list string) (n : string) :
  resolve w0 top = resolve w0 local_dir ++ sfx -> Forall clean sfx -> clean n ->
  let lp := posixpath.join top n in
  let rp := posixpath.join remote_dir (Str.sepjoin (sfx ++ [n])) in
  resolve w0 lp = resolve w0 local_dir ++ sfx ++ [n]
  /\ posixpath.relpath (cwd w0) lp local_dir = Some (Str.sepjoin (sfx ++ [n]))
  /\ resolve w0 rp = resolve w0 remote_dir ++ sfx ++ [n]
  /\ posixpath.basename lp = n
  /\ posixpath.basename rp = n
  /\ Str.truthy rp = true.
Proof.
  intros Htop Hsfx Hn lp rp.
  assert (Forall clean (sfx ++ [n])) as Hall
    by (apply Forall_app; split; [exact Hsfx | now constructor]).
  assert (sfx ++ [n] <> []) as Hne by now destruct sfx.
  assert (resolve w0 lp = resolve w0 local_dir ++ sfx ++ [n]) as Hlp.
  { unfold lp, resolve. rewrite resolve_join_clean by exact Hn.
    fold (resolve w0 top). now rewrite Htop, <- app_assoc. }
  split; [exact Hlp|]. split; [|split; [|split; [|split]]].
  - apply relpath_under; [|exact Hne | exact Hlp].
    apply truthy_ne, join_truthy, truthy_ne. apply Hn.
  - unfold rp, resolve. now rewrite abs_comps_join_sepjoin.
  - unfold lp. rewrite basename_join. now apply basename_clean_name.
  - unfold rp. rewrite basename_join. now apply basename_sepjoin.
  - apply join_truthy.
    destruct (sfx ++ [n]) as [|x l] eqn:E; [congruence|].
    apply sepjoin_cons_truthy. inversion Hall as [|? ? Hx _]; subst. apply Hx.
Qed.

Lemma plan_dir_entry_good (top : string) (sfx : list string) (n : string) :
  resolve w0 top = resolve w0 local_dir ++ sfx -> Forall clean sfx -> clean n ->
  Forall (good_step config w0) (plan_dir_entry (cwd w0) local_dir remote_dir top n).
Proof.
  intros Htop Hsfx Hn.
  destruct (below_paths top sfx n Htop Hsfx Hn) as (_ & Hrel & Hrp & _).
  unfold plan_dir_entry. rewrite Hrel. constructor; [|constructor].
  cbn [good_step]. rewrite Hrp. apply remote_root_key.
Qed.

Lemma plan_file_entry_good (top : string) (sfx : list string) (n : string)
    (data : string) (mt md : Z) :
  resolve w0 top = resolve w0 local_dir ++ sfx -> Forall clean sfx -> clean n ->
  fs w0 !! (resolve w0 top ++ [n]) = Some (File data mt md) ->
  Forall (good_step config w0) (plan_file_entry config (cwd w0) local_dir remote_dir top n).
Proof.
  intros Htop Hsfx Hn Hfile.
  destruct (below_paths top sfx n Htop Hsfx Hn) as (Hlp & Hrel & Hrp & Hbl & Hbr & Ht).
  unfold plan_file_entry.
  destruct (_should_sync_file config (posixpath.join top n)) eqn:Hs; [|constructor].
  rewrite Hrel. constructor; [|constructor].
  cbn [good_step]. rewrite Hlp, Hrp, Hbl.
  split; [exact Hs|]. split; [exact Ht|]. split; [apply local_root_key|].
  split; [exists data, mt, md; now rewrite <- Hfile, Htop, <- app_assoc|].
  split; [apply remote_root_key|].
  split; [now destruct (resolve w0 remote_dir), sfx|].
  split.
  - rewrite !app_assoc, removelast_last.
    apply (resolve_dirname_clean _ _ _ n Hn Hbr). now rewrite Hrp, !app_assoc.
  - unfold resolve. rewrite resolve_join_clean by exact Hn.
    fold (resolve w0 (posixpath.join remote_dir (Str.sepjoin (sfx ++ [n])))).
    now rewrite Hrp.
Qed.

Lemma scandir_clean (top : string) (dirs files : list string) (n : string) :
  scandir w0 top = Some (dirs, files) -> In n dirs \/ In n files -> clean n.
Proof.
  intros Hsc [Hin | Hin].
  - apply (wf_fs_name (fs w0) (resolve w0 top) n Dir Hwf).
    exact (scandir_dirs _ _ _ _ _ Hsc Hin).
  - destruct (scandir_files _ _ _ _ _ Hsc Hin) as (data & mt & md & Hf).
    exact (wf_fs_name (fs w0) (resolve w0 top) n _ Hwf Hf).
Qed.

Lemma Forall_concat_map {A B : Type} (P : B -> Prop) (f : A -> list B) (l : list A) :
  (forall x, In x l -> Forall P (f x)) -> Forall P (concat (map f l)).
Proof.
  induction l as [|x l IH]; intros H; [constructor|].
  cbn [map concat]. apply Forall_app. split.
  - apply H. now left.
  - apply IH. intros y Hy. apply H. now right.
Qed.

Lemma plan_body_good (top : string) (sfx : list string) (dirs files : list string) :
  resolve w0 top = resolve w0 local_dir ++ sfx -> Forall clean sfx ->
  scandir w0 top = Some (dirs, files) ->
  Forall (good_step config w0)
    (plan_body config (cwd w0) local_dir remote_dir top dirs files).
Proof.
  intros Htop Hsfx Hsc. unfold plan_body. apply Forall_app. split.
  - apply Forall_concat_map. intros n Hn.
    apply (plan_dir_entry_good top sfx n Htop Hsfx).
    apply (scandir_clean top dirs files n Hsc). now left.
  - apply Forall_concat_map. intros n Hn.
    destruct (scandir_files _ _ _ _ _ Hsc Hn) as (data & mt & md & Hf).
    apply (plan_file_entry_good top sfx n data mt md Htop Hsfx); [|exact Hf].
    apply (scandir_clean top dirs files n Hsc). now right.
Qed.

Lemma plan_walk_good (fuel : nat) (top : string) (sfx : list string) :
  resolve w0 top = resolve w0 local_dir ++ sfx -> Forall clean sfx ->
  Forall (good_step config w0) (plan_walk fuel config w0 local_dir remote_dir top).
Proof.
  revert top sfx. induction fuel as [|fuel IH]; intros top sfx Htop Hsfx.
  - repeat constructor.
  - cbn [plan_walk]. destruct (scandir w0 top) as [[dirs files]|] eqn:Hsc; [|constructor].
    apply Forall_app. split; [now apply (plan_body_good top sfx)|].
    apply Forall_concat_map. intros n Hn.
    assert (clean n) as Hc by (apply (scandir_clean top dirs files n Hsc); now left).
    apply (IH _ (sfx ++ [n])).
    + destruct (below_paths top sfx n Htop Hsfx Hc) as (Hlp & _). exact Hlp.
    + apply Forall_app. split; [exact Hsfx | now constructor].
Qed.

Lemma plan_mapping_good (fuel : nat) :
  Forall (good_step config w0) (plan_mapping fuel config w0 d).
Proof.
  unfold plan_mapping. destruct (os_path_exists w0 (local_path d)); [|repeat constructor].
  unfold plan_sync_directory. constructor; [exact I|]. constructor.
  - cbn [good_step]. fold remote_dir. rewrite <- (app_nil_r (resolve w0 remote_dir)).
    apply remote_root_key.
  - apply (plan_walk_good fuel _ []); [now rewrite app_nil_r | constructor].
Qed.

End GoodPlans.

Lemma plan_full_sync_good (config : Config) (w0 : World) (fuel : nat) :
  separated config w0 -> wf_fs (fs w0) ->
  Forall (good_step config w0) (plan_full_sync fuel config w0).
Proof.
  intros Hsep Hwf. unfold plan_full_sync. constructor; [exact I|].
  apply Forall_app. split; [|repeat constructor].
  apply Forall_concat_map. intros d Hd. now apply plan_mapping_good.
Qed.

(** ** The run performs the plan *)

Section RunIsPlan.

Variable config : Config.
Variable w0 : World.
Hypothesis Hsep : separated config w0.
Hypothesis Hwf : wf_fs (fs w0).

Lemma exec_done_cwd (plan : list step) (w w' : World) :
  Forall (good_step config w0) plan -> cwd w = cwd w0 ->
  exec config plan w = Done tt w' -> cwd w' = cwd w0.
Proof.
  intros Hg Hc He.
  destruct (exec_run_fs config w0 Hsep plan w Hg Hc) as [[Hout _] | (w1 & Hc1 & _ & He1)].
  - congruence.
  - rewrite He in He1. destruct (run_fs w0 plan (fs w)).2; [discriminate|].
    now injection He1 as ->.
Qed.

Lemma exec_done_agree (plan : list step) (w w' : World) :
  Forall (good_step config w0) plan -> agree config w0 w ->
  exec config plan w = Done tt w' -> agree config w0 w'.
Proof.
  intros Hg Ha He. apply (exec_agree config w0 Hsep plan w w' Hg Ha).
  now rewrite He.
Qed.

Lemma dir_entry_is_plan (local_dir remote_dir top n : string) (w : World) :
  cwd w = cwd w0 ->
  (relative_path ← os_path_relpath (posixpath.join top n) local_dir;
   os_makedirs (posixpath.join remote_dir relative_path)) w
  = exec config (plan_dir_entry (cwd w0) local_dir remote_dir top n) w.
Proof.
  intros Hc. unfold plan_dir_entry, os_path_relpath. munfold. rewrite Hc.
  destruct (posixpath.relpath (cwd w0) (posixpath.join top n) local_dir);
    now rewrite exec_single.
Qed.

Lemma file_entry_is_plan (local_dir remote_dir top n : string) (w : World) :
  cwd w = cwd w0 ->
  (if _should_sync_file config (posixpath.join top n)
   then relative_path ← os_path_relpath (posixpath.join top n) local_dir;
        sync_file config "created" (posixpath.join top n)
          (Some (posixpath.join remote_dir relative_path))
   else mret tt) w
  = exec config (plan_file_entry config (cwd w0) local_dir remote_dir top n) w.
Proof.
  intros Hc. unfold plan_file_entry.
  destruct (_should_sync_file config (posixpath.join top n)); [|reflexivity].
  unfold os_path_relpath. munfold. rewrite Hc.
  destruct (posixpath.relpath (cwd w0) (posixpath.join top n) local_dir);
    now rewrite exec_single.
Qed.

Variable d : DirConfig.
Hypothesis Hd : In d (sync_directories config).

Let local_dir := local_path d.
Let remote_dir := posixpath.join (mount_point config) (remote_path d).

Lemma body_is_plan (top : string) (sfx : list string) (dirs files : list string)
    (w : World) :
  resolve w0 top = resolve w0 local_dir ++ sfx -> Forall clean sfx ->
  scandir w0 top = Some (dirs, files) -> cwd w = cwd w0 ->
  sync_directory_body config local_dir remote_dir top dirs files w
  = exec config (plan_body config (cwd w0) local_dir remote_dir top dirs files) w.
Proof.
  intros Htop Hsfx Hsc Hc. unfold sync_directory_body, plan_body.
  rewrite exec_app. unfold mbind, M_bind.
  assert (forall n, In n dirs ->
            Forall (good_step config w0)
              (plan_dir_entry (cwd w0) local_dir remote_dir top n)) as Hgd.
  { intros n Hn. apply (plan_dir_entry_good config w0 d Hd top sfx n Htop Hsfx).
    apply (scandir_clean w0 Hwf top dirs files n Hsc). now left. }
  assert (forall n, In n files ->
            Forall (good_step config w0)
              (plan_file_entry config (cwd w0) local_dir remote_dir top n)) as Hgf.
  { intros n Hn.
    destruct (scandir_files _ _ _ _ _ Hsc Hn) as (data & mt & md & Hf).
    apply (plan_file_entry_good config w0 d Hd top sfx n data mt md Htop Hsfx); [|exact Hf].
    apply (scandir_clean w0 Hwf top dirs files n Hsc). now right. }
  rewrite (for_each_plan config dirs _
             (plan_dir_entry (cwd w0) local_dir remote_dir top)
             (fun w => cwd w = cwd w0)); [| | |exact Hc].
  - destruct (exec config (concat (map (plan_dir_entry (cwd w0) local_dir remote_dir top)
                                     dirs)) w) as [[] w'|e w'|] eqn:E; [|reflexivity..].
    apply (for_each_plan config files _
             (plan_file_entry config (cwd w0) local_dir remote_dir top)
             (fun w => cwd w = cwd w0)).
    + intros n w1 _ Hw1. now apply file_entry_is_plan.
    + intros n w1 w2 Hn Hw1. apply exec_done_cwd; [now apply Hgf | exact Hw1].
    + eapply exec_done_cwd; [|exact Hc | exact E].
      now apply Forall_concat_map.
  - intros n w1 _ Hw1. now apply dir_entry_is_plan.
  - intros n w1 w2 Hn Hw1. apply exec_done_cwd; [now apply Hgd | exact Hw1].
Qed.

Lemma scandir_agree (top : string) (sfx : list string) (w : World) :
  resolve w0 top = resolve w0 local_dir ++ sfx -> agree config w0 w ->
  scandir w top = scandir w0 top.
Proof.
  intros Htop [Hc Hl]. apply scandir_ext; [exact Hc|].
  assert (resolve w top = resolve w0 top) as -> by (unfold resolve; now rewrite Hc).
  intros k Hk. apply Hl. exists d. split; [exact Hd|].
  etrans; [|exact Hk]. rewrite Htop. now apply prefix_app_r.
Qed.

(** The walk performs its plan, in every world that still has the local
    trees the plan was read off. *)
Lemma walk_is_plan (fuel : nat) (top : string) (sfx : list string) (w : World) :
  resolve w0 top = resolve w0 local_dir ++ sfx -> Forall clean sfx ->
  agree config w0 w ->
  os_walk fuel (sync_directory_body config local_dir remote_dir) top w
  = exec config (plan_walk fuel config w0 local_dir remote_dir top) w.
Proof.
  revert top sfx w. induction fuel as [|fuel IH]; intros top sfx w Htop Hsfx Ha.
  - reflexivity.
  - cbn [os_walk plan_walk]. unfold mbind at 1, M_bind at 1, get.
    rewrite (scandir_agree top sfx w Htop Ha).
    destruct (scandir w0 top) as [[dirs files]|] eqn:Hsc; [|reflexivity].
    rewrite exec_app. unfold mbind, M_bind.
    rewrite (body_is_plan top sfx dirs files w Htop Hsfx Hsc (proj1 Ha)).
    pose proof (plan_body_good config w0 Hwf d Hd top sfx dirs files Htop Hsfx Hsc) as Hgb.
    destruct (exec config (plan_body config (cwd w0) local_dir remote_dir top dirs files) w)
      as [[] w'|e w'|] eqn:E; [|reflexivity..].
    assert (forall n, In n dirs ->
              clean n /\
              resolve w0 (posixpath.join top n) = resolve w0 local_dir ++ (sfx ++ [n]) /\
              Forall clean (sfx ++ [n])) as Hsub.
    { intros n Hn.
      assert (clean n) as Hc by (apply (scandir_clean w0 Hwf top dirs files n Hsc); now left).
      split; [exact Hc|]. split.
      - destruct (below_paths config w0 d top sfx n Htop Hsfx Hc) as (Hlp & _). exact Hlp.
      - apply Forall_app. split; [exact Hsfx | now constructor]. }
    apply (for_each_plan config dirs _
             (fun n => plan_walk fuel config w0 local_dir remote_dir (posixpath.join top n))
             (agree config w0)).
    + intros n w1 Hn Hw1. destruct (Hsub n Hn) as (_ & Hr & Hcl).
      exact (IH _ _ w1 Hr Hcl Hw1).
    + intros n w1 w2 Hn Hw1. destruct (Hsub n Hn) as (_ & Hr & Hcl).
      apply exec_done_agree; [|exact Hw1].
      exact (plan_walk_good config w0 Hwf d Hd fuel _ _ Hr Hcl).
    + exact (exec_done_agree _ w w' Hgb Ha E).
Qed.

Lemma mapping_is_plan (fuel : nat) (w : World) :
  agree config w0 w ->
  (w1 ← get;
   if os_path_exists w1 local_dir then sync_directory fuel config local_dir remote_dir
   else logger WARNING ("Local directory does not exist: " +:+ local_dir) None) w
  = exec config (plan_mapping fuel config w0 d) w.
Proof.
  intros Ha. unfold mbind at 1, M_bind at 1, get, plan_mapping. fold local_dir remote_dir.
  assert (os_path_exists w local_dir = os_path_exists w0 local_dir) as ->.
  { unfold os_path_exists, lookup_path.
    rewrite (agree_resolve config w0 w local_dir Ha).
    destruct (resolve w0 local_dir) eqn:E; [reflexivity|]. cbn [node_at].
    destruct Ha as [_ Hl]. rewrite Hl; [reflexivity|].
    exists d. split; [exact Hd|]. fold local_dir. now rewrite E. }
  destruct (os_path_exists w0 local_dir); [|now rewrite exec_single].
  unfold sync_directory, plan_sync_directory. rewrite exec_cons.
  cbn [exec_step]. munfold. rewrite exec_cons. cbn [exec_step].
  pose proof (exec_done_agree [SMkdir remote_dir]
                (add_log (log_entry INFO
                   ("Starting directory sync: " +:+ local_dir +:+ " -> " +:+ remote_dir)
                   None) w)) as Hmk.
  rewrite exec_single in Hmk. cbn [exec_step] in Hmk.
  destruct (os_makedirs remote_dir (add_log _ w)) as [[] w'|e w'|] eqn:E; [|reflexivity..].
  apply (walk_is_plan fuel local_dir [] w'); [now rewrite app_nil_r | constructor|].
  apply Hmk; [|split; [exact (proj1 Ha) | exact (proj2 Ha)] | reflexivity].
  constructor; [|constructor]. cbn [good_step].
  rewrite <- (app_nil_r (resolve w0 remote_dir)). now apply remote_root_key.
Qed.

End RunIsPlan.

(** A full synchronization performs the plan read off any world that has
    the same local trees. *)
Lemma full_sync_is_plan (config : Config) (w0 w : World) (fuel : nat) :
  separated config w0 -> wf_fs (fs w0) -> agree config w0 w ->
  full_sync fuel config w = exec config (plan_full_sync fuel config w0) w.
Proof.
  intros Hsep Hwf Ha. unfold full_sync, plan_full_sync.
  rewrite exec_cons. cbn [exec_step]. munfold.
  rewrite exec_app.
  assert (agree config w0 (add_log (log_entry INFO "Starting full synchronization" None) w))
    as Ha' by exact Ha.
  rewrite (for_each_plan config (sync_directories config) _
             (plan_mapping fuel config w0) (agree config w0)); [| | |exact Ha'].
  - destruct (exec config (concat (map (plan_mapping fuel config w0)
                                     (sync_directories config))) _) as [[] w'|e w'|];
      [|reflexivity..].
    now rewrite exec_single.
  - intros d w1 Hd Hw1. exact (mapping_is_plan config w0 Hsep Hwf d Hd fuel w1 Hw1).
  - intros d w1 w2 Hd Hw1. apply exec_done_agree; [exact Hsep | | exact Hw1].
    now apply plan_mapping_good.
Qed.

(** ** Kinds only grow *)

Section Kinds.

Lemma kind_le_refl (f : gmap (list string) node) : kind_le f f.
Proof. intros k n Hk. eauto. Qed.

Lemma kind_le_trans (f g h : gmap (list string) node) :
  kind_le f g -> kind_le g h -> kind_le f h.
Proof.
  intros Hfg Hgh k n Hk. destruct (Hfg k n Hk) as (n1 & H1 & E1).
  destruct (Hgh k n1 H1) as (n2 & H2 & E2). exists n2. split; [exact H2 | congruence].
Qed.

Lemma makedirs_from_kind_le (base rest : list string) (f : gmap (list string) node) :
  kind_le f (makedirs_from base rest f).1.
Proof. intros k n Hk. exists n. split; [now apply makedirs_from_mono | reflexivity]. Qed.

Lemma mkdir_fs_kind_le (f : gmap (list string) node) (name : string) (K : list string) :
  kind_le f (mkdir_fs f name K).1.
Proof.
  unfold mkdir_fs. destruct (Str.truthy name);
    [apply makedirs_from_kind_le | apply kind_le_refl].
Qed.

Lemma copy_fs_kind_le (f : gmap (list string) node) (ks kd : list string) :
  kind_le f (copy_fs f ks kd).1.
Proof.
  unfold copy_fs. destruct (node_at f ks) as [[data mt md|]|]; try apply kind_le_refl.
  destruct (check_writable f kd) eqn:Hcw; [apply kind_le_refl|].
  cbn [fst]. intros k n Hk. destruct (decide (kd = k)) as [<-|Hne].
  - rewrite lookup_insert_eq. eexists. split; [reflexivity|].
    apply check_writable_not_dir in Hcw.
    destruct kd; [now destruct Hcw|]. cbn [node_at] in Hcw.
    destruct n; [reflexivity | congruence].
  - rewrite lookup_insert_ne by exact Hne. eauto.
Qed.

Lemma created_fs_kind_le (f : gmap (list string) node) (parent : string)
    (ks K : list string) (b : string) :
  kind_le f (created_fs f parent ks K b).1.
Proof.
  unfold created_fs. pose proof (mkdir_fs_kind_le f parent (removelast K)) as Hm.
  destruct (mkdir_fs f parent (removelast K)) as [f1 [e|]]; cbn [fst] in *; [exact Hm|].
  eapply kind_le_trans; [exact Hm | apply copy_fs_kind_le].
Qed.

Lemma step_fs_kind_le (w0 : World) (s : step) (f : gmap (list string) node) :
  kind_le f (step_fs w0 s f).1.
Proof.
  destruct s; cbn [step_fs fst]; try apply kind_le_refl.
  - apply mkdir_fs_kind_le.
  - apply created_fs_kind_le.
Qed.

Lemma run_fs_kind_le (w0 : World) (plan : list step) (f : gmap (list string) node) :
  kind_le f (run_fs w0 plan f).1.
Proof.
  revert f. induction plan as [|s plan IH]; intros f; [apply kind_le_refl|].
  cbn [run_fs]. pose proof (step_fs_kind_le w0 s f) as Hs.
  destruct (step_fs w0 s f) as [f1 [e|]]; cbn [fst] in *; [exact Hs|].
  eapply kind_le_trans; [exact Hs | apply IH].
Qed.

End Kinds.

(** ** The second run rejoins the first *)

Section Rejoin.

Variable F : gmap (list string) node.

Lemma rejoin_insert (s t : gmap (list string) node) (k : list string) (n : node) :
  rejoin F s t -> rejoin F (<[k := n]> s) (<[k := n]> t).
Proof.
  intros H k'. destruct (decide (k = k')) as [<-|Hne].
  - left. now rewrite !lookup_insert_eq.
  - rewrite !lookup_insert_ne by exact Hne. apply H.
Qed.

(** An entry of the first run is an entry of the second, of the same kind. *)
Lemma rejoin_kind (s t : gmap (list string) node) (k : list string) (n : node) :
  rejoin F s t -> kind_le s F -> s !! k = Some n ->
  exists n', t !! k = Some n' /\ is_dir n' = is_dir n.
Proof.
  intros H Hle Hk. destruct (H k) as [E | E]; rewrite E.
  - eauto.
  - now apply Hle.
Qed.

Lemma rejoin_dir (s t : gmap (list string) node) (k : list string) :
  rejoin F s t -> kind_le s F -> s !! k = Some Dir -> t !! k = Some Dir.
Proof.
  intros H Hle Hk. destruct (rejoin_kind s t k Dir H Hle Hk) as (n' & Hn & Hd).
  destruct n'; [discriminate | exact Hn].
Qed.

Lemma rejoin_node_dir (s t : gmap (list string) node) (k : list string) :
  rejoin F s t -> kind_le s F -> node_at s k = Some Dir -> node_at t k = Some Dir.
Proof. destruct k; [auto|]. cbn [node_at]. apply rejoin_dir. Qed.

(** What the first run is about to create as a file is not a directory
    in the second. *)
Lemma rejoin_not_dir (s t : gmap (list string) node) (k : list string)
    (data : string) (mt md : Z) :
  rejoin F s t -> kind_le (<[k := File data mt md]> s) F ->
  s !! k <> Some Dir -> t !! k <> Some Dir.
Proof.
  intros H Hle Hs Ht. destruct (H k) as [E | E].
  - congruence.
  - destruct (Hle k (File data mt md)) as (n' & Hn & Hd); [apply lookup_insert_eq|].
    rewrite E, Hn in Ht. injection Ht as ->. discriminate.
Qed.

Lemma makedirs_rejoin (rest base : list string) (s t : gmap (list string) node) :
  rejoin F s t -> kind_le (makedirs_from base rest s).1 F ->
  (makedirs_from base rest t).2 = (makedirs_from base rest s).2
  /\ rejoin F (makedirs_from base rest s).1 (makedirs_from base rest t).1.
Proof.
  revert base s t. induction rest as [|c rest IH]; intros base s t H Hle; [now split|].
  cbn [makedirs_from] in *.
  destruct (s !! (base ++ [c])) as [[data mt md|]|] eqn:Hs.
  - cbn [fst] in Hle.
    destruct (rejoin_kind s t _ _ H Hle Hs) as (n' & Hn & Hd). rewrite Hn.
    destruct n'; [now split | discriminate].
  - assert (kind_le s F) as Hle0.
    { eapply kind_le_trans; [apply makedirs_from_kind_le | exact Hle]. }
    rewrite (rejoin_dir s t _ H Hle0 Hs). now apply IH.
  - assert (F !! (base ++ [c]) = Some Dir) as HF.
    { destruct (Hle (base ++ [c]) Dir) as (n' & Hn & Hd).
      - apply makedirs_from_mono, lookup_insert_eq.
      - destruct n'; [discriminate | exact Hn]. }
    destruct (H (base ++ [c])) as [E | E]; rewrite E.
    + rewrite Hs. apply IH; [now apply rejoin_insert | exact Hle].
    + rewrite HF. apply IH; [|exact Hle].
      intros k. destruct (decide (base ++ [c] = k)) as [<-|Hne].
      * left. now rewrite lookup_insert_eq, E.
      * rewrite lookup_insert_ne by exact Hne. apply H.
Qed.

Lemma mkdir_rejoin (s t : gmap (list string) node) (name : string) (K : list string) :
  rejoin F s t -> kind_le (mkdir_fs s name K).1 F ->
  (mkdir_fs t name K).2 = (mkdir_fs s name K).2
  /\ rejoin F (mkdir_fs s name K).1 (mkdir_fs t name K).1.
Proof.
  unfold mkdir_fs. destruct (Str.truthy name); [apply makedirs_rejoin | now split].
Qed.

(** The copy of one Created step: with the same source, and the parent of
    the remote path a directory in both runs, the second run writes what
    the first wrote, or fails where the first failed. *)
Lemma copy_rejoin (s t : gmap (list string) node) (ks K : list string) (b : string) :
  rejoin F s t ->
  kind_le (copy_fs s ks (copy_target s K b)).1 F ->
  node_at t ks = node_at s ks ->
  K <> [] ->
  node_at s (removelast K) = Some Dir ->
  rejoin F (copy_fs s ks (copy_target s K b)).1 (copy_fs t ks (copy_target t K b)).1.
Proof.
  intros H Hle Hsrc HK HP.
  assert (kind_le s F) as Hle0.
  { eapply kind_le_trans; [apply copy_fs_kind_le | exact Hle]. }
  pose proof (rejoin_node_dir s t _ H Hle0 HP) as HPt.
  unfold copy_fs in *. rewrite Hsrc.
  destruct (node_at s ks) as [[data mt md|]|]; try exact H.
  assert (forall f, node_at f (removelast K) = Some Dir ->
            check_writable f K = match node_at f K with
                                 | Some Dir => Some IsADirectoryError
                                 | _ => None
                                 end) as HcwK.
  { intros f Hf. unfold check_writable. rewrite Hf.
    destruct (node_at f K) as [[|]|]; reflexivity. }
  assert (forall f, node_at f K = Some Dir ->
            check_writable f (K ++ [b]) = match f !! (K ++ [b]) with
                                          | Some Dir => Some IsADirectoryError
                                          | _ => None
                                          end) as HcwKb.
  { intros f Hf. unfold check_writable. rewrite removelast_last, Hf, node_at_snoc.
    destruct (f !! (K ++ [b])) as [[|]|]; reflexivity. }
  assert (node_at s K = s !! K /\ node_at t K = t !! K) as [HnK HnKt]
    by (destruct K; [congruence | split; reflexivity]).
  unfold copy_target in *. rewrite HnK, HnKt in *.
  destruct (s !! K) as [[dataK mtK mdK|]|] eqn:HsK.
  - (* a file at the remote path: overwritten in both runs *)
    destruct (rejoin_kind s t K _ H Hle0 HsK) as (n' & Hn & Hd). rewrite Hn.
    destruct n' as [d' m' o'|]; [|discriminate].
    rewrite (HcwK s HP), (HcwK t HPt), HnK, HnKt, Hn. cbn [fst].
    now apply rejoin_insert.
  - (* a directory at the remote path: the copy goes inside *)
    rewrite (rejoin_dir s t K H Hle0 HsK).
    pose proof HnK as HdK.
    assert (node_at t K = Some Dir) as HdKt
      by (rewrite HnKt; exact (rejoin_dir s t K H Hle0 HsK)).
    rewrite (HcwKb s HdK), (HcwKb t HdKt) in *.
    destruct (s !! (K ++ [b])) as [[d1 m1 o1|]|] eqn:Hsb.
    + destruct (rejoin_kind s t _ _ H Hle0 Hsb) as (n' & Hn & Hd). rewrite Hn.
      destruct n'; [|discriminate]. cbn [fst]. now apply rejoin_insert.
    + now rewrite (rejoin_dir s t _ H Hle0 Hsb).
    + cbn [fst] in Hle.
      assert (t !! (K ++ [b]) <> Some Dir) as Hnd.
      { apply (rejoin_not_dir s t _ data mt md H Hle). congruence. }
      destruct (t !! (K ++ [b])) as [[|]|]; try congruence; cbn [fst];
        now apply rejoin_insert.
  - (* nothing at the remote path: created in the first run *)
    rewrite (HcwK s HP), HnK in Hle. cbn [fst] in Hle.
    rewrite (HcwK s HP), HnK. cbn [fst].
    assert (t !! K <> Some Dir) as Hnd.
    { apply (rejoin_not_dir s t _ data mt md H Hle). congruence. }
    destruct (t !! K) as [[|]|] eqn:HtK; try congruence;
      rewrite (HcwK t HPt), HnKt; cbn [fst]; now apply rejoin_insert.
Qed.

Lemma created_rejoin (s t : gmap (list string) node) (parent : string)
    (ks K : list string) (b : string) :
  rejoin F s t ->
  kind_le (created_fs s parent ks K b).1 F ->
  (forall f, node_at (makedirs_from [] (removelast K) f).1 ks = node_at f ks) ->
  node_at t ks = node_at s ks ->
  K <> [] ->
  rejoin F (created_fs s parent ks K b).1 (created_fs t parent ks K b).1.
Proof.
  intros H Hle Hks Hsrc HK. unfold created_fs in *.
  pose proof (mkdir_rejoin s t parent (removelast K) H) as Hmk.
  pose proof (fun f => makedirs_from_dir [] (removelast K) f eq_refl) as Hdir.
  unfold mkdir_fs in *. destruct (Str.truthy parent); [|exact H].
  destruct (makedirs_from [] (removelast K) s) as [s1 es] eqn:Es.
  destruct (makedirs_from [] (removelast K) t) as [t1 et] eqn:Et.
  cbn [fst snd] in Hmk.
  assert (kind_le s1 F) as Hle1.
  { destruct es; cbn [fst] in Hle; [exact Hle|].
    eapply kind_le_trans; [apply copy_fs_kind_le | exact Hle]. }
  destruct (Hmk Hle1) as [-> Hr].
  destruct es as [e|]; [exact Hr|].
  apply copy_rejoin; try assumption.
  - pose proof (Hks s) as H1. pose proof (Hks t) as H2.
    rewrite Es in H1. rewrite Et in H2. cbn [fst] in *. congruence.
  - specialize (Hdir s). rewrite Es in Hdir. now apply Hdir.
Qed.

End Rejoin.

Section RejoinPlan.

Variable config : Config.
Variable w0 : World.
Hypothesis Hsep : separated config w0.
Variable F : gmap (list string) node.
Hypothesis HF : forall k, local_key config w0 k -> F !! k = fs w0 !! k.

Lemma step_rejoin (st : step) (s t : gmap (list string) node) :
  good_step config w0 st ->
  rejoin F s t ->
  (forall k, local_key config w0 k -> s !! k = fs w0 !! k) ->
  kind_le (step_fs w0 st s).1 F ->
  (step_fs w0 st t).2 = (step_fs w0 st s).2
  /\ rejoin F (step_fs w0 st s).1 (step_fs w0 st t).1.
Proof.
  intros Hg H Hloc Hle. destruct st as [e|rp|lp rp|e|]; cbn [step_fs fst snd] in *;
    try (split; [reflexivity | exact H]).
  - now apply mkdir_rejoin.
  - split; [reflexivity|].
    destruct Hg as (_ & _ & Hl & _ & HK & Hne & _).
    apply created_rejoin; try assumption.
    + intros f. destruct (resolve w0 lp) as [|c l] eqn:E; [reflexivity|].
      cbn [node_at]. apply makedirs_from_other. cbn [app]. intros Hp.
      apply (remote_not_local_up config w0 Hsep (resolve w0 rp) (c :: l) HK); [|exact Hl].
      etrans; [exact Hp | apply removelast_prefix].
    + destruct (resolve w0 lp) as [|c l] eqn:E; [reflexivity|]. cbn [node_at].
      destruct (H (c :: l)) as [E' | E']; rewrite E'; [reflexivity|].
      now rewrite HF, Hloc.
Qed.

Lemma run_rejoin (plan : list step) (s t : gmap (list string) node) :
  Forall (good_step config w0) plan ->
  rejoin F s t ->
  (forall k, local_key config w0 k -> s !! k = fs w0 !! k) ->
  kind_le (run_fs w0 plan s).1 F ->
  (run_fs w0 plan t).2 = (run_fs w0 plan s).2
  /\ rejoin F (run_fs w0 plan s).1 (run_fs w0 plan t).1.
Proof.
  intros Hg. revert s t. induction Hg as [|st plan Hst Hp IH]; intros s t H Hloc Hle;
    [now split|].
  cbn [run_fs] in *.
  pose proof (step_rejoin st s t Hst H Hloc) as Hstep.
  pose proof (fun k => step_fs_local config w0 Hsep st s k Hst) as Hl1.
  destruct (step_fs w0 st s) as [s1 es] eqn:Es.
  destruct (step_fs w0 st t) as [t1 et] eqn:Et. cbn [fst snd] in *.
  assert (kind_le s1 F) as Hle1.
  { destruct es; cbn [fst] in Hle; [exact Hle|].
    eapply kind_le_trans; [apply run_fs_kind_le | exact Hle]. }
  destruct (Hstep Hle1) as [-> Hr].
  destruct es as [e|]; [now split|].
  apply IH; [exact Hr | | exact Hle].
  intros k Hk. now rewrite Hl1, Hloc.
Qed.

End RejoinPlan.

(** A plan of good steps, run once more on the tree it produced, ends the
    same way and changes nothing. *)
Lemma run_fs_idempotent (config : Config) (w0 : World) (plan : list step)
    (f : gmap (list string) node) :
  separated config w0 ->
  Forall (good_step config w0) plan ->
  (forall k, local_key config w0 k -> f !! k = fs w0 !! k) ->
  run_fs w0 plan (run_fs w0 plan f).1 = run_fs w0 plan f.
Proof.
  intros Hsep Hg Hloc.
  destruct (run_rejoin config w0 Hsep (run_fs w0 plan f).1) with
    (plan := plan) (s := f) (t := (run_fs w0 plan f).1) as [He Hr].
  - intros k Hk. rewrite (run_fs_local config w0 Hsep plan f k Hg Hk). now apply Hloc.
  - exact Hg.
  - intros k. now right.
  - exact Hloc.
  - apply kind_le_refl.
  - destruct (run_fs w0 plan (run_fs w0 plan f).1) as [f2 e2] eqn:E2.
    destruct (run_fs w0 plan f) as [f1 e1] eqn:E1. cbn [fst snd] in *.
    f_equal; [|exact He].
    apply map_eq. intros k. destruct (Hr k) as [E | E]; exact E.
Qed.

(** ** Enough fuel *)

Section Fuel.

Variable config : Config.
Variable w0 : World.
Hypothesis Hwf : wf_fs (fs w0).

Lemma height_le (f : gmap (list string) node) (k : list string) (n : node) :
  f !! k = Some n -> (length k <= height f)%nat.
Proof.
  intros Hk. unfold height. apply max_list_elem_of_le.
  apply list_elem_of_fmap. exists (k, n). split; [reflexivity|].
  now apply elem_of_map_to_list.
Qed.

Lemma plan_body_no_fuel (cwd0 local_dir remote_dir top : string) (dirs files : list string) :
  ~ In SFuel (plan_body config cwd0 local_dir remote_dir top dirs files).
Proof.
  unfold plan_body. intros Hin. apply in_app_or in Hin as [Hin | Hin];
    apply in_concat in Hin as (l & Hl & Hin); apply in_map_iff in Hl as (n & <- & _).
  - unfold plan_dir_entry in Hin.
    destruct (posixpath.relpath cwd0 (posixpath.join top n) local_dir);
      destruct Hin as [Hin | []]; discriminate.
  - unfold plan_file_entry in Hin.
    destruct (_should_sync_file config (posixpath.join top n)); [|destruct Hin].
    destruct (posixpath.relpath cwd0 (posixpath.join top n) local_dir);
      destruct Hin as [Hin | []]; discriminate.
Qed.

Lemma plan_walk_no_fuel (local_dir remote_dir : string) (fuel : nat) (top : string) :
  (height (fs w0) < length (resolve w0 top) + fuel)%nat -> (1 <= fuel)%nat ->
  ~ In SFuel (plan_walk fuel config w0 local_dir remote_dir top).
Proof.
  revert top. induction fuel as [|fuel IH]; intros top Hh H1; [lia|].
  cbn [plan_walk]. destruct (scandir w0 top) as [[dirs files]|] eqn:Hsc; [|intros []].
  intros Hin. apply in_app_or in Hin as [Hin | Hin];
    [exact (plan_body_no_fuel _ _ _ _ _ _ Hin)|].
  apply in_concat in Hin as (l & Hl & Hin). apply in_map_iff in Hl as (n & <- & Hn).
  pose proof (scandir_dirs _ _ _ _ _ Hsc Hn) as Hk.
  pose proof (height_le _ _ _ Hk) as Hlen. rewrite length_app in Hlen. cbn in Hlen.
  assert (resolve w0 (posixpath.join top n) = resolve w0 top ++ [n]) as Hr.
  { unfold resolve. apply resolve_join_clean.
    exact (wf_fs_name _ _ _ _ Hwf Hk). }
  revert Hin. apply IH.
  - rewrite Hr, length_app. cbn. lia.
  - lia.
Qed.

Lemma plan_full_sync_no_fuel (fuel : nat) :
  (height (fs w0) < fuel)%nat -> ~ In SFuel (plan_full_sync fuel config w0).
Proof.
  intros Hh. unfold plan_full_sync. intros [Hin | Hin]; [discriminate|].
  apply in_app_or in Hin as [Hin | [Hin | []]]; [|discriminate].
  apply in_concat in Hin as (l & Hl & Hin). apply in_map_iff in Hl as (d & <- & _).
  unfold plan_mapping in Hin.
  destruct (os_path_exists w0 (local_path d)); [|destruct Hin as [Hin | []]; discriminate].
  unfold plan_sync_directory in Hin.
  destruct Hin as [Hin | [Hin | Hin]]; try discriminate.
  revert Hin. apply plan_walk_no_fuel; lia.
Qed.

End Fuel.

(** ** Two full synchronizations in a row *)

(** C9, as the code has it.  When the configured local roots and remote
    targets are normalised absolute paths (no [.], no [..], no empty
    component) and no local root lies inside a remote target or contains
    one, a full synchronization returns or raises (with fuel beyond the
    height of the tree), a second one right after it ends the same way,
    and it leaves the whole tree, the remote tree in particular, exactly
    as the first one left it.  A local root written with a [..] through
    a directory that the first run creates is skipped by the first run
    and copied by the second; such configurations are left out here. *)
Theorem full_sync_twice (config : Config) (w : World) :
  wf_fs (fs w) -> plain_config config -> separated config w ->
  exists n, forall fuel, (n <= fuel)%nat ->
    exists w1 w2,
      outcome_world (full_sync fuel config w) = Some w1 /\
      outcome_world (full_sync fuel config w1) = Some w2 /\
      is_done (full_sync fuel config w1) = is_done (full_sync fuel config w) /\
      fs w2 = fs w1 /\
      remote_tree config w2 = remote_tree config w1.
Proof.
  intros Hwf _ Hsep. exists (S (height (fs w))). intros fuel Hfuel.
  set (plan := plan_full_sync fuel config w).
  assert (Forall (good_step config w) plan) as Hgood by now apply plan_full_sync_good.
  assert (~ In SFuel plan) as Hnf by (apply plan_full_sync_no_fuel; [exact Hwf | lia]).
  pose proof (full_sync_is_plan config w w fuel Hsep Hwf (agree_refl config w)) as H1.
  fold plan in H1.
  destruct (exec_run_fs config w Hsep plan w Hgood eq_refl)
    as [[_ Hin] | (w1 & Hc1 & Hf1 & He1)]; [contradiction|].
  assert (agree config w w1) as Ha1.
  { split; [exact Hc1|]. intros k Hk. rewrite Hf1.
    now apply (run_fs_local config w Hsep). }
  pose proof (full_sync_is_plan config w w1 fuel Hsep Hwf Ha1) as H2. fold plan in H2.
  destruct (exec_run_fs config w Hsep plan w1 Hgood Hc1)
    as [[_ Hin] | (w2 & Hc2 & Hf2 & He2)]; [contradiction|].
  rewrite Hf1 in Hf2, He2.
  rewrite (run_fs_idempotent config w plan (fs w) Hsep Hgood) in Hf2, He2
    by reflexivity.
  exists w1, w2. rewrite H1, H2, He1, He2.
  assert (fs w2 = fs w1) as Hfs by congruence.
  split; [|split; [|split; [|split]]].
  - now destruct (run_fs w plan (fs w)).2.
  - now destruct (run_fs w plan (fs w)).2.
  - now destruct (run_fs w plan (fs w)).2.
  - exact Hfs.
  - unfold remote_tree, resolve. now rewrite Hfs, Hc1, Hc2.
Qed.

Lemma w_tree_wf : wf_fs (fs w_tree).
Proof.
  intros k n Hk. apply elem_of_map_to_list in Hk.
  assert (Forall (fun kn => Forall clean kn.1) (map_to_list (fs w_tree))) as Hall.
  { vm_compute map_to_list.
    repeat (apply List.Forall_cons; [cbn [fst]; solve_clean_list|]). apply List.Forall_nil. }
  rewrite Forall_forall in Hall. exact (Hall (k, n) Hk).
Qed.

Lemma cfg_example_separated : separated cfg_example w_tree.
Proof.
  intros d d' [<- | []] [<- | []].
  split; intros [k Hk]; vm_compute in Hk; discriminate Hk.
Qed.

Lemma full_sync_twice_witness :
  exists n, forall fuel, (n <= fuel)%nat ->
    exists w1 w2,
      outcome_world (full_sync fuel cfg_example w_tree) = Some w1 /\
      outcome_world (full_sync fuel cfg_example w1) = Some w2 /\
      is_done (full_sync fuel cfg_example w1) = is_done (full_sync fuel cfg_example w_tree) /\
      fs w2 = fs w1 /\
      remote_tree cfg_example w2 = remote_tree cfg_example w1.
Proof.
  apply (full_sync_twice cfg_example w_tree).
  - exact w_tree_wf.
  - exact cfg_example_plain.
  - exact cfg_example_separated.
Defined.


(** The same two runs, evaluated: the first one copies the two files that
    are not excluded, the second changes nothing. *)
Example full_sync_twice_ex :
  let o1 := full_sync 3 cfg_example w_tree in
  let w1 := final_world o1 w_tree in
  let o2 := full_sync 3 cfg_example w1 in
  let w2 := final_world o2 w1 in
  is_done o1 = true /\ is_done o2 = true /\
  lookup_path w1 "/mnt/remote/proj/z.txt" = Some (File "zed" 7 420) /\
  lookup_path w1 "/mnt/remote/proj/sub/y.txt" = Some (File "why" 8 420) /\
  lookup_path w1 "/mnt/remote/proj/debug.log" = None /\
  map_to_list (fs w2) = map_to_list (fs w1).
Proof. vm_compute. repeat split. Qed.

(** * More of the reconciler and of the store *)

(** ** What the computations keep *)

Section Keeps.

Variable R : World -> World -> Prop.
Hypothesis R_refl : forall w, R w w.
Hypothesis R_trans : forall w1 w2 w3, R w1 w2 -> R w2 w3 -> R w1 w3.

Lemma keeps_ret {A : Type} (a : A) : keeps R (mret a).
Proof. intros w. apply R_refl. Qed.

Lemma keeps_raise {A : Type} (e : exn) : keeps R (@raise A e).
Proof. intros w. apply R_refl. Qed.

Lemma keeps_get : keeps R get.
Proof. intros w. apply R_refl. Qed.

Lemma keeps_bind {A B : Type} (m : M A) (f : A -> M B) :
  keeps R m -> (forall a, keeps R (f a)) -> keeps R (m ≫= f).
Proof.
  intros Hm Hf w. specialize (Hm w). unfold mbind, M_bind.
  destruct (m w) as [a w1|e w1|]; [|exact Hm|exact I].
  specialize (Hf a w1). destruct (f a w1); eauto.
Qed.

Lemma keeps_try {A : Type} (body : M A) (handler : exn -> M A) :
  keeps R body -> (forall e, keeps R (handler e)) -> keeps R (try_except body handler).
Proof.
  intros Hm Hh w. specialize (Hm w). unfold try_except.
  destruct (body w) as [a w1|e w1|]; [exact Hm| |exact I].
  specialize (Hh e w1). destruct (handler e w1); eauto.
Qed.

Lemma keeps_lift {A : Type} (r : result A) : keeps R (lift_result r).
Proof. destruct r; [apply keeps_ret | apply keeps_raise]. Qed.

Lemma keeps_for_each {A : Type} (l : list A) (body : A -> M unit) :
  (forall x, keeps R (body x)) -> keeps R (for_each l body).
Proof.
  intros Hb. induction l as [|x l IH]; [apply keeps_ret|].
  cbn [for_each]. apply keeps_bind; [apply Hb | intros _; exact IH].
Qed.

Lemma keeps_os_walk (fuel : nat) (body : string -> list string -> list string -> M unit)
    (top : string) :
  (forall r ds fs, keeps R (body r ds fs)) -> keeps R (os_walk fuel body top).
Proof.
  intros Hb. revert top. induction fuel as [|fuel IH]; intros top; [intros w; exact I|].
  cbn [os_walk]. apply keeps_bind; [apply keeps_get|]. intros w.
  destruct (scandir w top) as [[dirs nondirs]|]; [|apply keeps_ret].
  apply keeps_bind; [apply Hb|]. intros _. apply keeps_for_each. intros x. apply IH.
Qed.

Hypothesis R_log : forall e w, R w (add_log e w).

Lemma keeps_logger (l : level) (msg : string) (e : option exn) : keeps R (logger l msg e).
Proof. intros w. apply R_log. Qed.

Hypothesis R_makedirs : forall name, keeps R (os_makedirs name).
Hypothesis R_copy2 : forall src dst, keeps R (shutil_copy2 src dst).

Lemma keeps_relpath (path start : string) : keeps R (os_path_relpath path start).
Proof.
  unfold os_path_relpath. apply keeps_bind; [apply keeps_get|]. intros w.
  destruct (posixpath.relpath (cwd w) path start); [apply keeps_ret | apply keeps_raise].
Qed.

Lemma keeps_dest_or_remote (config : Config) (file_path : string) (dest_path : option string) :
  keeps R (dest_or_remote config file_path dest_path).
Proof.
  unfold dest_or_remote. destruct dest_path as [d|].
  - destruct (Str.truthy d); [apply keeps_ret|].
    apply keeps_bind; [apply keeps_get | intros w; apply keeps_lift].
  - apply keeps_bind; [apply keeps_get | intros w; apply keeps_lift].
Qed.

(** [sync_file] for a Created or a Modified event. *)
Lemma keeps_sync_file_created (config : Config) (action file_path : string)
    (dest_path : option string) :
  action = "created" \/ action = "modified" ->
  keeps R (sync_file config action file_path dest_path).
Proof.
  intros Ha. unfold sync_file.
  destruct (negb (_should_sync_file config file_path)); [apply keeps_logger|].
  apply keeps_bind; [apply keeps_dest_or_remote|]. intros r.
  destruct (truthy_opt r) as [remote|]; [|apply keeps_logger].
  apply keeps_try; [|intros e; apply keeps_logger].
  unfold sync_action.
  replace (String.eqb action "created" || String.eqb action "modified") with true
    by (destruct Ha as [-> | ->]; reflexivity).
  apply keeps_bind; [apply R_makedirs|]. intros _.
  apply keeps_bind; [apply R_copy2|]. intros _. apply keeps_logger.
Qed.

Lemma keeps_sync_directory (fuel : nat) (config : Config) (local_dir remote_dir : string) :
  keeps R (sync_directory fuel config local_dir remote_dir).
Proof.
  unfold sync_directory. apply keeps_bind; [apply keeps_logger|]. intros _.
  apply keeps_bind; [apply R_makedirs|]. intros _.
  apply keeps_os_walk. intros r ds fls. unfold sync_directory_body.
  apply keeps_bind.
  - apply keeps_for_each. intros x.
    apply keeps_bind; [apply keeps_relpath | intros rel; apply R_makedirs].
  - intros _. apply keeps_for_each. intros x.
    destruct (_should_sync_file config (posixpath.join r x)); [|apply keeps_ret].
    apply keeps_bind; [apply keeps_relpath|]. intros rel.
    apply keeps_sync_file_created. now left.
Qed.

Lemma keeps_full_sync (fuel : nat) (config : Config) : keeps R (full_sync fuel config).
Proof.
  unfold full_sync. apply keeps_bind; [apply keeps_logger|]. intros _.
  apply keeps_bind; [|intros _; apply keeps_logger].
  apply keeps_for_each. intros d.
  apply keeps_bind; [apply keeps_get|]. intros w.
  destruct (os_path_exists w (local_path d));
    [apply keeps_sync_directory | apply keeps_logger].
Qed.

End Keeps.

Section Kept.

Lemma same_store_refl (w : World) : same_store w w.
Proof. repeat split. Qed.

Lemma same_store_trans (w1 w2 w3 : World) :
  same_store w1 w2 -> same_store w2 w3 -> same_store w1 w3.
Proof. unfold same_store. intros (?&?) (?&?). split; congruence. Qed.

Lemma same_store_log (e : LogEntry) (w : World) : same_store w (add_log e w).
Proof. repeat split. Qed.

Lemma same_store_set_fs (f : gmap (list string) node) (w : World) :
  same_store w (set_fs f w).
Proof. repeat split. Qed.

Lemma same_store_makedirs (name : string) : keeps same_store (os_makedirs name).
Proof.
  intros w. destruct (os_makedirs_inv name w) as [[e ->] | [[e ->] | [-> _]]];
    (apply same_store_refl || apply same_store_set_fs).
Qed.

Lemma same_store_copy2 (src dst : string) : keeps same_store (shutil_copy2 src dst).
Proof.
  intros w. destruct (shutil_copy2_inv src dst w)
    as [[e ->] | (data & mt & md & d & _ & _ & _ & ->)];
    (apply same_store_refl || apply same_store_set_fs).
Qed.

Lemma same_store_remove (p : string) : keeps same_store (os_remove p).
Proof.
  intros w. unfold os_remove. destruct (lookup_path w p) as [[data mt md|]|];
    (apply same_store_refl || apply same_store_set_fs).
Qed.

Lemma same_store_move (src dst : string) : keeps same_store (shutil_move src dst).
Proof.
  intros w. destruct (shutil_move_spec src dst w)
    as [(e & w' & -> & Hs) | (w' & -> & Hs & _)];
    rewrite Hs; apply same_store_set_fs.
Qed.

Lemma same_store_sync_action (config : Config) (action file_path : string)
    (dest_path : option string) (remote_path : string) :
  keeps same_store (sync_action config action file_path dest_path remote_path).
Proof.
  pose proof same_store_refl as Hr. pose proof same_store_trans as Ht.
  pose proof same_store_log as Hl.
  unfold sync_action.
  destruct (String.eqb action "created" || String.eqb action "modified").
  { apply keeps_bind; [auto using same_store_makedirs .. | intros _].
    apply keeps_bind; [auto using same_store_copy2 .. | intros _]. now apply keeps_logger. }
  destruct (String.eqb action "deleted").
  { apply keeps_bind; [auto using keeps_get .. | intros w].
    destruct (os_path_exists w remote_path); [|now apply keeps_ret].
    apply keeps_bind; [auto using same_store_remove .. | intros _]. now apply keeps_logger. }
  destruct (String.eqb action "moved"); [|now apply keeps_ret].
  destruct (truthy_opt dest_path) as [dest|]; [|now apply keeps_ret].
  apply keeps_bind; [auto using keeps_get .. | intros w].
  apply keeps_bind; [auto using keeps_lift .. | intros rd].
  destruct (truthy_opt rd) as [remote_dest|]; [|now apply keeps_ret].
  apply keeps_bind; [auto using same_store_makedirs .. | intros _].
  apply keeps_bind; [auto using same_store_move .. | intros _]. now apply keeps_logger.
Qed.

Lemma same_store_sync_file (config : Config) (action file_path : string)
    (dest_path : option string) :
  keeps same_store (sync_file config action file_path dest_path).
Proof.
  pose proof same_store_refl as Hr. pose proof same_store_trans as Ht.
  pose proof same_store_log as Hl.
  unfold sync_file.
  destruct (negb (_should_sync_file config file_path)); [now apply keeps_logger|].
  apply keeps_bind; [auto using keeps_dest_or_remote .. | intros r].
  destruct (truthy_opt r) as [remote|]; [|now apply keeps_logger].
  apply keeps_try; [auto using same_store_sync_action .. | intros e; now apply keeps_logger].
Qed.

Lemma grown_refl (w : World) : grown w w.
Proof. apply kind_le_refl. Qed.

Lemma grown_trans (w1 w2 w3 : World) : grown w1 w2 -> grown w2 w3 -> grown w1 w3.
Proof. apply kind_le_trans. Qed.

Lemma grown_log (e : LogEntry) (w : World) : grown w (add_log e w).
Proof. apply kind_le_refl. Qed.

Lemma grown_makedirs (name : string) : keeps grown (os_makedirs name).
Proof.
  intros w. destruct (os_makedirs_inv name w) as [[e ->] | [[e ->] | [-> _]]];
    (apply grown_refl || apply makedirs_from_kind_le).
Qed.

Lemma grown_copy2 (src dst : string) : keeps grown (shutil_copy2 src dst).
Proof.
  intros w. destruct (shutil_copy2_inv src dst w)
    as [[e ->] | (data & mt & md & d & _ & Hs & Hcw & ->)]; [apply grown_refl|].
  pose proof (copy_fs_kind_le (fs w) (resolve w src) (resolve w d)) as H.
  unfold copy_fs in H. unfold lookup_path in Hs. rewrite Hs, Hcw in H. exact H.
Qed.

End Kept.

(** ** The full synchronization only adds *)

(** X1.  Whatever the configuration, the tree and the fuel, and however
    the run ends, a full synchronization removes no entry of the tree
    and turns no file into a directory or a directory into a file. *)
Theorem full_sync_never_removes (fuel : nat) (config : Config) (w : World) :
  kind_le (fs w) (fs (final_world (full_sync fuel config w) w)).
Proof.
  pose proof (keeps_full_sync grown grown_refl grown_trans grown_log
                grown_makedirs grown_copy2 fuel config w) as H.
  destruct (full_sync fuel config w); cbn [final_world];
    [exact H | exact H | apply kind_le_refl].
Qed.

(** X2.  The reconciler makes no call to the metadata store: after
    [sync_file], for every action, path and destination, and after a
    full synchronization, the records of the store are what they were,
    also when the call raises. *)
Theorem engine_never_writes_store (config : Config) (w : World) :
  (forall action file_path dest_path,
     db (final_world (sync_file config action file_path dest_path w) w) = db w)
  /\ (forall fuel, db (final_world (full_sync fuel config w) w) = db w).
Proof.
  split.
  - intros action file_path dest_path.
    pose proof (same_store_sync_file config action file_path dest_path w) as H.
    destruct (sync_file config action file_path dest_path w); cbn [final_world];
      [exact (proj1 H) | exact (proj1 H) | reflexivity].
  - intros fuel.
    pose proof (keeps_full_sync same_store same_store_refl same_store_trans same_store_log
                  same_store_makedirs same_store_copy2 fuel config w) as H.
    destruct (full_sync fuel config w); cbn [final_world];
      [exact (proj1 H) | exact (proj1 H) | reflexivity].
Qed.

(** ** Events the reconciler drops *)

Lemma dest_or_remote_inv (config : Config) (file_path : string)
    (dest_path : option string) (w : World) :
  (exists r, dest_or_remote config file_path dest_path w = Done r w)
  \/ (exists e, dest_or_remote config file_path dest_path w = Raised e w).
Proof.
  unfold dest_or_remote.
  assert ((exists r, (w' ← get; lift_result (_get_remote_path (cwd w') config file_path)) w
                     = Done r w)
          \/ (exists e, (w' ← get; lift_result (_get_remote_path (cwd w') config file_path)) w
                        = Raised e w)) as H.
  { munfold. destruct (_get_remote_path (cwd w) config file_path); cbn; eauto. }
  destruct dest_path as [d|]; [|exact H].
  destruct (Str.truthy d); [left; eexists; reflexivity | exact H].
Qed.

Lemma dest_or_remote_none (config : Config) (file_path : string)
    (dest_path : option string) (w : World) :
  truthy_opt dest_path = None ->
  dest_or_remote config file_path dest_path w
  = lift_result (_get_remote_path (cwd w) config file_path) w.
Proof.
  unfold truthy_opt, dest_or_remote. destruct dest_path as [d|]; [|reflexivity].
  destruct (Str.truthy d); [discriminate | reflexivity].
Qed.

(** X3.  An action other than "created", "modified", "deleted" and
    "moved" changes nothing in the tree, whatever the path and the
    destination; for a file that is not excluded and whose remote path
    resolves, the call returns without even a log line. *)
Theorem sync_file_unknown_action (config : Config) (action file_path : string)
    (dest_path : option string) (w : World) :
  action <> "created" -> action <> "modified" ->
  action <> "deleted" -> action <> "moved" ->
  fs (final_world (sync_file config action file_path dest_path w) w) = fs w
  /\ (_should_sync_file config file_path = true ->
      forall remote,
        dest_or_remote config file_path dest_path w = Done (Some remote) w ->
        remote <> "" ->
        sync_file config action file_path dest_path w = Done tt w).
Proof.
  intros H1 H2 H3 H4.
  apply String.eqb_neq in H1, H2, H3, H4.
  assert (forall r, sync_action config action file_path dest_path r = mret tt) as Hact.
  { intros r. unfold sync_action. now rewrite H1, H2, H3, H4. }
  split.
  - unfold sync_file. destruct (negb (_should_sync_file config file_path)); [reflexivity|].
    unfold mbind, M_bind.
    destruct (dest_or_remote_inv config file_path dest_path w) as [[r ->] | [e ->]];
      [|reflexivity].
    destruct (truthy_opt r) as [remote|]; [|reflexivity].
    unfold try_except. now rewrite Hact.
  - intros Hs remote Hr Hne. unfold sync_file. rewrite Hs. cbn [negb].
    unfold mbind, M_bind. rewrite Hr. cbn [truthy_opt].
    apply truthy_ne in Hne. rewrite Hne. unfold try_except. now rewrite Hact.
Qed.

Lemma sync_file_unknown_action_witness :
  fs (final_world (sync_file cfg_example "renamed" "/data/proj/a.txt" None w_new) w_new)
  = fs w_new
  /\ sync_file cfg_example "renamed" "/data/proj/a.txt" None w_new = Done tt w_new.
Proof.
  destruct (sync_file_unknown_action cfg_example "renamed" "/data/proj/a.txt" None w_new)
    as [Hfs Hret]; try discriminate.
  split; [exact Hfs|].
  apply (Hret eq_refl "/mnt/remote/proj/a.txt"); [reflexivity | discriminate].
Defined.

(** X4.  A file that is not excluded and lies under no configured local
    root is dropped with a warning, for every action: the call returns,
    the tree and the store are untouched, and the log gains the line
    "Could not determine remote path". *)
Theorem sync_file_outside_roots (config : Config) (action file_path : string)
    (dest_path : option string) (w : World) :
  _should_sync_file config file_path = true ->
  truthy_opt dest_path = None ->
  Forall (fun d => Str.startswith file_path (local_path d) = false)
         (sync_directories config) ->
  sync_file config action file_path dest_path w
  = Done tt (add_log (log_entry WARNING
                        ("Could not determine remote path for: " +:+ file_path) None) w).
Proof.
  intros Hs Hd Hout. unfold sync_file. rewrite Hs. cbn [negb].
  unfold mbind, M_bind. rewrite (dest_or_remote_none _ _ _ _ Hd).
  unfold _get_remote_path.
  apply get_remote_path_loop_none with (cwd := cwd w) (mount := mount_point config) in Hout.
  rewrite Hout. reflexivity.
Qed.

Lemma sync_file_outside_roots_witness :
  sync_file cfg_example "created" "/home/u/notes.txt" None w_new
  = Done tt (add_log (log_entry WARNING
                        "Could not determine remote path for: /home/u/notes.txt" None) w_new).
Proof.
  apply (sync_file_outside_roots cfg_example "created" "/home/u/notes.txt" None w_new);
    [reflexivity | reflexivity |].
  repeat (apply List.Forall_cons; [reflexivity|]). apply List.Forall_nil.
Defined.

(** X5.  A Moved event that carries no destination is dropped in
    silence: for a file that is not excluded and whose remote path
    resolves, the call returns and the world, its log included, is what
    it was. *)
Theorem sync_file_moved_no_destination (config : Config) (file_path remote : string)
    (dest_path : option string) (w : World) :
  _should_sync_file config file_path = true ->
  truthy_opt dest_path = None ->
  _get_remote_path (cwd w) config file_path = Returns (Some remote) ->
  sync_file config "moved" file_path dest_path w = Done tt w.
Proof.
  intros Hs Hd Hr. unfold sync_file. rewrite Hs. cbn [negb].
  unfold mbind, M_bind. rewrite (dest_or_remote_none _ _ _ _ Hd), Hr.
  cbn [lift_result]. unfold mret, M_ret. cbn [truthy_opt].
  rewrite (get_remote_path_truthy _ _ _ _ Hr).
  unfold try_except, sync_action. cbn [String.eqb Ascii.eqb Bool.eqb orb].
  now rewrite Hd.
Qed.

Lemma sync_file_moved_no_destination_witness :
  sync_file cfg_example "moved" "/data/proj/a.txt" (Some "") w_renamed = Done tt w_renamed.
Proof.
  apply (sync_file_moved_no_destination cfg_example "/data/proj/a.txt"
           "/mnt/remote/proj/a.txt" (Some "") w_renamed); reflexivity.
Defined.

(** ** What a Created event leaves alone *)

Lemma shutil_copy2_done (src dst d : string) (w w' : World) :
  shutil_copy2 src dst w = Done d w' ->
  exists data mt md,
    lookup_path w src = Some (File data mt md)
    /\ resolve w src <> resolve w d
    /\ node_at (fs w) (resolve w d) <> Some Dir
    /\ w' = set_fs (<[resolve w d := File data mt md]> (fs w)) w.
Proof.
  unfold shutil_copy2.
  set (dst' := if os_path_isdir w dst
               then posixpath.join dst (posixpath.basename src) else dst).
  destruct (os_path_exists w src && os_path_exists w dst'
            && bool_decide (resolve w src = resolve w dst')) eqn:Hsame; [discriminate|].
  destruct (node_at (fs w) (resolve w src)) as [[data mt md|]|] eqn:Hs; try discriminate.
  destruct (check_writable (fs w) (resolve w dst')) eqn:Hcw; [discriminate|].
  intros H. injection H as <- <-.
  exists data, mt, md. split; [exact Hs|]. split; [|split; [|reflexivity]].
  - intros Heq. unfold os_path_exists, lookup_path in Hsame.
    rewrite <- Heq, Hs in Hsame. cbn in Hsame.
    now rewrite bool_decide_eq_true_2 in Hsame.
  - now apply check_writable_not_dir.
Qed.

Lemma shutil_copy2_raised (src dst : string) (e : exn) (w w' : World) :
  shutil_copy2 src dst w = Raised e w' -> w' = w.
Proof.
  destruct (shutil_copy2_inv src dst w)
    as [[e' ->] | (data & mt & md & d & _ & _ & _ & ->)]; [|discriminate].
  now intros [= _ <-].
Qed.

Lemma copied_into_refl (file_path : string) (w : World) : copied_into file_path w w.
Proof. split; [reflexivity|]. split; [tauto | intros k n Hk; now left]. Qed.

Lemma copied_into_log (file_path : string) (e : LogEntry) (w w' : World) :
  copied_into file_path w w' -> copied_into file_path w (add_log e w').
Proof. intros H. exact H. Qed.

(** Creating directories keeps every entry as it is. *)
Lemma copied_into_makedirs (file_path : string) (base rest : list string) (w : World) :
  copied_into file_path w (set_fs (makedirs_from base rest (fs w)).1 w).
Proof.
  split; [reflexivity|]. split.
  - intros n Hn. unfold lookup_path, resolve in *. cbn [cwd set_fs fs].
    destruct (posixpath.abs_comps (cwd w) file_path) as [|c k]; [exact Hn|].
    cbn [node_at] in *. now apply makedirs_from_mono.
  - intros k n Hk. left. cbn [fs set_fs]. now apply makedirs_from_mono.
Qed.

Lemma lookup_path_makedirs (p : string) (base rest : list string) (w : World)
    (data : string) (mt md : Z) :
  lookup_path (set_fs (makedirs_from base rest (fs w)).1 w) p = Some (File data mt md) ->
  lookup_path w p = Some (File data mt md).
Proof.
  unfold lookup_path, resolve. cbn [cwd set_fs fs].
  destruct (posixpath.abs_comps (cwd w) p) as [|c k]; [trivial|]. cbn [node_at].
  intros H. apply makedirs_from_new in H. destruct H as [H | [_ H]]; [exact H | discriminate].
Qed.

Lemma copied_into_copy (file_path remote d : string) (base rest : list string)
    (w w2 : World) :
  shutil_copy2 file_path remote (set_fs (makedirs_from base rest (fs w)).1 w) = Done d w2 ->
  copied_into file_path w w2.
Proof.
  set (w1 := set_fs (makedirs_from base rest (fs w)).1 w).
  intros H. apply shutil_copy2_done in H.
  destruct H as (data & mt & md & Hs & Hne & Hnd & ->).
  pose proof (lookup_path_makedirs _ _ _ _ _ _ _ Hs) as Hs0.
  destruct (copied_into_makedirs file_path base rest w) as (Hc & Hsrc & Hfr).
  fold w1 in Hc, Hsrc, Hfr.
  split; [exact Hc|]. split.
  - intros n Hn. specialize (Hsrc n Hn).
    unfold lookup_path, resolve in *. cbn [cwd set_fs fs] in *.
    rewrite node_at_insert_ne; [exact Hsrc | congruence].
  - intros k n Hk. cbn [fs set_fs].
    assert (fs w1 !! k = Some n) as Hk1 by (now apply makedirs_from_mono).
    destruct (decide (resolve w1 d = k)) as [<-|Hk'].
    + right. rewrite lookup_insert_eq. split; [|eauto].
      destruct (resolve w1 d) as [|c k]; [now destruct Hnd|]. cbn [node_at] in Hnd.
      destruct n; [reflexivity | congruence].
    + left. now rewrite lookup_insert_ne by exact Hk'.
Qed.

Lemma copied_into_action (config : Config) (action file_path : string)
    (dest_path : option string) (remote : string) (w : World) :
  action = "created" \/ action = "modified" ->
  copied_into file_path w
    (final_world (sync_action config action file_path dest_path remote w) w).
Proof.
  intros Ha. unfold sync_action.
  replace (String.eqb action "created" || String.eqb action "modified") with true
    by (destruct Ha as [-> | ->]; reflexivity).
  unfold mbind, M_bind.
  destruct (os_makedirs_inv (posixpath.dirname remote) w) as [[e ->] | [[e ->] | [-> _]]];
    cbn [final_world].
  - apply copied_into_refl.
  - apply copied_into_makedirs.
  - destruct (shutil_copy2 file_path remote _) as [d w2|e w2|] eqn:Hcp; cbn [final_world].
    + unfold logger, modify. cbn [final_world].
      apply copied_into_log. eapply copied_into_copy. exact Hcp.
    + apply shutil_copy2_raised in Hcp. subst w2. apply copied_into_makedirs.
    + apply copied_into_refl.
Qed.

(** X6.  A Created or Modified event never alters the local file it is
    about, and never removes or replaces anything else: every entry of
    the tree stays as it is, except that a regular file may be
    overwritten with the content, modification time and mode of the
    local file.  This holds for every path and destination, also when
    the call fails. *)
Theorem sync_file_created_keeps (config : Config) (action file_path : string)
    (dest_path : option string) (w : World) :
  action = "created" \/ action = "modified" ->
  copied_into file_path w
    (final_world (sync_file config action file_path dest_path w) w).
Proof.
  intros Ha. unfold sync_file.
  destruct (negb (_should_sync_file config file_path));
    [apply copied_into_log, copied_into_refl|].
  unfold mbind, M_bind.
  destruct (dest_or_remote_inv config file_path dest_path w) as [[r ->] | [e ->]];
    [|apply copied_into_refl].
  destruct (truthy_opt r) as [remote|]; [|apply copied_into_log, copied_into_refl].
  pose proof (copied_into_action config action file_path dest_path remote w Ha) as H.
  unfold try_except.
  destruct (sync_action config action file_path dest_path remote w) as [[] w1|e w1|];
    cbn [final_world] in *; [exact H | apply copied_into_log; exact H | exact H].
Qed.

Lemma sync_file_created_keeps_witness :
  copied_into "/data/proj/b.txt" w_new
    (final_world (sync_file cfg_example "created" "/data/proj/b.txt" None w_new) w_new).
Proof.
  apply (sync_file_created_keeps cfg_example "created" "/data/proj/b.txt" None w_new).
  left. reflexivity.
Defined.

(** ** The mapper at its edges *)

Lemma startswith_empty (root : string) : Str.startswith "" root = true <-> root = "".
Proof.
  unfold Str.startswith. destruct root as [|c r]; cbn; [tauto|].
  split; discriminate.
Qed.

Lemma get_remote_path_loop_raises (cwd mount : string) (dirs : list DirConfig)
    (local : string) (e : exn) :
  get_remote_path_loop cwd mount dirs local = Raises e
  <-> e = ValueError /\ local = "" /\ Exists (fun d => local_path d = "") dirs.
Proof.
  induction dirs as [|d dirs IH]; cbn [get_remote_path_loop].
  - split; [discriminate | intros (_ & _ & H); inversion H].
  - destruct (Str.startswith local (local_path d)) eqn:Hp.
    + destruct (string_dec local "") as [->|Hne].
      * apply startswith_empty in Hp. cbn.
        split; [intros [= <-]; repeat split; now left | intros (-> & _ & _); reflexivity].
      * destruct (relpath_some cwd local (local_path d) Hne) as [rel ->].
        split; [discriminate | intros (_ & H & _); contradiction].
    + rewrite IH. split; intros (He & Hl & Hex); repeat split; trivial.
      * now right.
      * inversion Hex as [? ? Hd | ? ? Hd]; subst; [|exact Hd].
        rewrite Hd in Hp. discriminate Hp.
Qed.

(** X7.  [_get_remote_path] raises in one case only: the path is the
    empty string and some configured local root is the empty string as
    well; the exception is the [ValueError] of [os.path.relpath].  For
    every other path it returns a remote path or [None]. *)
Theorem get_remote_path_raises_iff (cwd : string) (config : Config) (local : string)
    (e : exn) :
  _get_remote_path cwd config local = Raises e
  <-> e = ValueError /\ local = ""
      /\ Exists (fun d => local_path d = "") (sync_directories config).
Proof. apply get_remote_path_loop_raises. Qed.

(** X8.  The only exception that leaves [sync_file] is that
    [ValueError]: the call raises exactly when the path is empty and not
    excluded, no destination is given and some configured local root is
    empty; the world is then untouched.  Every failure of the file
    operations is caught and logged. *)
Theorem sync_file_raises_iff (config : Config) (action file_path : string)
    (dest_path : option string) (w w' : World) (e : exn) :
  sync_file config action file_path dest_path w = Raised e w'
  <-> e = ValueError /\ w' = w /\ file_path = "" /\ truthy_opt dest_path = None
      /\ _should_sync_file config file_path = true
      /\ Exists (fun d => local_path d = "") (sync_directories config).
Proof.
  unfold sync_file.
  destruct (_should_sync_file config file_path) eqn:Hs; cbn [negb].
  2:{ split; [discriminate | intros (_ & _ & _ & _ & H & _); discriminate H]. }
  unfold mbind, M_bind.
  assert (forall r, (match truthy_opt r with
                     | Some remote =>
                         try_except (sync_action config action file_path dest_path remote)
                           (fun e0 => logger ERROR ("Error syncing file " +:+ file_path)
                                        (Some e0))
                     | None => logger WARNING
                                 ("Could not determine remote path for: " +:+ file_path) None
                     end) w <> Raised e w') as Hcaught.
  { intros r. destruct (truthy_opt r) as [remote|]; [|discriminate].
    unfold try_except.
    destruct (sync_action config action file_path dest_path remote w); discriminate. }
  destruct (truthy_opt dest_path) as [d|] eqn:Hd.
  - assert (dest_or_remote config file_path dest_path w = Done (Some d) w) as ->.
    { unfold truthy_opt, dest_or_remote in *. destruct dest_path as [d'|]; [|discriminate].
      destruct (Str.truthy d'); [|discriminate]. now injection Hd as ->. }
    split; [intros H; now apply Hcaught in H|].
    intros (_ & _ & _ & H & _). discriminate H.
  - rewrite (dest_or_remote_none _ _ _ _ Hd).
    destruct (_get_remote_path (cwd w) config file_path) as [r|e0] eqn:Hr;
      cbn [lift_result]; unfold mret, M_ret, raise.
    + split; [intros H; now apply Hcaught in H|].
      intros (He & _ & Hp & _ & _ & Hex).
      assert (_get_remote_path (cwd w) config file_path = Raises ValueError) as Hv
        by (apply get_remote_path_loop_raises; auto).
      congruence.
    + apply get_remote_path_loop_raises in Hr. destruct Hr as (-> & Hp & Hex).
      split; [intros [= <- <-]; auto 10 | intros (-> & -> & _); reflexivity].
Qed.

(** X9.  A path whose components extend those of the first configured
    local root that is a prefix of it is mapped to the remote root of
    that mapping extended by the same components; the local root itself
    is mapped to the remote root. *)
Theorem get_remote_path_below (cwd : string) (config : Config) (local : string)
    (pre post : list DirConfig) (d : DirConfig) (sfx : list string) :
  sync_directories config = pre ++ d :: post ->
  Forall (fun d' => Str.startswith local (local_path d') = false) pre ->
  Str.startswith local (local_path d) = true ->
  local <> "" ->
  posixpath.abs_comps cwd local = posixpath.abs_comps cwd (local_path d) ++ sfx ->
  exists remote,
    _get_remote_path cwd config local = Returns (Some remote)
    /\ posixpath.abs_comps cwd remote
       = posixpath.abs_comps cwd (posixpath.join (mount_point config) (remote_path d))
         ++ sfx.
Proof.
  intros Hdirs Hpre Hd Hne Hsfx.
  unfold _get_remote_path. rewrite Hdirs, get_remote_path_loop_skip by exact Hpre.
  cbn [get_remote_path_loop]. rewrite Hd.
  destruct sfx as [|x sfx].
  - assert (posixpath.relpath cwd local (local_path d) = Some ".") as ->.
    { unfold posixpath.relpath. apply truthy_ne in Hne. rewrite Hne. cbn [negb].
      rewrite Hsfx, app_nil_r.
      pose proof (commonprefix_app (posixpath.abs_comps cwd (local_path d)) []) as Hc.
      rewrite app_nil_r in Hc. rewrite Hc, Nat.sub_diag, drop_all. reflexivity. }
    eexists. split; [reflexivity|].
    rewrite abs_comps_join by reflexivity. cbn. now rewrite app_nil_r.
  - rewrite (relpath_under cwd local (local_path d) (x :: sfx) Hne) by (discriminate || assumption).
    eexists. split; [reflexivity|].
    apply abs_comps_join_sepjoin; [|discriminate].
    pose proof (abs_comps_clean cwd local) as Hc. rewrite Hsfx in Hc.
    now apply Forall_app in Hc.
Qed.

Lemma get_remote_path_below_witness :
  exists remote,
    _get_remote_path "/" cfg_example "/data/proj/src/main.c" = Returns (Some remote)
    /\ posixpath.abs_comps "/" remote
       = posixpath.abs_comps "/" (posixpath.join "/mnt/remote" "proj") ++ ["src"; "main.c"].
Proof.
  apply (get_remote_path_below "/" cfg_example "/data/proj/src/main.c" [] []
           {| local_path := "/data/proj"; remote_path := "proj";
              exclude_patterns := ["*.log"] |} ["src"; "main.c"]).
  - reflexivity.
  - constructor.
  - reflexivity.
  - discriminate.
  - reflexivity.
Defined.

(** ** The full synchronization: what it reads and what it writes *)

Lemma only_copies_refl (w : World) : only_copies w w.
Proof. intros k data mt md H. eauto. Qed.

Lemma only_copies_trans (w1 w2 w3 : World) :
  only_copies w1 w2 -> only_copies w2 w3 -> only_copies w1 w3.
Proof.
  intros H12 H23 k data mt md H. destruct (H23 _ _ _ _ H) as [k' H']. eauto.
Qed.

Lemma only_copies_log (e : LogEntry) (w : World) : only_copies w (add_log e w).
Proof. intros k data mt md H. exists k. exact H. Qed.

Lemma only_copies_makedirs (name : string) : keeps only_copies (os_makedirs name).
Proof.
  intros w.
  assert (only_copies w (set_fs (makedirs_from [] (resolve w name) (fs w)).1 w)) as H.
  { intros k data mt md Hk. cbn [fs set_fs] in Hk. apply makedirs_from_new in Hk.
    destruct Hk as [Hk | [_ Hk]]; [eauto | discriminate]. }
  destruct (os_makedirs_inv name w) as [[e ->] | [[e ->] | [-> _]]];
    [apply only_copies_refl | exact H | exact H].
Qed.

Lemma only_copies_copy2 (src dst : string) : keeps only_copies (shutil_copy2 src dst).
Proof.
  intros w. destruct (shutil_copy2 src dst w) as [d w'|e w'|] eqn:Hcp; [| |exact I].
  - apply shutil_copy2_done in Hcp. destruct Hcp as (data & mt & md & Hs & _ & _ & ->).
    intros k data' mt' md' Hk. cbn [fs set_fs] in Hk.
    destruct (decide (resolve w d = k)) as [<-|Hne].
    + rewrite lookup_insert_eq in Hk. injection Hk as <- <- <-.
      unfold lookup_path in Hs. destruct (resolve w src) as [|c ks]; [discriminate|].
      cbn [node_at] in Hs. eauto.
    + rewrite lookup_insert_ne in Hk by exact Hne. eauto.
  - apply shutil_copy2_raised in Hcp. subst w'. apply only_copies_refl.
Qed.

(** X10.  A full synchronization invents no content: however it ends,
    every regular file of the tree afterwards has the bytes, the
    modification time and the mode of a regular file that was in the
    tree before. *)
Theorem full_sync_only_copies (fuel : nat) (config : Config) (w : World) :
  only_copies w (final_world (full_sync fuel config w) w).
Proof.
  pose proof (keeps_full_sync only_copies only_copies_refl only_copies_trans
                only_copies_log only_copies_makedirs only_copies_copy2 fuel config w) as H.
  destruct (full_sync fuel config w); cbn [final_world];
    [exact H | exact H | apply only_copies_refl].
Qed.

Lemma for_each_missing_roots (fuel : nat) (config : Config) (dirs : list DirConfig)
    (w : World) :
  Forall (fun d => os_path_exists w (local_path d) = false) dirs ->
  exists w',
    for_each dirs (fun dir_config =>
      w0 ← get;
      if os_path_exists w0 (local_path dir_config)
      then sync_directory fuel config (local_path dir_config)
             (posixpath.join (mount_point config) (remote_path dir_config))
      else logger WARNING ("Local directory does not exist: " +:+ local_path dir_config)
             None) w
    = Done tt w'
    /\ fs w' = fs w /\ cwd w' = cwd w /\ db w' = db w
    /\ log w' = log w ++ map missing_root_warning dirs.
Proof.
  revert w. induction dirs as [|d dirs IH]; intros w Hall.
  - exists w. cbn. rewrite app_nil_r. repeat split.
  - inversion Hall as [|? ? Hd Hrest]; subst.
    cbn [for_each]. munfold. rewrite Hd.
    destruct (IH (add_log (missing_root_warning d) w)) as (w' & Hrun & Hfs & Hcwd & Hdb & Hlog).
    { exact Hrest. }
    exists w'. split; [exact Hrun|]. split; [exact Hfs|]. split; [exact Hcwd|].
    split; [exact Hdb|]. rewrite Hlog. cbn [log add_log map].
    now rewrite <- app_assoc.
Qed.

(** X11.  When none of the configured local roots exists (and so when
    none is configured), a full synchronization returns with any fuel,
    leaves the tree and the store as they were, and logs its start, one
    warning for each mapping in configuration order, and its end. *)
Theorem full_sync_missing_roots (fuel : nat) (config : Config) (w : World) :
  Forall (fun d => os_path_exists w (local_path d) = false) (sync_directories config) ->
  exists w',
    full_sync fuel config w = Done tt w'
    /\ fs w' = fs w /\ db w' = db w
    /\ log w' = log w
                ++ [log_entry INFO "Starting full synchronization" None]
                ++ map missing_root_warning (sync_directories config)
                ++ [log_entry INFO "Full synchronization completed" None].
Proof.
  intros Hall. unfold full_sync.
  destruct (for_each_missing_roots fuel config (sync_directories config)
              (add_log (log_entry INFO "Starting full synchronization" None) w) Hall)
    as (w' & Hrun & Hfs & Hcwd & Hdb & Hlog).
  exists (add_log (log_entry INFO "Full synchronization completed" None) w').
  set (loop := for_each (sync_directories config) _) in *.
  split.
  - unfold logger, mbind, M_bind, modify. rewrite Hrun. reflexivity.
  - split; [exact Hfs|]. split; [exact Hdb|]. cbn [log add_log]. rewrite Hlog.
    cbn [log add_log]. now rewrite <- !app_assoc.
Qed.

Lemma full_sync_missing_roots_witness :
  exists w',
    full_sync 0 cfg_example (mk_world [] empty_db) = Done tt w'
    /\ fs w' = fs (mk_world [] empty_db) /\ db w' = db (mk_world [] empty_db)
    /\ log w' = log (mk_world [] empty_db)
                ++ [log_entry INFO "Starting full synchronization" None]
                ++ map missing_root_warning (sync_directories cfg_example)
                ++ [log_entry INFO "Full synchronization completed" None].
Proof.
  apply (full_sync_missing_roots 0 cfg_example (mk_world [] empty_db)).
  repeat (apply List.Forall_cons; [reflexivity|]). apply List.Forall_nil.
Defined.

(** X12.  On a well-formed tree, when the configured local roots and
    remote targets are normalised absolute paths and no local root lies
    inside a remote target or contains one, a full synchronization
    leaves every entry at or below a local root exactly as it was,
    however the run ends: it reads the local trees and never writes
    them.  (A remote target written with a [..] through a local root
    makes [os.makedirs] create that root; such targets are left out.) *)
Theorem full_sync_keeps_local (fuel : nat) (config : Config) (w : World)
    (k : list string) :
  wf_fs (fs w) -> plain_config config -> separated config w -> local_key config w k ->
  fs (final_world (full_sync fuel config w) w) !! k = fs w !! k.
Proof.
  intros Hwf _ Hsep Hk.
  rewrite (full_sync_is_plan config w w fuel Hsep Hwf (agree_refl config w)).
  pose proof (plan_full_sync_good config w fuel Hsep Hwf) as Hgood.
  destruct (exec_run_fs config w Hsep _ w Hgood eq_refl)
    as [[-> _] | (w1 & _ & Hf1 & ->)]; [reflexivity|].
  assert (fs w1 !! k = fs w !! k) as H
    by (rewrite Hf1; now apply (run_fs_local config w Hsep)).
  now destruct (run_fs w (plan_full_sync fuel config w) (fs w)).2.
Qed.

Lemma full_sync_keeps_local_witness :
  fs (final_world (full_sync 5 cfg_example w_tree) w_tree) !! ["data"; "proj"; "sub"]
  = fs w_tree !! ["data"; "proj"; "sub"].
Proof.
  apply (full_sync_keeps_local 5 cfg_example w_tree ["data"; "proj"; "sub"]).
  - exact w_tree_wf.
  - exact cfg_example_plain.
  - exact cfg_example_separated.
  - exists {| local_path := "/data/proj"; remote_path := "proj";
              exclude_patterns := ["*.log"] |}.
    split; [now left|]. exists ["sub"]. reflexivity.
Defined.

(** ** The store: what its operations do to the records *)

Lemma delete_file_metadata_table (w : World) (d : Database) (path : string) :
  db w = Some d ->
  MetadataDB.delete_file_metadata path w
  = Done tt (add_log (log_entry DEBUG ("Deleted metadata for " +:+ path) None)
               (set_db (Some {| files := delete path (files d);
                                sqlite_sequence := sqlite_sequence d |}) w)).
Proof.
  intros Hd. unfold MetadataDB.delete_file_metadata, MetadataDB.connect,
    MetadataDB.delete_row, MetadataDB.commit. munfold. now rewrite Hd.
Qed.

Lemma delete_file_metadata_no_table (w : World) (path : string) :
  db w = None ->
  MetadataDB.delete_file_metadata path w
  = Done tt (add_log (log_entry ERROR ("Error deleting metadata for " +:+ path)
                        (Some OperationalError)) w).
Proof.
  intros Hd. unfold MetadataDB.delete_file_metadata, MetadataDB.connect,
    MetadataDB.delete_row, MetadataDB.commit. munfold. now rewrite Hd.
Qed.

Lemma answer_get_file_metadata (w : World) (q : string) :
  answer (MetadataDB.get_file_metadata q w) = Some (records w !! q).
Proof.
  unfold records. destruct (db w) as [d|] eqn:Hd.
  - now rewrite (get_file_metadata_table w d q Hd).
  - now rewrite (get_file_metadata_no_table w q Hd).
Qed.

(** X13.  Deleting and looking up: [delete_file_metadata] always
    returns and leaves the tree alone; afterwards [get_file_metadata]
    answers "no record" for the deleted path and, for every other path,
    what it answered before.  Without the table nothing is deleted and
    the failure is logged. *)
Theorem delete_then_get (w : World) (path q : string) :
  exists w1,
    MetadataDB.delete_file_metadata path w = Done tt w1
    /\ fs w1 = fs w
    /\ answer (MetadataDB.get_file_metadata q w1)
       = (if bool_decide (q = path) then Some None
          else answer (MetadataDB.get_file_metadata q w))
    /\ (db w = None ->
        db w1 = None
        /\ log w1 = log w ++ [log_entry ERROR ("Error deleting metadata for " +:+ path)
                                (Some OperationalError)]).
Proof.
  destruct (db w) as [d|] eqn:Hd.
  - rewrite (delete_file_metadata_table w d path Hd). eexists. split; [reflexivity|].
    split; [reflexivity|]. split; [|discriminate].
    rewrite !answer_get_file_metadata. unfold records. cbn [db add_log set_db files].
    rewrite Hd. destruct (decide (q = path)) as [->|Hne].
    + rewrite bool_decide_eq_true_2 by reflexivity. now rewrite lookup_delete_eq.
    + rewrite bool_decide_eq_false_2 by exact Hne. now rewrite lookup_delete_ne.
  - rewrite (delete_file_metadata_no_table w path Hd). eexists. split; [reflexivity|].
    split; [reflexivity|]. split.
    + rewrite !answer_get_file_metadata. unfold records. cbn [db add_log]. rewrite Hd.
      destruct (bool_decide (q = path)); now rewrite lookup_empty.
    + intros _. split; [exact Hd | reflexivity].
Qed.

(** X14.  [update_file_metadata] never adds a record and never changes
    one.  For a path that exists it leaves the store as it was and logs
    an error (the unbound name [time], or the missing table); for a path
    that does not exist it deletes the record of that path and keeps
    every other one.  It always returns and leaves the tree alone. *)
Theorem update_file_metadata_only_deletes (w : World) (path : string) :
  exists w1,
    MetadataDB.update_file_metadata path w = Done tt w1
    /\ fs w1 = fs w
    /\ (os_path_exists w path = true ->
        db w1 = db w
        /\ exists e,
             (e = NameError \/ e = OperationalError)
             /\ log w1 = log w ++ [log_entry ERROR ("Error updating metadata for " +:+ path)
                                     (Some e)])
    /\ (os_path_exists w path = false -> records w1 = delete path (records w))
    /\ (forall q r, records w1 !! q = Some r -> records w !! q = Some r).
Proof.
  destruct (os_path_exists w path) eqn:He.
  - destruct (exists_stat_of w path He) as [st Hst].
    assert (exists e, (e = NameError \/ e = OperationalError)
                      /\ MetadataDB.update_file_metadata path w
                         = Done tt (add_log (log_entry ERROR
                                               ("Error updating metadata for " +:+ path)
                                               (Some e)) w)) as (e & Hor & Hrun).
    { unfold MetadataDB.update_file_metadata, MetadataDB.connect,
        MetadataDB.select_by_path, MetadataDB.time_time, MetadataDB.load_global.
      munfold. rewrite He. cbn [negb]. unfold os_stat. rewrite Hst.
      destruct (db w) as [d|].
      - exists NameError. split; [now left|]. destruct (files d !! path); reflexivity.
      - exists OperationalError. split; [now right | reflexivity]. }
    rewrite Hrun. eexists. split; [reflexivity|]. split; [reflexivity|].
    split; [|split; [discriminate|]].
    + intros _. split; [reflexivity|]. exists e. split; [exact Hor | reflexivity].
    + intros q r Hq. exact Hq.
  - assert (MetadataDB.update_file_metadata path w
            = MetadataDB.delete_file_metadata path w) as ->.
    { unfold MetadataDB.update_file_metadata. unfold try_except at 1.
      unfold mbind at 1, M_bind at 1, get at 1. rewrite He. cbn [negb].
      destruct (db w) as [d|] eqn:Hd.
      - now rewrite (delete_file_metadata_table w d path Hd).
      - now rewrite (delete_file_metadata_no_table w path Hd). }
    destruct (db w) as [d|] eqn:Hd.
    + rewrite (delete_file_metadata_table w d path Hd). eexists.
      split; [reflexivity|]. split; [reflexivity|]. split; [discriminate|].
      unfold records. cbn [db add_log set_db files]. rewrite Hd. split; [reflexivity|].
      intros q r Hq. apply lookup_delete_Some in Hq. tauto.
    + rewrite (delete_file_metadata_no_table w path Hd). eexists.
      split; [reflexivity|]. split; [reflexivity|]. split; [discriminate|].
      unfold records. cbn [db add_log]. rewrite Hd. split.
      * intros _. now rewrite delete_empty.
      * intros q r Hq. exact Hq.
Qed.

(** X15.  Without the table (a store that was never initialized),
    [needs_sync] answers true for every path that exists, after logging
    the lookup that failed: the [OperationalError] of the query is caught
    inside [get_file_metadata], which answers [None]. *)
Theorem needs_sync_no_table (w : World) (path : string) :
  db w = None -> os_path_exists w path = true ->
  exists w1,
    MetadataDB.needs_sync path w = Done true w1
    /\ log w1 = log w ++ [log_entry ERROR ("Error getting metadata for " +:+ path)
                            (Some OperationalError)].
Proof.
  intros Hd He. unfold MetadataDB.needs_sync. munfold. rewrite He. cbn [negb].
  rewrite (get_file_metadata_no_table w path Hd).
  eexists. split; reflexivity.
Qed.

Lemma needs_sync_no_table_witness :
  exists w1,
    MetadataDB.needs_sync "/data/proj/b.txt" (set_db None w_new) = Done true w1
    /\ log w1 = log (set_db None w_new)
                ++ [log_entry ERROR ("Error getting metadata for " +:+ "/data/proj/b.txt")
                      (Some OperationalError)].
Proof.
  apply (needs_sync_no_table (set_db None w_new) "/data/proj/b.txt"); reflexivity.
Defined.

(** ** Pre- and postconditions of the walk *)

Section Hoare.

Lemma hoare_ret {A : Type} (pre : World -> Prop) (a : A)
    (exc : exn -> World -> Prop) :
  hoare pre (mret a) (fun _ w => pre w) exc.
Proof. intros w Hw. exact Hw. Qed.

Lemma hoare_get (pre : World -> Prop) (exc : exn -> World -> Prop) :
  hoare pre get (fun a w => a = w /\ pre w) exc.
Proof. intros w Hw. now split. Qed.

Lemma hoare_bind {A B : Type} (pre : World -> Prop) (m : M A) (f : A -> M B)
    (mid : A -> World -> Prop) (post : B -> World -> Prop) (exc : exn -> World -> Prop) :
  hoare pre m mid exc -> (forall a, hoare (mid a) (f a) post exc) ->
  hoare pre (m ≫= f) post exc.
Proof.
  intros Hm Hf w Hw. specialize (Hm w Hw). unfold mbind, M_bind.
  destruct (m w) as [a w1|e w1|]; [|exact Hm|exact I]. exact (Hf a w1 Hm).
Qed.

Lemma hoare_try {A : Type} (pre : World -> Prop) (body : M A) (handler : exn -> M A)
    (post : A -> World -> Prop) (mid exc : exn -> World -> Prop) :
  hoare pre body post mid -> (forall e, hoare (mid e) (handler e) post exc) ->
  hoare pre (try_except body handler) post exc.
Proof.
  intros Hm Hh w Hw. specialize (Hm w Hw). unfold try_except.
  destruct (body w) as [a w1|e w1|]; [exact Hm| |exact I]. exact (Hh e w1 Hm).
Qed.

Lemma hoare_weaken {A : Type} (pre pre' : World -> Prop) (m : M A)
    (post post' : A -> World -> Prop) (exc exc' : exn -> World -> Prop) :
  hoare pre m post exc ->
  (forall w, pre' w -> pre w) -> (forall a w, post a w -> post' a w) ->
  (forall e w, exc e w -> exc' e w) ->
  hoare pre' m post' exc'.
Proof.
  intros Hm Hp Hq He w Hw. specialize (Hm w (Hp w Hw)).
  destruct (m w); auto.
Qed.

Lemma hoare_assume {A : Type} (P : Prop) (pre : World -> Prop) (m : M A)
    (post : A -> World -> Prop) (exc : exn -> World -> Prop) :
  (forall w, pre w -> P) -> (P -> hoare pre m post exc) -> hoare pre m post exc.
Proof. intros HP Hm w Hw. exact (Hm (HP w Hw) w Hw). Qed.

Lemma hoare_for_each {A : Type} (inv : World -> Prop) (Q : A -> Prop) (l : list A)
    (body : A -> M unit) (exc : exn -> World -> Prop) :
  Forall Q l ->
  (forall x, Q x -> hoare inv (body x) (fun _ w => inv w) exc) ->
  hoare inv (for_each l body) (fun _ w => inv w) exc.
Proof.
  intros Hl Hb. induction l as [|x l IH]; [apply hoare_ret|].
  inversion Hl as [|? ? Hx Hrest]; subst.
  cbn [for_each].
  apply hoare_bind with (mid := fun _ w => inv w); [apply Hb, Hx | intros ?; exact (IH Hrest)].
Qed.

Lemma hoare_logger (inv : World -> Prop) (l : level) (msg : string) (e : option exn)
    (exc : exn -> World -> Prop) :
  (forall en w, inv w -> inv (add_log en w)) ->
  hoare inv (logger l msg e) (fun _ w => inv w) exc.
Proof. intros Hlog w Hw. now apply Hlog. Qed.

End Hoare.

Section WalkErrors.

Lemma makedirs_from_error (base rest : list string) (f : gmap (list string) node)
    (e : exn) :
  (makedirs_from base rest f).2 = Some e -> e = FileExistsError \/ e = NotADirectoryError.
Proof.
  revert base f. induction rest as [|c rest IH]; intros base f; cbn [makedirs_from];
    [discriminate|].
  destruct (f !! (base ++ [c])) as [[data mt md|]|]; [|apply IH|apply IH].
  cbn [snd]. intros [= <-]. destruct rest; [now left | now right].
Qed.

Lemma makedirs_from_wf (base rest : list string) (f : gmap (list string) node) :
  Forall clean (base ++ rest) -> wf_fs f -> wf_fs (makedirs_from base rest f).1.
Proof.
  revert base f. induction rest as [|c rest IH]; intros base f Hc Hwf; [exact Hwf|].
  cbn [makedirs_from].
  assert (Forall clean ((base ++ [c]) ++ rest)) as Hc' by (now rewrite <- app_assoc).
  destruct (f !! (base ++ [c])) as [[data mt md|]|]; [exact Hwf | now apply IH |].
  apply IH; [exact Hc'|]. intros k n Hk.
  destruct (decide (base ++ [c] = k)) as [<-|Hne].
  - now apply Forall_app in Hc' as [Hc' _].
  - rewrite lookup_insert_ne in Hk by exact Hne. exact (Hwf k n Hk).
Qed.

Lemma wf_world_log (e : LogEntry) (w : World) : wf_world w -> wf_world (add_log e w).
Proof. trivial. Qed.

Lemma hoare_makedirs (name : string) :
  hoare wf_world (os_makedirs name) (fun _ w => wf_world w)
    (fun e w => raised_by_makedirs e w /\ wf_world w).
Proof.
  intros w Hw.
  assert (match os_makedirs name w with
          | Done _ w' => wf_world w'
          | Raised _ w' => wf_world w'
          | OutOfFuel => True
          end) as H.
  { unfold os_makedirs.
    destruct (Str.truthy name); cbn [negb]; [|exact Hw].
    pose proof (makedirs_from_wf [] (resolve w name) (fs w) (abs_comps_clean _ _) Hw) as Hwf.
    destruct (makedirs_from [] (resolve w name) (fs w)) as [f [e|]]; cbn [fst snd] in *;
      exact Hwf. }
  destruct (os_makedirs name w) as [a w'|e w'|] eqn:E; [exact H | | exact I].
  split; [exists name, w; exact E | exact H].
Qed.

Lemma hoare_copy2 (src dst : string) :
  hoare wf_world (shutil_copy2 src dst) (fun _ w => wf_world w) (fun _ w => wf_world w).
Proof.
  intros w Hw. destruct (shutil_copy2 src dst w) as [d w'|e w'|] eqn:Hcp; [| |exact I].
  - apply shutil_copy2_done in Hcp. destruct Hcp as (data & mt & md & _ & _ & _ & ->).
    intros k n Hk. cbn [fs set_fs] in Hk.
    destruct (decide (resolve w d = k)) as [<-|Hne]; [apply abs_comps_clean|].
    rewrite lookup_insert_ne in Hk by exact Hne. exact (Hw k n Hk).
  - apply shutil_copy2_raised in Hcp. now subst w'.
Qed.

(** A Created event with a destination never raises. *)
Lemma hoare_sync_file_created (config : Config) (file_path dest : string) :
  Str.truthy dest = true ->
  hoare wf_world (sync_file config "created" file_path (Some dest))
    (fun _ w => wf_world w) (fun _ _ => False).
Proof.
  intros Hd. unfold sync_file.
  destruct (negb (_should_sync_file config file_path));
    [apply hoare_logger; auto using wf_world_log|].
  unfold dest_or_remote. rewrite Hd.
  apply hoare_bind with (mid := fun _ w => wf_world w); [apply hoare_ret|]. intros r.
  destruct (truthy_opt r) as [remote|]; [|apply hoare_logger; auto using wf_world_log].
  eapply hoare_try with (mid := fun _ w => wf_world w);
    [|intros e; apply hoare_logger; auto using wf_world_log].
  unfold sync_action. cbn [String.eqb Ascii.eqb Bool.eqb orb].
  apply hoare_bind with (mid := fun _ w => wf_world w).
  { eapply hoare_weaken; [apply hoare_makedirs | auto | auto | now intros e w [_ H]]. }
  intros ?. apply hoare_bind with (mid := fun _ w => wf_world w); [apply hoare_copy2|].
  intros ?.
  apply hoare_logger; auto using wf_world_log.
Qed.

Lemma hoare_relpath (path start : string) :
  path <> "" ->
  hoare wf_world (os_path_relpath path start)
    (fun rel w => Str.truthy rel = true /\ wf_world w) (fun _ _ => False).
Proof.
  intros Hne w Hw. unfold os_path_relpath. munfold.
  destruct (relpath_some (cwd w) path start Hne) as [rel Hrel]. rewrite Hrel.
  split; [exact (relpath_truthy _ _ _ _ Hrel) | exact Hw].
Qed.

Lemma join_name_ne (root n : string) : clean n -> posixpath.join root n <> "".
Proof. intros (Hn & _). apply truthy_ne, join_truthy, truthy_ne, Hn. Qed.

Lemma hoare_body (config : Config) (local_dir remote_dir root : string)
    (dirs files : list string) :
  Forall clean dirs -> Forall clean files ->
  hoare wf_world (sync_directory_body config local_dir remote_dir root dirs files)
    (fun _ w => wf_world w) (fun e w => raised_by_makedirs e w /\ wf_world w).
Proof.
  intros Hdirs Hfiles. unfold sync_directory_body.
  apply hoare_bind with (mid := fun _ w => wf_world w).
  - apply (hoare_for_each wf_world clean); [exact Hdirs|]. intros n Hn.
    apply hoare_bind with (mid := fun rel w => Str.truthy rel = true /\ wf_world w).
    + eapply hoare_weaken; [apply (hoare_relpath _ _ (join_name_ne root n Hn)) | auto ..].
      intros e w [].
    + intros rel. eapply hoare_weaken; [apply hoare_makedirs | | auto ..].
      now intros w [_ H].
  - intros ?. apply (hoare_for_each wf_world clean); [exact Hfiles|]. intros n Hn.
    destruct (_should_sync_file config (posixpath.join root n)); [|apply hoare_ret].
    apply hoare_bind with (mid := fun rel w => Str.truthy rel = true /\ wf_world w).
    + eapply hoare_weaken; [apply (hoare_relpath _ _ (join_name_ne root n Hn)) | auto ..].
      intros e w [].
    + intros rel w [Hrel Hw].
      pose proof (hoare_sync_file_created config (posixpath.join root n)
                    (posixpath.join remote_dir rel) (join_truthy _ _ Hrel) w Hw) as H.
      destruct (sync_file config "created" _ _ w); [exact H | destruct H | exact I].
Qed.

Lemma hoare_walk (fuel : nat) (config : Config) (local_dir remote_dir top : string) :
  hoare wf_world (os_walk fuel (sync_directory_body config local_dir remote_dir) top)
    (fun _ w => wf_world w) (fun e w => raised_by_makedirs e w /\ wf_world w).
Proof.
  revert top. induction fuel as [|fuel IH]; intros top; [intros w _; exact I|].
  cbn [os_walk]. apply hoare_bind with (mid := fun a w => a = w /\ wf_world w);
    [apply hoare_get|]. intros w0.
  apply hoare_assume with (P := wf_world w0); [now intros w [-> Hw]|]. intros Hw.
  eapply hoare_weaken with (pre := wf_world);
    [|now intros ? [_ ?] | intros ? ? Hp; exact Hp | intros ? ? Hp; exact Hp].
  destruct (scandir w0 top) as [[dirs nondirs]|] eqn:Hsc; [|apply hoare_ret].
  assert (Forall clean dirs /\ Forall clean nondirs) as [Hd Hn].
  { split; apply Forall_forall; intros n Hin; apply list_elem_of_In in Hin.
    - exact (wf_fs_name _ _ _ _ Hw (scandir_dirs _ _ _ _ _ Hsc Hin)).
    - destruct (scandir_files _ _ _ _ _ Hsc Hin) as (data & mt & md & Hf).
      exact (wf_fs_name _ _ _ _ Hw Hf). }
  apply hoare_bind with (mid := fun _ w => wf_world w); [now apply hoare_body|]. intros ?.
  apply (hoare_for_each wf_world (fun _ => True)); [now apply Forall_forall|].
  intros n _. apply IH.
Qed.

Lemma hoare_sync_directory (fuel : nat) (config : Config) (local_dir remote_dir : string) :
  hoare wf_world (sync_directory fuel config local_dir remote_dir)
    (fun _ w => wf_world w) (fun e w => raised_by_makedirs e w /\ wf_world w).
Proof.
  unfold sync_directory.
  apply hoare_bind with (mid := fun _ w => wf_world w);
    [apply hoare_logger; auto using wf_world_log|]. intros ?.
  apply hoare_bind with (mid := fun _ w => wf_world w); [apply hoare_makedirs|]. intros ?.
  apply hoare_walk.
Qed.

Lemma hoare_full_sync (fuel : nat) (config : Config) :
  hoare wf_world (full_sync fuel config)
    (fun _ w => wf_world w) (fun e w => raised_by_makedirs e w /\ wf_world w).
Proof.
  unfold full_sync.
  apply hoare_bind with (mid := fun _ w => wf_world w);
    [apply hoare_logger; auto using wf_world_log|]. intros ?.
  apply hoare_bind with (mid := fun _ w => wf_world w);
    [|intros ?; apply hoare_logger; auto using wf_world_log].
  apply (hoare_for_each wf_world (fun _ => True)); [now apply Forall_forall|].
  intros d _.
  apply hoare_bind with (mid := fun a w => a = w /\ wf_world w); [apply hoare_get|].
  intros w0.
  eapply hoare_weaken with (pre := wf_world);
    [|now intros ? [_ ?] | intros ? ? Hp; exact Hp | intros ? ? Hp; exact Hp].
  destruct (os_path_exists w0 (local_path d));
    [apply hoare_sync_directory | apply hoare_logger; auto using wf_world_log].
Qed.

End WalkErrors.


Lemma w_blocked_wf : wf_fs (fs w_blocked).
Proof.
  intros k n Hk. apply elem_of_map_to_list in Hk.
  assert (Forall (fun kn => Forall clean kn.1) (map_to_list (fs w_blocked))) as Hall.
  { vm_compute map_to_list.
    repeat (apply List.Forall_cons; [cbn [fst]; solve_clean_list|]). apply List.Forall_nil. }
  rewrite Forall_forall in Hall. exact (Hall (k, n) Hk).
Qed.

Lemma cfg_two_plain : plain_config cfg_two.
Proof.
  apply List.Forall_cons; [|apply List.Forall_cons; [|apply List.Forall_nil]]; split.
  - exists ["data"; "proj"]. split; [solve_clean_list | reflexivity].
  - exists ["mnt"; "remote"; "proj"]. split; [solve_clean_list | reflexivity].
  - exists ["data"; "other"]. split; [solve_clean_list | reflexivity].
  - exists ["mnt"; "remote"; "other"]. split; [solve_clean_list | reflexivity].
Qed.

Lemma cfg_two_separated : separated cfg_two w_blocked.
Proof.
  intros d d' [<- | [<- | []]] [<- | [<- | []]];
    split; intros [k Hk]; vm_compute in Hk; discriminate Hk.
Qed.


(** ** The same event twice *)

Section Twice.

Lemma makedirs_from_idem (base rest : list string) (f : gmap (list string) node) :
  makedirs_from base rest (makedirs_from base rest f).1 = makedirs_from base rest f.
Proof.
  revert base f. induction rest as [|c rest IH]; intros base f; [reflexivity|].
  cbn [makedirs_from]. destruct (f !! (base ++ [c])) as [[data mt md|]|] eqn:Hk.
  - cbn [fst makedirs_from]. now rewrite Hk.
  - cbn [makedirs_from].
    rewrite (makedirs_from_mono (base ++ [c]) rest f _ _ Hk). apply IH.
  - cbn [makedirs_from].
    rewrite (makedirs_from_mono (base ++ [c]) rest (<[base ++ [c] := Dir]> f)
               (base ++ [c]) Dir) by apply lookup_insert_eq.
    apply IH.
Qed.

(** Directories that are all there stay there when a file is written
    where no directory is. *)
Lemma makedirs_from_insert (base rest kd : list string) (f : gmap (list string) node)
    (n : node) :
  makedirs_from base rest f = (f, None) -> f !! kd <> Some Dir ->
  makedirs_from base rest (<[kd := n]> f) = (<[kd := n]> f, None).
Proof.
  revert base. induction rest as [|c rest IH]; intros base H Hkd; [reflexivity|].
  cbn [makedirs_from] in *. destruct (f !! (base ++ [c])) as [[data mt md|]|] eqn:Hk.
  - discriminate H.
  - assert (base ++ [c] <> kd) as Hne by congruence.
    rewrite lookup_insert_ne by congruence. rewrite Hk. now apply IH.
  - pose proof (makedirs_from_mono (base ++ [c]) rest (<[base ++ [c] := Dir]> f)
                  (base ++ [c]) Dir (lookup_insert_eq _ _ _)) as Hm.
    rewrite H in Hm. cbn [fst] in Hm. congruence.
Qed.

Lemma removelast_ne {A : Type} (l : list A) : l <> [] -> removelast l <> l.
Proof.
  intros Hl. destruct (exists_last Hl) as (l' & a & ->). rewrite removelast_snoc.
  intros E. apply (f_equal length) in E. rewrite length_app in E. cbn in E. lia.
Qed.

Lemma os_makedirs_ext (name : string) (w v : World) :
  fs v = fs w -> cwd v = cwd w ->
  os_makedirs name v
  = match os_makedirs name w with
    | Done a w' => Done a (set_fs (fs w') v)
    | Raised e w' => Raised e (set_fs (fs w') v)
    | OutOfFuel => OutOfFuel
    end.
Proof.
  intros Hf Hc. unfold os_makedirs, resolve. rewrite Hf, Hc.
  destruct (Str.truthy name); cbn [negb].
  - now destruct (makedirs_from [] (posixpath.abs_comps (cwd w) name) (fs w)) as [f [e|]].
  - rewrite <- Hf. now rewrite set_fs_id.
Qed.

Lemma shutil_copy2_ext (src dst : string) (w v : World) :
  fs v = fs w -> cwd v = cwd w ->
  shutil_copy2 src dst v
  = match shutil_copy2 src dst w with
    | Done a w' => Done a (set_fs (fs w') v)
    | Raised e w' => Raised e (set_fs (fs w') v)
    | OutOfFuel => OutOfFuel
    end.
Proof.
  intros Hf Hc.
  assert (set_fs (fs w) v = v) as Hid by (rewrite <- Hf; apply set_fs_id).
  unfold shutil_copy2, os_path_isdir, os_path_exists, lookup_path, resolve.
  rewrite Hf, Hc.
  destruct (_ && _ && _); [now rewrite Hid|].
  destruct (node_at (fs w) _) as [[data mt md|]|]; try now rewrite Hid.
  destruct (check_writable (fs w) _); [now rewrite Hid | reflexivity].
Qed.

(** A copy that went through goes through again, and writes what is
    there already. *)
Lemma shutil_copy2_again (src dst d : string) (w w' : World) :
  shutil_copy2 src dst w = Done d w' ->
  shutil_copy2 src dst w' = Done d w'.
Proof.
  intros H. pose proof H as H0. apply shutil_copy2_done in H0.
  destruct H0 as (data & mt & md & Hs & Hne & Hnd & ->).
  assert (d = if os_path_isdir w dst
              then posixpath.join dst (posixpath.basename src) else dst) as Hd.
  { unfold shutil_copy2 in H. destruct (_ && _ && _); [discriminate|].
    destruct (node_at (fs w) (resolve w src)) as [[? ? ?|]|]; try discriminate.
    destruct (check_writable (fs w) _); [discriminate|]. now injection H as <- _. }
  set (f2 := <[resolve w d := File data mt md]> (fs w)).
  assert (resolve w d <> []) as Hnil by (intros E; rewrite E in Hnd; now apply Hnd).
  assert (check_writable (fs w) (resolve w d) = None) as Hcw.
  { unfold shutil_copy2 in H. rewrite <- Hd in H. destruct (_ && _ && _); [discriminate|].
    destruct (node_at (fs w) (resolve w src)) as [[? ? ?|]|]; try discriminate.
    now destruct (check_writable (fs w) (resolve w d)). }
  assert (os_path_isdir (set_fs f2 w) dst = os_path_isdir w dst) as Hisdir.
  { unfold os_path_isdir, lookup_path, resolve. cbn [cwd set_fs fs]. fold (resolve w dst).
    destruct (decide (resolve w d = resolve w dst)) as [E|E].
    - unfold f2. rewrite E. rewrite node_at_insert_file by (rewrite <- E; exact Hnd).
      rewrite <- E. destruct (node_at (fs w) (resolve w d)) as [[? ? ?|]|];
        [reflexivity | now destruct Hnd | reflexivity].
    - unfold f2. now rewrite node_at_insert_ne. }
  unfold shutil_copy2. rewrite Hisdir, <- Hd.
  unfold os_path_exists, lookup_path, resolve. cbn [cwd set_fs fs].
  fold (resolve w src) (resolve w d).
  rewrite (bool_decide_eq_false_2 _ Hne), andb_false_r.
  unfold f2 at 1. rewrite node_at_insert_ne by congruence.
  unfold lookup_path in Hs. rewrite Hs.
  assert (check_writable f2 (resolve w d) = None) as ->.
  { unfold check_writable in *. unfold f2 at 1.
    rewrite node_at_insert_file by exact Hnd.
    assert (removelast (resolve w d) <> resolve w d) as Hrl.
    { now apply removelast_ne. }
    unfold f2. rewrite node_at_insert_ne by congruence.
    destruct (node_at (fs w) (resolve w d)) as [[? ? ?|]|]; [exact Hcw | discriminate | exact Hcw]. }
  unfold f2. cbn [set_fs fs cwd db clock dir_stat log]. now rewrite insert_insert_eq.
Qed.

Lemma os_makedirs_again (name : string) (w : World) :
  match os_makedirs name w with
  | Done _ w' => os_makedirs name w' = Done tt w'
  | Raised e w' => os_makedirs name w' = Raised e w'
  | OutOfFuel => True
  end.
Proof.
  unfold os_makedirs. destruct (Str.truthy name); cbn [negb]; [|reflexivity].
  pose proof (makedirs_from_idem [] (resolve w name) (fs w)) as Hi.
  destruct (makedirs_from [] (resolve w name) (fs w)) as [f1 oe] eqn:Hm.
  cbn [fst] in Hi.
  destruct oe as [e|]; unfold resolve in *; cbn [cwd fs set_fs]; now rewrite Hi.
Qed.

Lemma os_makedirs_after_copy (name src dst d : string) (w w' : World) :
  os_makedirs name w = Done tt w -> shutil_copy2 src dst w = Done d w' ->
  os_makedirs name w' = Done tt w'.
Proof.
  intros Hmk Hcp. apply shutil_copy2_done in Hcp.
  destruct Hcp as (data & mt & md & _ & _ & Hnd & ->).
  unfold os_makedirs in *. destruct (Str.truthy name); cbn [negb] in *; [|discriminate].
  destruct (makedirs_from [] (resolve w name) (fs w)) as [f1 [e|]] eqn:Hm; [discriminate|].
  assert (f1 = fs w) as -> by (injection Hmk as Hmk; now apply (f_equal fs) in Hmk).
  unfold resolve in *. cbn [cwd fs set_fs].
  rewrite (makedirs_from_insert [] _ (posixpath.abs_comps (cwd w) d) (fs w) _ Hm).
  - reflexivity.
  - destruct (posixpath.abs_comps (cwd w) d); [now destruct Hnd | exact Hnd].
Qed.

Lemma os_makedirs_cwd (name : string) (w : World) :
  cwd (final_world (os_makedirs name w) w) = cwd w.
Proof.
  destruct (os_makedirs_inv name w) as [[e ->] | [[e ->] | [-> _]]]; reflexivity.
Qed.

Lemma created_action_ext (config : Config) (action file_path : string)
    (dest_path : option string) (remote : string) (w v : World) :
  action = "created" \/ action = "modified" ->
  fs v = fs w -> cwd v = cwd w ->
  fs (final_world (sync_action config action file_path dest_path remote v) v)
  = fs (final_world (sync_action config action file_path dest_path remote w) w).
Proof.
  intros Ha Hf Hc. unfold sync_action.
  replace (String.eqb action "created" || String.eqb action "modified") with true
    by (destruct Ha as [-> | ->]; reflexivity).
  unfold mbind, M_bind. rewrite (os_makedirs_ext _ w v Hf Hc).
  pose proof (os_makedirs_cwd (posixpath.dirname remote) w) as Hcw.
  destruct (os_makedirs (posixpath.dirname remote) w) as [[] wa|e wa|];
    cbn [final_world] in *; [|reflexivity|exact Hf].
  rewrite (shutil_copy2_ext _ _ wa (set_fs (fs wa) v) eq_refl) by (cbn; congruence).
  destruct (shutil_copy2 file_path remote wa) as [d wb|e wb|]; cbn; try reflexivity.
  exact Hf.
Qed.

Lemma created_action_again (config : Config) (action file_path : string)
    (dest_path : option string) (remote : string) (w : World) :
  action = "created" \/ action = "modified" ->
  let w' := final_world (sync_action config action file_path dest_path remote w) w in
  fs (final_world (sync_action config action file_path dest_path remote w') w') = fs w'.
Proof.
  intros Ha. cbv zeta.
  assert (forall v,
            sync_action config action file_path dest_path remote v
            = (os_makedirs (posixpath.dirname remote);;
               shutil_copy2 file_path remote;;
               logger INFO ("Synced " +:+ action +:+ " file: " +:+ file_path
                            +:+ " -> " +:+ remote) None) v) as Hact.
  { intros v. unfold sync_action.
    now replace (String.eqb action "created" || String.eqb action "modified") with true
      by (destruct Ha as [-> | ->]; reflexivity). }
  pose proof (os_makedirs_again (posixpath.dirname remote) w) as Hmk.
  set (w' := final_world _ w).
  assert (w' = final_world
                 ((os_makedirs (posixpath.dirname remote);;
                   shutil_copy2 file_path remote;;
                   logger INFO ("Synced " +:+ action +:+ " file: " +:+ file_path
                                +:+ " -> " +:+ remote) None) w) w) as Hw'
    by (unfold w'; now rewrite Hact).
  clearbody w'. unfold mbind, M_bind in Hw'.
  destruct (os_makedirs (posixpath.dirname remote) w) as [[] wa|e wa|] eqn:Hw;
    cbn [final_world] in Hw'.
  - destruct (shutil_copy2 file_path remote wa) as [d wb|e wb|] eqn:Hcp;
      cbn [final_world] in Hw'.
    + unfold logger, modify in Hw'. cbn [final_world] in Hw'. subst w'.
      rewrite (created_action_ext config action file_path dest_path remote wb _ Ha)
        by reflexivity.
      rewrite (Hact wb). unfold mbind, M_bind.
      rewrite (os_makedirs_after_copy _ _ _ _ _ _ Hmk Hcp).
      now rewrite (shutil_copy2_again _ _ _ _ _ Hcp).
    + subst w'. pose proof (shutil_copy2_raised _ _ _ _ _ Hcp) as ->.
      rewrite (Hact wa). unfold mbind, M_bind. now rewrite Hmk, Hcp.
    + subst w'. rewrite (Hact w). unfold mbind, M_bind. now rewrite Hw, Hcp.
  - subst w'. rewrite (Hact wa). unfold mbind, M_bind. now rewrite Hmk.
  - subst w'. rewrite (Hact w). unfold mbind, M_bind. now rewrite Hw.
Qed.

Lemma dest_or_remote_ext (config : Config) (file_path : string)
    (dest_path : option string) (r : option string) (w v : World) :
  cwd v = cwd w ->
  dest_or_remote config file_path dest_path w = Done r w ->
  dest_or_remote config file_path dest_path v = Done r v.
Proof.
  intros Hc. unfold dest_or_remote.
  assert ((w0 ← get; lift_result (_get_remote_path (cwd w0) config file_path)) w = Done r w ->
          (w0 ← get; lift_result (_get_remote_path (cwd w0) config file_path)) v = Done r v)
    as H.
  { munfold. rewrite Hc.
    destruct (_get_remote_path (cwd w) config file_path) as [a|e]; cbn;
      [now intros [= <-] | discriminate]. }
  destruct dest_path as [d|]; [|exact H].
  destruct (Str.truthy d); [|exact H]. unfold mret, M_ret. now intros [= <-].
Qed.

Lemma try_logger_fs (m : M unit) (l : level) (msg : string) (w : World) :
  fs (final_world
        (try_except m (fun e => logger l msg (Some e)) w) w)
  = fs (final_world (m w) w).
Proof. unfold try_except. now destruct (m w). Qed.

End Twice.

(** X17.  A Created or Modified event is idempotent on the tree: for
    every path and destination, handling the same event again right
    away leaves the tree exactly as the first handling left it, whether
    the copy went through or failed. *)
Theorem sync_file_created_idempotent (config : Config) (action file_path : string)
    (dest_path : option string) (w : World) :
  action = "created" \/ action = "modified" ->
  let w1 := final_world (sync_file config action file_path dest_path w) w in
  fs (final_world (sync_file config action file_path dest_path w1) w1) = fs w1.
Proof.
  intros Ha. cbv zeta.
  set (w1 := final_world (sync_file config action file_path dest_path w) w).
  assert (w1 = final_world (sync_file config action file_path dest_path w) w) as Hw1
    by reflexivity.
  clearbody w1. unfold sync_file in *.
  destruct (negb (_should_sync_file config file_path)); [reflexivity|].
  unfold mbind, M_bind in *.
  destruct (dest_or_remote_inv config file_path dest_path w) as [[r Hr] | [e Hr]];
    rewrite Hr in Hw1; cbn [final_world] in Hw1.
  2:{ subst w1. now rewrite Hr. }
  destruct (truthy_opt r) as [remote|] eqn:Ht.
  2:{ assert (cwd w1 = cwd w) as Hc by (now subst w1).
      now rewrite (dest_or_remote_ext _ _ _ r w w1 Hc Hr), Ht. }
  set (wa := final_world (sync_action config action file_path dest_path remote w) w).
  assert (cwd wa = cwd w) as Hcwd
    by (exact (proj1 (copied_into_action config action file_path dest_path remote w Ha))).
  pose proof (created_action_again config action file_path dest_path remote w Ha) as Hag.
  cbv zeta in Hag. fold wa in Hag.
  assert (fs w1 = fs wa /\ cwd w1 = cwd wa) as [Hf1 Hc1].
  { subst w1. unfold wa. rewrite try_logger_fs. split; [reflexivity|].
    unfold try_except.
    now destruct (sync_action config action file_path dest_path remote w) as [[] wb|e wb|]. }
  rewrite (dest_or_remote_ext _ _ _ r w w1 (eq_trans Hc1 Hcwd) Hr), Ht.
  rewrite try_logger_fs.
  rewrite (created_action_ext config action file_path dest_path remote wa w1 Ha Hf1 Hc1).
  now rewrite Hag.
Qed.

Lemma sync_file_created_idempotent_witness :
  let w1 := final_world (sync_file cfg_example "created" "/data/proj/b.txt" None w_new) w_new in
  fs (final_world (sync_file cfg_example "created" "/data/proj/b.txt" None w1) w1) = fs w1.
Proof.
  apply (sync_file_created_idempotent cfg_example "created" "/data/proj/b.txt" None w_new).
  left. reflexivity.
Defined.

Lemma deleted_action_fs (config : Config) (file_path : string) (dest_path : option string)
    (remote : string) (w : World) :
  fs (final_world (sync_action config "deleted" file_path dest_path remote w) w)
  = match lookup_path w remote with
    | Some (File _ _ _) => delete (resolve w remote) (fs w)
    | _ => fs w
    end.
Proof.
  unfold sync_action. cbn [String.eqb Ascii.eqb Bool.eqb orb]. munfold.
  unfold os_path_exists, os_remove.
  destruct (lookup_path w remote) as [[data mt md|]|] eqn:Hl; cbn beta iota;
    rewrite ?Hl; reflexivity.
Qed.

Lemma deleted_fs_again (remote : string) (w v : World) :
  cwd v = cwd w ->
  fs v = match lookup_path w remote with
         | Some (File _ _ _) => delete (resolve w remote) (fs w)
         | _ => fs w
         end ->
  match lookup_path v remote with
  | Some (File _ _ _) => delete (resolve v remote) (fs v)
  | _ => fs v
  end = fs v.
Proof.
  intros Hc Hf. unfold lookup_path, resolve in *. rewrite Hc.
  destruct (posixpath.abs_comps (cwd w) remote) as [|c k] eqn:Hk; [reflexivity|].
  cbn [node_at] in *.
  destruct (fs w !! (c :: k)) as [[data mt md|]|] eqn:Hl.
  - rewrite Hf, lookup_delete_eq. reflexivity.
  - now rewrite Hf, Hl.
  - now rewrite Hf, Hl.
Qed.

(** X18.  A Deleted event is idempotent on the tree: for every path and
    destination, handling the same event again right away changes
    nothing in the tree, whether the first handling removed a file,
    found none or failed on a directory. *)
Theorem sync_file_deleted_idempotent (config : Config) (file_path : string)
    (dest_path : option string) (w : World) :
  let w1 := final_world (sync_file config "deleted" file_path dest_path w) w in
  fs (final_world (sync_file config "deleted" file_path dest_path w1) w1) = fs w1.
Proof.
  cbv zeta.
  set (w1 := final_world (sync_file config "deleted" file_path dest_path w) w).
  assert (w1 = final_world (sync_file config "deleted" file_path dest_path w) w) as Hw1
    by reflexivity.
  clearbody w1. unfold sync_file in *.
  destruct (negb (_should_sync_file config file_path)); [reflexivity|].
  unfold mbind, M_bind in *.
  destruct (dest_or_remote_inv config file_path dest_path w) as [[r Hr] | [e Hr]];
    rewrite Hr in Hw1; cbn [final_world] in Hw1.
  2:{ subst w1. now rewrite Hr. }
  destruct (truthy_opt r) as [remote|] eqn:Ht.
  2:{ assert (cwd w1 = cwd w) as Hc by (now subst w1).
      now rewrite (dest_or_remote_ext _ _ _ r w w1 Hc Hr), Ht. }
  assert (cwd w1 = cwd w) as Hc.
  { subst w1. unfold try_except.
    pose proof (same_store_sync_action config "deleted" file_path dest_path remote w) as H.
    destruct (sync_action config "deleted" file_path dest_path remote w) as [[] wb|e wb|];
      cbn; [apply H | apply H | reflexivity]. }
  assert (fs w1 = match lookup_path w remote with
                  | Some (File _ _ _) => delete (resolve w remote) (fs w)
                  | _ => fs w
                  end) as Hf.
  { subst w1. rewrite try_logger_fs. apply deleted_action_fs. }
  rewrite (dest_or_remote_ext _ _ _ r w w1 Hc Hr), Ht.
  rewrite try_logger_fs, deleted_action_fs.
  exact (deleted_fs_again remote w w1 Hc Hf).
Qed.

(** ** The plan, step by step *)

Section PlanShape.

Lemma dirname_slash_truthy (a b : string) :
  Str.truthy (posixpath.dirname (a +:+ String "/" b)) = true.
Proof.
  unfold posixpath.dirname. rewrite split_app_slash.
  pose proof (split_nonempty a) as Ha. pose proof (split_nonempty b) as Hb.
  destruct (Str.split a) as [|x l]; [contradiction|].
  destruct (Str.split b) as [|y m]; [contradiction|].
  assert (exists u v t, (x :: l) ++ y :: m = u :: v :: t) as (u & v & t & ->).
  { destruct l as [|x' l]; cbn; eauto. }
  destruct (Str.all_slashes _) eqn:Hall.
  - apply truthy_app_r. reflexivity.
  - apply truthy_ne. now apply rstrip_not_all.
Qed.

Lemma join_dirname_truthy (a b : string) :
  Str.truthy a = true -> Str.startswith b "/" = false ->
  Str.truthy (posixpath.dirname (posixpath.join a b)) = true.
Proof.
  intros Ha Hb. rewrite join_relative by exact Hb. rewrite Ha. cbn [negb orb].
  destruct (Str.endswith a "/") eqn:He.
  - apply endswith_spec in He. destruct He as [a' ->].
    rewrite app_assoc_s. change ("/" +:+ b) with (String "/" b).
    apply dirname_slash_truthy.
  - change ("/" +:+ b) with (String "/" b). apply dirname_slash_truthy.
Qed.

End PlanShape.

Section MirrorPlan.

Variable config : Config.
Variable w0 : World.
Hypothesis Hwf : wf_fs (fs w0).

Variable d : DirConfig.
Hypothesis Hd : In d (sync_directories config).

Let local_dir := local_path d.
Let remote_dir := posixpath.join (mount_point config) (remote_path d).
Let L := local_root w0 d.
Let R := remote_root config w0 d.

Lemma prefix_snoc_cases {A : Type} (p l : list A) (x : A) :
  p `prefix_of` l ++ [x] -> p = l ++ [x] \/ p `prefix_of` l.
Proof.
  intros [k Hk]. destruct k as [|y k _] using rev_ind.
  - left. now rewrite app_nil_r in Hk.
  - right. rewrite app_assoc in Hk. apply app_inj_tail in Hk as [-> _].
    now apply prefix_app_r.
Qed.

Lemma walked_snoc (sfx : list string) (n : string) :
  walked w0 L sfx -> fs w0 !! (L ++ sfx ++ [n]) = Some Dir -> walked w0 L (sfx ++ [n]).
Proof.
  intros Hw Hn p Hp. apply prefix_snoc_cases in Hp as [-> | Hp]; [|now apply Hw].
  rewrite app_assoc, node_at_snoc, <- app_assoc. exact Hn.
Qed.

Lemma walked_clean (sfx : list string) : walked w0 L sfx -> Forall clean sfx.
Proof.
  intros Hw. destruct sfx as [|x sfx _] using rev_ind; [constructor|].
  specialize (Hw (sfx ++ [x]) (reflexivity _)).
  rewrite app_assoc, node_at_snoc in Hw. apply Hwf in Hw.
  rewrite <- app_assoc in Hw. now apply Forall_app in Hw as [_ Hw].
Qed.

Lemma scandir_is_dir (top : string) (dirs files : list string) :
  scandir w0 top = Some (dirs, files) -> lookup_path w0 top = Some Dir.
Proof.
  unfold scandir. now destruct (lookup_path w0 top) as [[data mt md|]|].
Qed.

Lemma plan_file_entry_mirror (top : string) (sfx : list string) (n : string) :
  resolve w0 top = L ++ sfx -> walked w0 L sfx -> clean n ->
  Forall (mirror_step config w0)
    (plan_file_entry config (cwd w0) local_dir remote_dir top n).
Proof.
  intros Htop Hw Hn. pose proof (walked_clean sfx Hw) as Hsfx.
  destruct (below_paths config w0 d top sfx n Htop Hsfx Hn)
    as (Hlp & Hrel & Hrp & Hbl & Hbr & Ht).
  unfold plan_file_entry.
  destruct (_should_sync_file config (posixpath.join top n)); [|constructor].
  fold local_dir in Hrel. rewrite Hrel. constructor; [|constructor].
  exists d, sfx, n. split; [exact Hd|]. split; [exact Hw|].
  split; [exact Hlp|]. split; [exact Hrp|]. split; [exact Hbl|].
  intros Hr. apply join_dirname_truthy; [exact Hr|].
  apply sepjoin_relative, Forall_app. split; [exact Hsfx | now constructor].
Qed.

Lemma plan_dir_entry_mirror (top : string) (sfx : list string) (n : string) :
  resolve w0 top = L ++ sfx -> walked w0 L sfx -> clean n ->
  fs w0 !! (L ++ sfx ++ [n]) = Some Dir ->
  Forall (mirror_step config w0) (plan_dir_entry (cwd w0) local_dir remote_dir top n).
Proof.
  intros Htop Hw Hn Hdir. pose proof (walked_clean sfx Hw) as Hsfx.
  destruct (below_paths config w0 d top sfx n Htop Hsfx Hn) as (_ & Hrel & Hrp & _).
  unfold plan_dir_entry. fold local_dir in Hrel. rewrite Hrel. constructor; [|constructor].
  exists d, (sfx ++ [n]). split; [exact Hd|]. split; [exact Hrp|].
  intros _. now apply walked_snoc.
Qed.

Lemma plan_walk_mirror (fuel : nat) (top : string) (sfx : list string) :
  resolve w0 top = L ++ sfx ->
  (lookup_path w0 top = Some Dir -> walked w0 L sfx) ->
  Forall (mirror_step config w0) (plan_walk fuel config w0 local_dir remote_dir top).
Proof.
  revert top sfx. induction fuel as [|fuel IH]; intros top sfx Htop Hw.
  - repeat constructor.
  - cbn [plan_walk]. destruct (scandir w0 top) as [[dirs files]|] eqn:Hsc; [|constructor].
    specialize (Hw (scandir_is_dir _ _ _ Hsc)).
    pose proof (walked_clean sfx Hw) as Hsfx.
    apply Forall_app. split.
    + unfold plan_body. apply Forall_app. split.
      * apply Forall_concat_map. intros n Hn.
        apply (plan_dir_entry_mirror top sfx n Htop Hw).
        -- apply (scandir_clean w0 Hwf top dirs files n Hsc). now left.
        -- pose proof (scandir_dirs _ _ _ _ _ Hsc Hn) as Hdir.
           now rewrite Htop, <- app_assoc in Hdir.
      * apply Forall_concat_map. intros n Hn.
        apply (plan_file_entry_mirror top sfx n Htop Hw).
        apply (scandir_clean w0 Hwf top dirs files n Hsc). now right.
    + apply Forall_concat_map. intros n Hn.
      assert (clean n) as Hc by (apply (scandir_clean w0 Hwf top dirs files n Hsc); now left).
      destruct (below_paths config w0 d top sfx n Htop Hsfx Hc) as (Hlp & _).
      apply (IH _ (sfx ++ [n])); [exact Hlp|].
      intros _. apply walked_snoc; [exact Hw|].
      pose proof (scandir_dirs _ _ _ _ _ Hsc Hn) as Hdir.
      now rewrite Htop, <- app_assoc in Hdir.
Qed.

Lemma plan_mapping_mirror (fuel : nat) :
  Forall (mirror_step config w0) (plan_mapping fuel config w0 d).
Proof.
  unfold plan_mapping. destruct (os_path_exists w0 (local_path d)); [|repeat constructor].
  unfold plan_sync_directory. constructor; [exact I|]. constructor.
  { exists d, []. split; [exact Hd|]. split; [now rewrite app_nil_r | congruence]. }
  apply (plan_walk_mirror fuel _ []); [now rewrite app_nil_r|].
  intros Hdir p Hp. apply prefix_nil_inv in Hp. subst p. now rewrite app_nil_r.
Qed.

End MirrorPlan.

Lemma plan_full_sync_mirror (config : Config) (w0 : World) (fuel : nat) :
  wf_fs (fs w0) -> Forall (mirror_step config w0) (plan_full_sync fuel config w0).
Proof.
  intros Hwf. unfold plan_full_sync. constructor; [exact I|].
  apply Forall_app. split; [|repeat constructor].
  apply Forall_concat_map. intros d Hd. now apply plan_mapping_mirror.
Qed.

(** ** Where the plan makes a directory and where it copies a file *)

Section PlanHas.

Variable config : Config.
Variable w0 : World.
Hypothesis Hwf : wf_fs (fs w0).

Variable d : DirConfig.
Hypothesis Hd : In d (sync_directories config).

Let local_dir := local_path d.
Let remote_dir := posixpath.join (mount_point config) (remote_path d).
Let L := local_root w0 d.
Let R := remote_root config w0 d.

Lemma entries_complete (f : gmap (list string) node) (K : list string) (n : string)
    (nd : node) :
  f !! (K ++ [n]) = Some nd -> In (n, nd) (entries f K).
Proof.
  intros Hk. unfold entries. apply in_map_iff. exists (K ++ [n], nd). split.
  - cbn [fst snd]. now rewrite last_last.
  - apply list_elem_of_In, elem_of_map_to_list, map_lookup_filter_Some.
    split; [exact Hk|]. unfold is_child. cbn [fst]. now rewrite last_last.
Qed.

Lemma scandir_has (top n : string) (nd : node) :
  lookup_path w0 top = Some Dir -> fs w0 !! (resolve w0 top ++ [n]) = Some nd ->
  exists dirs files,
    scandir w0 top = Some (dirs, files)
    /\ (if is_dir nd then In n dirs else In n files).
Proof.
  intros Htop Hn. unfold scandir. rewrite Htop. eexists _, _. split; [reflexivity|].
  apply entries_complete in Hn.
  destruct (is_dir nd) eqn:Hk; apply in_map_iff; exists (n, nd);
    (split; [reflexivity|]); apply filter_In; (split; [exact Hn|]); cbn [snd];
    now rewrite Hk.
Qed.

Lemma should_sync_name (top n : string) :
  clean n -> _should_sync_file config (posixpath.join top n) = _should_sync_file config n.
Proof.
  intros Hn. unfold _should_sync_file.
  now rewrite basename_join, !(basename_clean_name n Hn).
Qed.

(** The walk from [top], which lies [sfx] below the local root, handles
    every entry of the directory [rest] further down, or runs out of
    fuel on its way. *)
Lemma walk_has (rest : list string) (fuel : nat) (top : string) (sfx : list string) :
  resolve w0 top = L ++ sfx -> walked w0 L (sfx ++ rest) ->
  let plan := plan_walk fuel config w0 local_dir remote_dir top in
  In SFuel plan
  \/ ((forall m, fs w0 !! (L ++ sfx ++ rest ++ [m]) = Some Dir ->
         exists remote,
           In (SMkdir remote) plan /\ resolve w0 remote = R ++ sfx ++ rest ++ [m])
      /\ (forall n data mt md,
            fs w0 !! (L ++ sfx ++ rest ++ [n]) = Some (File data mt md) ->
            _should_sync_file config n = true ->
            exists lp rp,
              In (SCreated lp rp) plan
              /\ resolve w0 lp = L ++ sfx ++ rest ++ [n]
              /\ resolve w0 rp = R ++ sfx ++ rest ++ [n])).
Proof.
  revert fuel top sfx. induction rest as [|r rest IH]; intros fuel top sfx Htop Hw plan.
  - destruct fuel as [|fuel]; [left; now left|]. right.
    rewrite app_nil_r in Hw. pose proof (walked_clean w0 Hwf d sfx Hw) as Hsfx.
    assert (lookup_path w0 top = Some Dir) as Hdir.
    { unfold lookup_path. rewrite Htop. apply Hw. reflexivity. }
    split.
    + intros m Hm. cbn [app] in Hm.
      assert (clean m) as Hc by (rewrite app_assoc in Hm; exact (wf_fs_name _ _ _ _ Hwf Hm)).
      destruct (scandir_has top m Dir Hdir) as (dirs & files & Hsc & Hin).
      { now rewrite Htop, <- app_assoc. }
      cbn [is_dir] in Hin.
      destruct (below_paths config w0 d top sfx m Htop Hsfx Hc) as (_ & Hrel & Hrp & _).
      eexists. split; [|exact Hrp].
      unfold plan. cbn [plan_walk]. rewrite Hsc. apply in_or_app. left.
      unfold plan_body. apply in_or_app. left. apply in_concat.
      eexists. split; [apply in_map; exact Hin|].
      unfold plan_dir_entry. fold local_dir in Hrel. rewrite Hrel. now left.
    + intros n data mt md Hn Hs. cbn [app] in Hn.
      assert (clean n) as Hc by (rewrite app_assoc in Hn; exact (wf_fs_name _ _ _ _ Hwf Hn)).
      destruct (scandir_has top n (File data mt md) Hdir) as (dirs & files & Hsc & Hin).
      { rewrite Htop, <- app_assoc. exact Hn. }
      cbn [is_dir] in Hin.
      destruct (below_paths config w0 d top sfx n Htop Hsfx Hc) as (Hlp & Hrel & Hrp & _).
      eexists _, _. split; [|split; [exact Hlp | exact Hrp]].
      unfold plan. cbn [plan_walk]. rewrite Hsc. apply in_or_app. left.
      unfold plan_body. apply in_or_app. right. apply in_concat.
      eexists. split; [apply in_map; exact Hin|].
      unfold plan_file_entry. rewrite (should_sync_name top n Hc), Hs.
      fold local_dir in Hrel. rewrite Hrel. now left.
  - destruct fuel as [|fuel]; [left; now left|].
    assert (walked w0 L sfx) as Hw0.
    { intros p Hp. apply Hw. now apply prefix_app_r. }
    pose proof (walked_clean w0 Hwf d sfx Hw0) as Hsfx.
    assert (lookup_path w0 top = Some Dir) as Hdir.
    { unfold lookup_path. rewrite Htop. apply Hw0. reflexivity. }
    assert (fs w0 !! (L ++ sfx ++ [r]) = Some Dir) as Hr.
    { specialize (Hw (sfx ++ [r])). rewrite app_assoc, node_at_snoc, <- app_assoc in Hw.
      apply Hw. exists rest. now rewrite <- app_assoc. }
    assert (clean r) as Hc by (rewrite app_assoc in Hr; exact (wf_fs_name _ _ _ _ Hwf Hr)).
    destruct (scandir_has top r Dir Hdir) as (dirs & files & Hsc & Hin).
    { now rewrite Htop, <- app_assoc. }
    cbn [is_dir] in Hin.
    destruct (below_paths config w0 d top sfx r Htop Hsfx Hc) as (Hlp & _).
    assert (walked w0 L ((sfx ++ [r]) ++ rest)) as Hw1 by (now rewrite <- app_assoc).
    specialize (IH fuel (posixpath.join top r) (sfx ++ [r]) Hlp Hw1). cbv zeta in IH.
    assert (forall s, In s (plan_walk fuel config w0 local_dir remote_dir
                              (posixpath.join top r)) -> In s plan) as Hsub.
    { intros s Hs. unfold plan. cbn [plan_walk]. rewrite Hsc. apply in_or_app. right.
      apply in_concat. eexists. split; [|exact Hs].
      apply (in_map (fun d0 => plan_walk fuel config w0 local_dir remote_dir
                                 (posixpath.join top d0)) dirs r Hin). }
    destruct IH as [Hf | [Hdirs Hfiles]]; [left; now apply Hsub|]. right. split.
    + intros m Hm. destruct (Hdirs m) as (remote & Hin' & Hres).
      { now rewrite <- !app_assoc. }
      exists remote. split; [now apply Hsub|]. now rewrite <- !app_assoc in Hres.
    + intros n data mt md Hn Hs. destruct (Hfiles n data mt md) as (lp & rp & Hin' & H1 & H2).
      { now rewrite <- !app_assoc. }
      { exact Hs. }
      exists lp, rp. split; [now apply Hsub|]. now rewrite <- !app_assoc in H1, H2.
Qed.

End PlanHas.

Section FullPlanHas.

Variable config : Config.
Variable w0 : World.
Hypothesis Hwf : wf_fs (fs w0).

Variable d : DirConfig.
Hypothesis Hd : In d (sync_directories config).

Let L := local_root w0 d.
Let R := remote_root config w0 d.

Lemma full_plan_has (fuel : nat) (sfx : list string) :
  walked w0 L sfx ->
  let plan := plan_full_sync fuel config w0 in
  In SFuel plan
  \/ (In (SMkdir (posixpath.join (mount_point config) (remote_path d))) plan
      /\ (exists remote, In (SMkdir remote) plan /\ resolve w0 remote = R ++ sfx)
      /\ (forall n data mt md,
            fs w0 !! (L ++ sfx ++ [n]) = Some (File data mt md) ->
            _should_sync_file config n = true ->
            exists lp rp,
              In (SCreated lp rp) plan
              /\ resolve w0 lp = L ++ sfx ++ [n]
              /\ resolve w0 rp = R ++ sfx ++ [n])).
Proof.
  intros Hw plan.
  assert (os_path_exists w0 (local_path d) = true) as Hex.
  { unfold os_path_exists, lookup_path. fold (local_root w0 d). fold L.
    specialize (Hw [] (prefix_nil _)). rewrite app_nil_r in Hw. now rewrite Hw. }
  set (walk := plan_walk fuel config w0 (local_path d)
                 (posixpath.join (mount_point config) (remote_path d)) (local_path d)).
  assert (forall s, s = SMkdir (posixpath.join (mount_point config) (remote_path d))
                    \/ In s walk -> In s plan) as Hsub.
  { intros s Hs. unfold plan, plan_full_sync. right. apply in_or_app. left.
    apply in_concat. exists (plan_mapping fuel config w0 d). split; [now apply in_map|].
    unfold plan_mapping. rewrite Hex. unfold plan_sync_directory. right.
    destruct Hs as [-> | Hs]; [now left | now right]. }
  assert (resolve w0 (local_path d) = L ++ []) as Htop by (now rewrite app_nil_r).
  pose proof (walk_has config w0 Hwf d sfx fuel (local_path d) [] Htop Hw) as Hfiles.
  cbv zeta in Hfiles. fold walk in Hfiles. cbn [app] in Hfiles.
  destruct Hfiles as [Hf | [_ Hfiles]]; [left; apply Hsub; now right|].
  assert (In SFuel plan
          \/ exists remote, In (SMkdir remote) plan /\ resolve w0 remote = R ++ sfx) as Hdir.
  { destruct sfx as [|m sfx _] using rev_ind.
    - right. eexists. split; [apply Hsub; now left|]. now rewrite app_nil_r.
    - assert (walked w0 L ([] ++ sfx)) as Hw'.
      { intros p Hp. apply Hw. now apply prefix_app_r. }
      pose proof (walk_has config w0 Hwf d sfx fuel (local_path d) [] Htop Hw') as Hdirs.
      cbv zeta in Hdirs. fold walk in Hdirs. cbn [app] in Hdirs.
      destruct Hdirs as [Hf | [Hdirs _]]; [left; apply Hsub; now right|]. right.
      destruct (Hdirs m) as (remote & Hin & Hres).
      { specialize (Hw (sfx ++ [m]) (reflexivity _)).
        now rewrite app_assoc, node_at_snoc, <- app_assoc in Hw. }
      exists remote. split; [apply Hsub; now right | exact Hres]. }
  destruct Hdir as [Hf | Hdir]; [now left|]. right.
  split; [apply Hsub; now left|]. split; [exact Hdir|].
  intros n data mt md Hn Hs. destruct (Hfiles n data mt md Hn Hs) as (lp & rp & Hin & H1 & H2).
  exists lp, rp. split; [apply Hsub; now right | now split].
Qed.

End FullPlanHas.

(** ** Runs that are not cut short *)

Section Runs.

Lemma exec_done_no_fuel (config : Config) (plan : list step) (w w' : World) :
  exec config plan w = Done tt w' -> ~ In SFuel plan.
Proof.
  revert w. induction plan as [|s plan IH]; intros w Hrun; [intros []|].
  unfold exec in *. cbn [for_each] in Hrun. unfold mbind, M_bind in Hrun.
  destruct (exec_step config s w) as [[] w1|e w1|] eqn:Hs; try discriminate.
  intros [-> | Hin]; [discriminate Hs | exact (IH w1 Hrun Hin)].
Qed.

Lemma run_fs_split (w0 : World) (p1 p2 : list step) (s : step)
    (f F : gmap (list string) node) :
  run_fs w0 (p1 ++ s :: p2) f = (F, None) ->
  exists f1 f2,
    run_fs w0 p1 f = (f1, None) /\ step_fs w0 s f1 = (f2, None)
    /\ run_fs w0 p2 f2 = (F, None).
Proof.
  revert f. induction p1 as [|t p1 IH]; intros f Hrun.
  - cbn [app run_fs] in *. destruct (step_fs w0 s f) as [f2 [e|]] eqn:Hs; [discriminate|].
    eauto.
  - cbn [app run_fs] in *. destruct (step_fs w0 t f) as [f' [e|]] eqn:Ht; [discriminate|].
    destruct (IH f' Hrun) as (f1 & f2 & H1 & H2 & H3). eauto.
Qed.

Lemma kind_le_dir (f F : gmap (list string) node) (k : list string) :
  kind_le f F -> f !! k = Some Dir -> F !! k = Some Dir.
Proof.
  intros Hle Hk. destruct (Hle k Dir Hk) as (n & Hn & Hd). now destruct n.
Qed.

Lemma kind_le_not_file (f F : gmap (list string) node) (k : list string)
    (data : string) (mt md : Z) :
  kind_le f F -> F !! k = Some Dir -> f !! k <> Some (File data mt md).
Proof.
  intros Hle HF Hk. destruct (Hle k _ Hk) as (n & Hn & Hd). rewrite HF in Hn.
  injection Hn as <-. discriminate Hd.
Qed.

(** Directories made without an error: every one on the way is there. *)
Lemma makedirs_from_all_dirs (base rest : list string) (f : gmap (list string) node)
    (p : list string) :
  (makedirs_from base rest f).2 = None -> p `prefix_of` rest -> p <> [] ->
  (makedirs_from base rest f).1 !! (base ++ p) = Some Dir.
Proof.
  revert base f p. induction rest as [|c rest IH]; intros base f p Hok Hp Hne.
  - apply prefix_nil_inv in Hp. contradiction.
  - destruct p as [|x p]; [contradiction|].
    apply prefix_cons_inv_1 in Hp as Hx. apply prefix_cons_inv_2 in Hp. subst x.
    cbn [makedirs_from] in *.
    assert (forall g, g !! (base ++ [c]) = Some Dir ->
              (makedirs_from (base ++ [c]) rest g).2 = None ->
              (makedirs_from (base ++ [c]) rest g).1 !! (base ++ c :: p) = Some Dir) as Hstep.
    { intros g Hg Hok'. destruct p as [|y p].
      - now apply makedirs_from_mono.
      - replace (base ++ c :: y :: p) with ((base ++ [c]) ++ y :: p)
          by (now rewrite <- app_assoc).
        apply IH; [exact Hok' | exact Hp | discriminate]. }
    destruct (f !! (base ++ [c])) as [[data mt md|]|] eqn:Hk.
    + discriminate Hok.
    + now apply Hstep.
    + apply Hstep; [apply lookup_insert_eq | exact Hok].
Qed.

(** No regular file on the way: the directories are made. *)
Lemma makedirs_from_ok (base rest : list string) (f : gmap (list string) node) :
  (forall p data mt md, p `prefix_of` rest -> p <> [] ->
     f !! (base ++ p) <> Some (File data mt md)) ->
  (makedirs_from base rest f).2 = None.
Proof.
  revert base f. induction rest as [|c rest IH]; intros base f Hno; [reflexivity|].
  cbn [makedirs_from].
  assert (forall p, p `prefix_of` rest -> [c] ++ p `prefix_of` c :: rest) as Hpre.
  { intros p Hp. now apply prefix_cons. }
  destruct (f !! (base ++ [c])) as [[data mt md|]|] eqn:Hk.
  - destruct (Hno [c] data mt md); [apply prefix_cons, prefix_nil | discriminate | exact Hk].
  - apply IH. intros p data mt md Hp Hne. rewrite <- app_assoc.
    apply Hno; [now apply Hpre | discriminate].
  - apply IH. intros p data mt md Hp Hne. rewrite <- app_assoc.
    rewrite lookup_insert_ne.
    + apply Hno; [now apply Hpre | discriminate].
    + intros E. apply (f_equal length) in E. rewrite !length_app in E.
      cbn in E. destruct p; [contradiction | cbn in E; lia].
Qed.

End Runs.

(** ** What a finished run has made *)

Section Made.

Variable w0 : World.

Lemma run_made_dirs (plan : list step) (f F : gmap (list string) node) (remote : string) :
  run_fs w0 plan f = (F, None) -> In (SMkdir remote) plan ->
  Str.truthy remote = true
  /\ forall p, p `prefix_of` resolve w0 remote -> p <> [] -> F !! p = Some Dir.
Proof.
  intros Hrun Hin. apply in_split in Hin as (p1 & p2 & ->).
  apply run_fs_split in Hrun as (f1 & f2 & _ & Hs & H2).
  cbn [step_fs] in Hs. unfold mkdir_fs in Hs.
  destruct (Str.truthy remote); [|discriminate]. split; [reflexivity|].
  intros p Hp Hne.
  pose proof (makedirs_from_all_dirs [] (resolve w0 remote) f1 p) as Hd.
  rewrite Hs in Hd. cbn [fst snd app] in Hd. specialize (Hd eq_refl Hp Hne).
  pose proof (run_fs_kind_le w0 p2 f2) as Hle. rewrite H2 in Hle.
  exact (kind_le_dir _ _ _ Hle Hd).
Qed.

End Made.

Section Stable.

Variable config : Config.
Variable w0 : World.
Hypothesis Hsep : separated config w0.
Hypothesis Hdist : distinct_targets config w0.

Variable d : DirConfig.
Hypothesis Hd : In d (sync_directories config).

Let L := local_root w0 d.
Let R := remote_root config w0 d.

Variable pre : list string.
Variable n : string.
Variable c : node.
Hypothesis Hwalked : walked w0 L pre.
Hypothesis Hc : fs w0 !! (L ++ pre ++ [n]) = Some c.

Lemma same_mapping (d' : DirConfig) (x y : list string) :
  In d' (sync_directories config) ->
  remote_root config w0 d' ++ x = R ++ y ->
  local_root w0 d' = L /\ x = y.
Proof.
  intros Hd' Heq.
  assert (remote_root config w0 d' `prefix_of` R ++ y) as H1
    by (rewrite <- Heq; now apply prefix_app_r).
  assert (R `prefix_of` R ++ y) as H2 by (now apply prefix_app_r).
  assert (local_root w0 d' = L /\ remote_root config w0 d' = R) as [HL HR].
  { destruct (prefix_weak_total _ _ _ H1 H2) as [Hp | Hp].
    - exact (Hdist d' d Hd' Hd Hp).
    - destruct (Hdist d d' Hd Hd' Hp) as [Ha Hb]. now split. }
  split; [exact HL|]. rewrite HR in Heq. now apply app_inv_head in Heq.
Qed.

(** A later step leaves the copy where it is. *)
Lemma step_stable (s : step) (f : gmap (list string) node) :
  good_step config w0 s -> mirror_step config w0 s ->
  (forall k, local_key config w0 k -> f !! k = fs w0 !! k) ->
  f !! (R ++ pre ++ [n]) = Some c ->
  (step_fs w0 s f).1 !! (R ++ pre ++ [n]) = Some c.
Proof.
  intros Hg Hm Hloc Hk. destruct s as [e|remote|lp rp|e|]; cbn [step_fs fst]; try exact Hk.
  - unfold mkdir_fs. destruct (Str.truthy remote); [|exact Hk].
    now apply makedirs_from_mono.
  - destruct Hm as (d' & sfx' & n' & Hd' & Hw' & Hlp & Hrp & Hb & _).
    destruct Hg as (_ & _ & _ & (data & mt & md & Hsrc) & _).
    rewrite Hlp, Hrp, Hb. unfold created_fs.
    assert (remote_key config w0 (removelast (remote_root config w0 d' ++ sfx' ++ [n'])))
      as Hrk.
    { rewrite app_assoc, removelast_last. exists d'. split; [exact Hd'|].
      now apply prefix_app_r. }
    pose proof (fun k Hkl => mkdir_fs_local config w0 Hsep f (posixpath.dirname rp) _ k Hrk Hkl)
      as Hloc1.
    assert ((mkdir_fs f (posixpath.dirname rp)
               (removelast (remote_root config w0 d' ++ sfx' ++ [n']))).1
            !! (R ++ pre ++ [n]) = Some c) as Hk1.
    { unfold mkdir_fs. destruct (Str.truthy (posixpath.dirname rp)); [|exact Hk].
      now apply makedirs_from_mono. }
    destruct (mkdir_fs f (posixpath.dirname rp) _) as [f1 [e|]]; cbn [fst] in *;
      [exact Hk1|].
    set (T := copy_target f1 (remote_root config w0 d' ++ sfx' ++ [n']) n').
    destruct (decide (T = R ++ pre ++ [n])) as [HT | HT];
      [|now rewrite copy_fs_other by congruence].
    assert (local_root w0 d' ++ sfx' ++ [n'] = L ++ pre ++ [n]) as Hsame.
    { destruct (copy_target_cases f1 (remote_root config w0 d' ++ sfx' ++ [n']) n')
        as [HT' | HT']; fold T in HT'; rewrite HT in HT'.
      - symmetry in HT'. apply same_mapping in HT' as [-> ->]; [reflexivity | exact Hd'].
      - symmetry in HT'. rewrite <- !app_assoc in HT'.
        apply same_mapping in HT' as [HL Hx]; [|exact Hd'].
        rewrite !app_assoc in Hx. apply app_inj_tail in Hx as [Hx _].
        rewrite <- Hx in Hwalked. specialize (Hwalked _ (reflexivity _)).
        rewrite <- HL, app_assoc, node_at_snoc, <- app_assoc, <- Hlp, Hsrc in Hwalked.
        discriminate Hwalked. }
    rewrite Hsame. unfold copy_fs.
    assert (node_at f1 (L ++ pre ++ [n]) = Some c) as ->.
    { rewrite !app_assoc, node_at_snoc, <- !app_assoc. rewrite Hloc1, Hloc, Hc; [reflexivity| |];
        exists d; (split; [exact Hd | now apply prefix_app_r]). }
    destruct c as [data' mt' md'|]; [|exact Hk1].
    destruct (check_writable f1 T); [exact Hk1|]. cbn [fst]. rewrite HT.
    apply lookup_insert_eq.
Qed.

Lemma run_stable (plan : list step) (f : gmap (list string) node) :
  Forall (good_step config w0) plan -> Forall (mirror_step config w0) plan ->
  (forall k, local_key config w0 k -> f !! k = fs w0 !! k) ->
  f !! (R ++ pre ++ [n]) = Some c ->
  (run_fs w0 plan f).1 !! (R ++ pre ++ [n]) = Some c.
Proof.
  revert f. induction plan as [|s plan IH]; intros f Hg Hm Hloc Hk; [exact Hk|].
  inversion Hg as [|? ? Hgs Hgr]; subst. inversion Hm as [|? ? Hms Hmr]; subst.
  cbn [run_fs].
  pose proof (step_stable s f Hgs Hms Hloc Hk) as Hk1.
  assert (forall k, local_key config w0 k -> (step_fs w0 s f).1 !! k = fs w0 !! k) as Hloc1.
  { intros k Hkl. rewrite (step_fs_local config w0 Hsep s f k Hgs Hkl). now apply Hloc. }
  destruct (step_fs w0 s f) as [f1 [e|]]; cbn [fst] in *; [exact Hk1|].
  now apply IH.
Qed.

End Stable.

Section NotDir.

Variable config : Config.
Variable w0 : World.
Hypothesis Hdist : distinct_targets config w0.

Variable d : DirConfig.
Hypothesis Hd : In d (sync_directories config).

Let L := local_root w0 d.
Let R := remote_root config w0 d.

Variable pre : list string.
Variable n data : string.
Variable mt md : Z.
Hypothesis Hfile : fs w0 !! (L ++ pre ++ [n]) = Some (File data mt md).

(** The counterpart of a local file is not on the way to the
    counterpart of a walked local directory. *)
Lemma not_dir_prefix (d' : DirConfig) (sfx' : list string) :
  In d' (sync_directories config) ->
  (sfx' <> [] -> walked w0 (local_root w0 d') sfx') ->
  ~ (R ++ pre ++ [n]) `prefix_of` (remote_root config w0 d' ++ sfx').
Proof.
  intros Hd' Hw' [k Hk]. rewrite <- !app_assoc in Hk.
  apply (same_mapping config w0 Hdist d Hd) in Hk as [HL Hx]; [|exact Hd'].
  assert (sfx' <> []) as Hne by (rewrite Hx; now destruct pre).
  specialize (Hw' Hne (pre ++ [n])). rewrite HL in Hw'. fold L in Hw'.
  rewrite app_assoc, node_at_snoc, <- app_assoc, Hfile in Hw'.
  assert (Some (File data mt md) = Some Dir) as E; [|discriminate E].
  apply Hw'. exists k. now rewrite Hx, <- app_assoc.
Qed.

Lemma step_not_dir (s : step) (f : gmap (list string) node) :
  mirror_step config w0 s ->
  f !! (R ++ pre ++ [n]) <> Some Dir ->
  (step_fs w0 s f).1 !! (R ++ pre ++ [n]) <> Some Dir.
Proof.
  intros Hm Hk. destruct s as [e|remote|lp rp|e|]; cbn [step_fs fst]; try exact Hk.
  - destruct Hm as (d' & sfx' & Hd' & Hres & Hw').
    unfold mkdir_fs. destruct (Str.truthy remote); [|exact Hk].
    rewrite makedirs_from_other; [exact Hk|]. cbn [app]. rewrite Hres.
    now apply not_dir_prefix.
  - destruct Hm as (d' & sfx' & n' & Hd' & Hw' & Hlp & Hrp & Hb & _).
    rewrite Hrp. unfold created_fs.
    assert ((mkdir_fs f (posixpath.dirname rp)
               (removelast (remote_root config w0 d' ++ sfx' ++ [n']))).1
            !! (R ++ pre ++ [n]) <> Some Dir) as Hk1.
    { unfold mkdir_fs. destruct (Str.truthy (posixpath.dirname rp)); [|exact Hk].
      rewrite makedirs_from_other; [exact Hk|]. cbn [app].
      rewrite (app_assoc (remote_root config w0 d') sfx' [n']), removelast_last.
      now apply not_dir_prefix. }
    destruct (mkdir_fs f (posixpath.dirname rp) _) as [f1 [e|]]; cbn [fst] in *;
      [exact Hk1|].
    unfold copy_fs. destruct (node_at f1 (resolve w0 lp)) as [[data' mt' md'|]|];
      try exact Hk1.
    destruct (check_writable f1 _); [exact Hk1|]. cbn [fst].
    destruct (decide (copy_target f1 (remote_root config w0 d' ++ sfx' ++ [n'])
                        (posixpath.basename lp) = R ++ pre ++ [n])) as [-> | Hne].
    + rewrite lookup_insert_eq. discriminate.
    + now rewrite lookup_insert_ne.
Qed.

Lemma run_not_dir (plan : list step) (f : gmap (list string) node) :
  Forall (mirror_step config w0) plan ->
  f !! (R ++ pre ++ [n]) <> Some Dir ->
  (run_fs w0 plan f).1 !! (R ++ pre ++ [n]) <> Some Dir.
Proof.
  revert f. induction plan as [|s plan IH]; intros f Hm Hk; [exact Hk|].
  apply Forall_cons in Hm as [Hms Hmr]. cbn [run_fs].
  pose proof (step_not_dir s f Hms Hk) as Hk1.
  destruct (step_fs w0 s f) as [f1 [e|]]; cbn [fst] in *; [exact Hk1 | now apply IH].
Qed.

End NotDir.

Section Mirror.

Variable config : Config.
Variable w0 : World.
Hypothesis Hsep : separated config w0.
Hypothesis Hwf : wf_fs (fs w0).

Variable fuel : nat.
Variable F : gmap (list string) node.
Hypothesis Hrun : run_fs w0 (plan_full_sync fuel config w0) (fs w0) = (F, None).
Hypothesis Hnf : ~ In SFuel (plan_full_sync fuel config w0).

Variable d : DirConfig.
Hypothesis Hd : In d (sync_directories config).

Let L := local_root w0 d.
Let R := remote_root config w0 d.

Lemma run_mirrors_dirs (sfx p : list string) :
  walked w0 L sfx -> p `prefix_of` R ++ sfx -> p <> [] -> F !! p = Some Dir.
Proof.
  intros Hw Hp Hne.
  destruct (full_plan_has config w0 Hwf d Hd fuel sfx Hw)
    as [Hf | (_ & (remote & Hin & Hres) & _)]; [contradiction|].
  destruct (run_made_dirs w0 _ _ _ remote Hrun Hin) as [_ Hdirs].
  apply Hdirs; [now rewrite Hres | exact Hne].
Qed.

Lemma run_mirrors_dir (sfx : list string) :
  walked w0 L sfx -> node_at F (R ++ sfx) = Some Dir.
Proof.
  intros Hw. destruct (R ++ sfx) as [|x k] eqn:E; [reflexivity|].
  cbn [node_at]. rewrite <- E. apply (run_mirrors_dirs sfx); [exact Hw | reflexivity|].
  now rewrite E.
Qed.

Hypothesis Hdist : distinct_targets config w0.

Lemma run_mirrors_file (pre : list string) (n data : string) (mt md : Z) :
  walked w0 L pre ->
  fs w0 !! (L ++ pre ++ [n]) = Some (File data mt md) ->
  _should_sync_file config n = true ->
  fs w0 !! (R ++ pre ++ [n]) <> Some Dir ->
  F !! (R ++ pre ++ [n]) = Some (File data mt md).
Proof.
  intros Hw Hfile Hs Hnd.
  pose proof (plan_full_sync_good config w0 fuel Hsep Hwf) as Hgood.
  pose proof (plan_full_sync_mirror config w0 fuel Hwf) as Hmir.
  destruct (full_plan_has config w0 Hwf d Hd fuel pre Hw)
    as [Hf | (_ & _ & Hfiles)]; [contradiction|].
  destruct (Hfiles n data mt md Hfile Hs) as (lp & rp & Hin & Hlp & Hrp).
  fold L in Hlp. fold R in Hrp.
  (* the shape of the step *)
  assert (posixpath.basename lp = n
          /\ Str.truthy (posixpath.dirname rp) = true) as [Hb Ht].
  { rewrite Forall_forall in Hmir. apply list_elem_of_In in Hin as Hin'.
    destruct (Hmir _ Hin') as (d1 & sfx1 & n1 & Hd1 & Hw1 & Hlp1 & _ & Hb1 & Ht1).
    rewrite Hlp, !app_assoc in Hlp1. apply app_inj_tail in Hlp1 as [_ Hn1]. subst n1.
    split; [exact Hb1|]. apply Ht1.
    destruct (full_plan_has config w0 Hwf d1 Hd1 fuel sfx1 Hw1)
      as [Hf | (Hroot & _)]; [contradiction|].
    exact (proj1 (run_made_dirs w0 _ _ _ _ Hrun Hroot)). }
  (* the run up to the step, the step, the rest of the run *)
  pose proof (fun p => run_mirrors_dirs pre p Hw) as Hdirs.
  apply in_split in Hin as (p1 & p2 & Hplan).
  pose proof Hrun as Hrun'. rewrite Hplan in Hrun', Hgood, Hmir.
  apply run_fs_split in Hrun' as (f1 & f2 & H1 & Hstep & H2).
  apply Forall_app in Hgood as [Hg1 Hg2]. apply Forall_app in Hmir as [Hm1 Hm2].
  apply Forall_cons in Hg2 as [Hgs Hg2']. apply Forall_cons in Hm2 as [_ Hm2'].
  assert (forall k, local_key config w0 k -> f1 !! k = fs w0 !! k) as Hloc1.
  { intros k Hk. pose proof (run_fs_local config w0 Hsep p1 (fs w0) k Hg1 Hk) as H.
    now rewrite H1 in H. }
  assert (forall k, local_key config w0 k -> f2 !! k = fs w0 !! k) as Hloc2.
  { intros k Hk. pose proof (step_fs_local config w0 Hsep _ f1 k Hgs Hk) as H.
    rewrite Hstep in H. cbn [fst] in H. rewrite H. now apply Hloc1. }
  assert (kind_le f2 F) as Hle2.
  { pose proof (run_fs_kind_le w0 p2 f2) as H. now rewrite H2 in H. }
  assert (kind_le f1 F) as Hle1.
  { apply kind_le_trans with f2; [|exact Hle2].
    pose proof (step_fs_kind_le w0 (SCreated lp rp) f1) as H. now rewrite Hstep in H. }
  assert (local_key config w0 (L ++ pre ++ [n])) as Hlk.
  { exists d. split; [exact Hd | now apply prefix_app_r]. }
  (* the step itself *)
  cbn [step_fs] in Hstep. injection Hstep as Hf2.
  rewrite Hlp, Hrp, Hb in Hf2. unfold created_fs, mkdir_fs in Hf2. rewrite Ht in Hf2.
  replace (removelast (R ++ pre ++ [n])) with (R ++ pre) in Hf2
    by (now rewrite app_assoc, removelast_last).
  assert ((makedirs_from [] (R ++ pre) f1).2 = None) as Hok.
  { apply makedirs_from_ok. intros p data' mt' md' Hp Hne. cbn [app].
    apply (kind_le_not_file f1 F p data' mt' md' Hle1).
    now apply Hdirs. }
  pose proof (fun p => makedirs_from_all_dirs [] (R ++ pre) f1 p Hok) as Hall.
  pose proof (makedirs_from_other [] (R ++ pre) f1 (L ++ pre ++ [n])) as Hsrc.
  pose proof (makedirs_from_other [] (R ++ pre) f1) as Hother.
  destruct (makedirs_from [] (R ++ pre) f1) as [f1' oe]. cbn [fst snd app] in *. subst oe.
  assert (node_at f1' (R ++ pre) = Some Dir) as Hparent.
  { destruct (R ++ pre) as [|x k] eqn:E; [reflexivity|]. cbn [node_at].
    apply Hall; [reflexivity | discriminate]. }
  assert (f1' !! (L ++ pre ++ [n]) = Some (File data mt md)) as Hsrc'.
  { rewrite Hsrc; [rewrite (Hloc1 _ Hlk); exact Hfile|].
    intros Hp. apply (remote_not_local_up config w0 Hsep (R ++ pre) (L ++ pre ++ [n])).
    - exists d. split; [exact Hd | now apply prefix_app_r].
    - exact Hp.
    - exact Hlk. }
  assert (f1' !! (R ++ pre ++ [n]) <> Some Dir) as Hnd'.
  { rewrite (Hother (R ++ pre ++ [n])).
    - pose proof (run_not_dir config w0 Hdist d Hd pre n data mt md Hfile p1 (fs w0)
                    Hm1 Hnd) as H.
      now rewrite H1 in H.
    - apply (not_dir_prefix config w0 Hdist d Hd pre n data mt md Hfile d pre);
        [exact Hd | intros _; exact Hw]. }
  assert (node_at f1' (R ++ pre ++ [n]) <> Some Dir) as Hnd''
    by (now rewrite (app_assoc R pre [n]), node_at_snoc, <- (app_assoc R pre [n])).
  assert (copy_target f1' (R ++ pre ++ [n]) n = R ++ pre ++ [n]) as HT.
  { unfold copy_target.
    destruct (node_at f1' (R ++ pre ++ [n])) as [[data0 mt0 md0|]|];
      [reflexivity | now destruct Hnd'' | reflexivity]. }
  assert (check_writable f1' (R ++ pre ++ [n]) = None) as Hcw.
  { unfold check_writable.
    replace (removelast (R ++ pre ++ [n])) with (R ++ pre)
      by (now rewrite (app_assoc R pre [n]), removelast_last).
    rewrite Hparent.
    destruct (node_at f1' (R ++ pre ++ [n])) as [[data0 mt0 md0|]|];
      [reflexivity | now destruct Hnd'' | reflexivity]. }
  assert (f2 = <[R ++ pre ++ [n] := File data mt md]> f1') as ->.
  { rewrite <- Hf2, HT. unfold copy_fs.
    rewrite (app_assoc L pre [n]), node_at_snoc, <- (app_assoc L pre [n]), Hsrc', Hcw.
    reflexivity. }
  pose proof (run_stable config w0 Hsep Hdist d Hd pre n (File data mt md) Hw Hfile
                p2 _ Hg2' Hm2' Hloc2 (lookup_insert_eq _ _ _)) as Hst.
  now rewrite H2 in Hst.
Qed.

End Mirror.

Lemma walkedb_spec (w0 : World) (L sfx : list string) :
  walkedb (fs w0) L sfx = true -> walked w0 L sfx.
Proof.
  revert L. induction sfx as [|x sfx IH]; intros L H p Hp.
  - apply prefix_nil_inv in Hp. subst p. rewrite app_nil_r. cbn [walkedb] in H.
    now destruct (node_at (fs w0) L) as [[data mt md|]|].
  - cbn [walkedb] in H.
    destruct (node_at (fs w0) L) as [[data mt md|]|] eqn:HL; try discriminate.
    destruct p as [|y p]; [now rewrite app_nil_r|].
    apply prefix_cons_inv_1 in Hp as Hy. apply prefix_cons_inv_2 in Hp. subst y.
    specialize (IH (L ++ [x]) H p Hp). now rewrite <- app_assoc in IH.
Qed.

Lemma full_sync_done_run (config : Config) (w w' : World) (fuel : nat) :
  wf_fs (fs w) -> separated config w ->
  full_sync fuel config w = Done tt w' ->
  run_fs w (plan_full_sync fuel config w) (fs w) = (fs w', None)
  /\ ~ In SFuel (plan_full_sync fuel config w).
Proof.
  intros Hwf Hsep Hrun.
  rewrite (full_sync_is_plan config w w fuel Hsep Hwf (agree_refl config w)) in Hrun.
  split; [|exact (exec_done_no_fuel _ _ _ _ Hrun)].
  pose proof (plan_full_sync_good config w fuel Hsep Hwf) as Hgood.
  destruct (exec_run_fs config w Hsep _ w Hgood eq_refl)
    as [[Hf _] | (w1 & _ & Hfs & He)]; [congruence|].
  rewrite Hrun in He.
  destruct (run_fs w (plan_full_sync fuel config w) (fs w)) as [f [e|]];
    cbn [fst snd] in *; [discriminate|].
  injection He as ->. now rewrite Hfs.
Qed.

(** ** The remote tree mirrors the local trees *)

(** X19.  After a full synchronization that returns, the remote tree
    has the directories of the local trees: on a well-formed tree, when
    the configured local roots and remote targets are normalised
    absolute paths and no local root lies inside a remote target or
    contains one, the remote target of every mapping whose local root is
    a directory is a directory, and so is the remote counterpart of
    every directory the walk reaches below that root.  (A local root
    written with a [..] through a directory that does not exist yet is
    skipped by the run; such roots are left out.) *)
Theorem full_sync_mirrors_dirs (fuel : nat) (config : Config) (w w' : World)
    (d : DirConfig) (sfx : list string) :
  wf_fs (fs w) -> plain_config config -> separated config w ->
  full_sync fuel config w = Done tt w' ->
  In d (sync_directories config) ->
  walked w (local_root w d) sfx ->
  node_at (fs w') (remote_root config w d ++ sfx) = Some Dir.
Proof.
  intros Hwf _ Hsep Hrun Hd Hw.
  destruct (full_sync_done_run config w w' fuel Hwf Hsep Hrun) as [Hfs Hnf].
  exact (run_mirrors_dir config w Hwf fuel (fs w') Hfs Hnf d Hd sfx Hw).
Qed.

Lemma full_sync_mirrors_dirs_witness :
  node_at (fs (final_world (full_sync 3 cfg_example w_tree) w_tree))
    (remote_root cfg_example w_tree
       {| local_path := "/data/proj"; remote_path := "proj";
          exclude_patterns := ["*.log"] |} ++ ["sub"])
  = Some Dir.
Proof.
  apply (full_sync_mirrors_dirs 3 cfg_example w_tree).
  - exact w_tree_wf.
  - exact cfg_example_plain.
  - exact cfg_example_separated.
  - vm_compute. reflexivity.
  - now left.
  - apply walkedb_spec. vm_compute. reflexivity.
Defined.


Lemma cfg_example_distinct : distinct_targets cfg_example w_tree.
Proof. intros d d' [<- | []] [<- | []] _. now split. Qed.


(** ** Where the files of the remote tree come from *)

Section Sound.

Variable config : Config.
Variable w0 : World.
Hypothesis Hsep : separated config w0.
Hypothesis Hwf : wf_fs (fs w0).

Lemma step_sound (s : step) (f : gmap (list string) node) (k : list string)
    (data : string) (mt md : Z) :
  good_step config w0 s -> mirror_step config w0 s ->
  (forall k', local_key config w0 k' -> f !! k' = fs w0 !! k') ->
  (step_fs w0 s f).1 !! k = Some (File data mt md) ->
  f !! k = Some (File data mt md) \/ copied_from_local config w0 k (File data mt md).
Proof.
  intros Hg Hm Hloc Hk. destruct s as [e|remote|lp rp|e|]; cbn [step_fs fst] in Hk;
    try (now left).
  - left. unfold mkdir_fs in Hk. destruct (Str.truthy remote); [|exact Hk].
    apply makedirs_from_new in Hk. destruct Hk as [Hk | [_ Hk]]; [exact Hk | discriminate].
  - destruct Hm as (d' & sfx' & n' & Hd' & Hw' & Hlp & Hrp & Hb & _).
    destruct Hg as (Hs & _ & Hlk & (data' & mt' & md' & Hsrc) & _).
    assert (fs w0 !! (local_root w0 d' ++ sfx' ++ [n']) = Some (File data' mt' md'))
      as Hsrc2 by (now rewrite <- Hlp).
    assert (clean n') as Hc.
    { pose proof Hsrc2 as H. rewrite (app_assoc _ sfx' [n']) in H.
      exact (wf_fs_name _ _ _ _ Hwf H). }
    rewrite Hlp, Hrp, Hb in Hk. unfold created_fs in Hk.
    assert (remote_key config w0 (removelast (remote_root config w0 d' ++ sfx' ++ [n'])))
      as Hrk.
    { rewrite app_assoc, removelast_last. exists d'. split; [exact Hd'|].
      now apply prefix_app_r. }
    pose proof (fun k' Hkl =>
                  mkdir_fs_local config w0 Hsep f (posixpath.dirname rp) _ k' Hrk Hkl)
      as Hloc1.
    assert ((mkdir_fs f (posixpath.dirname rp)
               (removelast (remote_root config w0 d' ++ sfx' ++ [n']))).1
            !! k = Some (File data mt md) ->
            f !! k = Some (File data mt md)) as Hk1.
    { unfold mkdir_fs. destruct (Str.truthy (posixpath.dirname rp)); [|trivial].
      intros H. apply makedirs_from_new in H.
      destruct H as [H | [_ H]]; [exact H | discriminate]. }
    destruct (mkdir_fs f (posixpath.dirname rp) _) as [f1 [e|]]; cbn [fst] in *;
      [left; now apply Hk1|].
    set (T := copy_target f1 (remote_root config w0 d' ++ sfx' ++ [n']) n') in *.
    destruct (decide (T = k)) as [HT | HT];
      [|rewrite copy_fs_other in Hk by congruence; left; now apply Hk1].
    unfold copy_fs in Hk.
    assert (node_at f1 (local_root w0 d' ++ sfx' ++ [n']) = Some (File data' mt' md')) as Hn.
    { rewrite (app_assoc _ sfx' [n']), node_at_snoc, <- (app_assoc _ sfx' [n']).
      rewrite <- Hlp. rewrite Hloc1, Hloc by exact Hlk. exact Hsrc. }
    rewrite Hn in Hk. destruct (check_writable f1 T); [left; now apply Hk1|].
    cbn [fst] in Hk. rewrite HT, lookup_insert_eq in Hk. injection Hk as <- <- <-.
    right. exists d', sfx', n'. split; [exact Hd'|]. split; [exact Hw'|].
    split; [exact Hsrc2|]. split.
    + unfold _should_sync_file in *. rewrite Hb in Hs.
      now rewrite (basename_clean_name n' Hc).
    + rewrite <- HT.
      destruct (copy_target_cases f1 (remote_root config w0 d' ++ sfx' ++ [n']) n')
        as [HT' | HT']; fold T in HT'; rewrite HT'; [now left | right].
      now rewrite <- !app_assoc.
Qed.

Lemma run_sound (plan : list step) (f : gmap (list string) node) (k : list string)
    (data : string) (mt md : Z) :
  Forall (good_step config w0) plan -> Forall (mirror_step config w0) plan ->
  (forall k', local_key config w0 k' -> f !! k' = fs w0 !! k') ->
  (run_fs w0 plan f).1 !! k = Some (File data mt md) ->
  f !! k = Some (File data mt md) \/ copied_from_local config w0 k (File data mt md).
Proof.
  revert f. induction plan as [|s plan IH]; intros f Hg Hm Hloc Hk; [now left|].
  apply Forall_cons in Hg as [Hgs Hgr]. apply Forall_cons in Hm as [Hms Hmr].
  cbn [run_fs] in Hk.
  pose proof (step_sound s f k data mt md Hgs Hms Hloc) as Hstep.
  assert (forall k', local_key config w0 k' -> (step_fs w0 s f).1 !! k' = fs w0 !! k')
    as Hloc1.
  { intros k' Hkl. rewrite (step_fs_local config w0 Hsep s f k' Hgs Hkl). now apply Hloc. }
  destruct (step_fs w0 s f) as [f1 [e|]]; cbn [fst] in *; [now apply Hstep|].
  destruct (IH f1 Hgr Hmr Hloc1 Hk) as [H | H]; [now apply Hstep | now right].
Qed.

End Sound.

(** X21.  Every regular file of the tree after a full synchronization
    was there before, unchanged, or is the copy of a local file: on a
    well-formed tree, when no local root lies inside a remote target or
    contains one, however the run ends, a file that is new or changed
    holds the bytes, time and mode of a file of a walked local directory
    whose name is not excluded, and it sits at the remote counterpart of
    that file (or inside a directory that stood there, under the same
    name).  Excluded files are never copied. *)
Theorem full_sync_copies_from_local (fuel : nat) (config : Config) (w : World)
    (k : list string) (data : string) (mt md : Z) :
  wf_fs (fs w) -> separated config w ->
  fs (final_world (full_sync fuel config w) w) !! k = Some (File data mt md) ->
  fs w !! k = Some (File data mt md)
  \/ copied_from_local config w k (File data mt md).
Proof.
  intros Hwf Hsep Hk.
  rewrite (full_sync_is_plan config w w fuel Hsep Hwf (agree_refl config w)) in Hk.
  pose proof (plan_full_sync_good config w fuel Hsep Hwf) as Hgood.
  pose proof (plan_full_sync_mirror config w fuel Hwf) as Hmir.
  destruct (exec_run_fs config w Hsep _ w Hgood eq_refl)
    as [[Hf _] | (w1 & _ & Hfs & He)].
  - rewrite Hf in Hk. now left.
  - assert (fs (final_world (exec config (plan_full_sync fuel config w) w) w)
            = (run_fs w (plan_full_sync fuel config w) (fs w)).1) as Hfin.
    { rewrite He. now destruct (run_fs w (plan_full_sync fuel config w) (fs w)).2. }
    rewrite Hfin in Hk.
    exact (run_sound config w Hsep Hwf _ (fs w) k data mt md Hgood Hmir
             (fun _ _ => eq_refl) Hk).
Qed.

Lemma full_sync_copies_from_local_witness :
  fs w_tree !! ["mnt"; "remote"; "proj"; "z.txt"] = Some (File "zed" 7 420)
  \/ copied_from_local cfg_example w_tree ["mnt"; "remote"; "proj"; "z.txt"]
       (File "zed" 7 420).
Proof.
  apply (full_sync_copies_from_local 3 cfg_example w_tree).
  - exact w_tree_wf.
  - exact cfg_example_separated.
  - vm_compute. reflexivity.
Defined.

(** ** What a Moved event moves *)

Section Moved.

Lemma shutil_move_file_done (src dst : string) (w w' : World)
    (data : string) (mt md : Z) :
  lookup_path w src = Some (File data mt md) ->
  shutil_move src dst w = Done tt w' ->
  exists kd,
    (kd = resolve w dst
     \/ kd = resolve w (posixpath.join dst (posixpath.basename (Str.rstrip_slash src))))
    /\ ((resolve w src = kd /\ w' = w)
        \/ (resolve w src <> kd /\ kd <> []
            /\ w' = set_fs (<[kd := File data mt md]> (delete (resolve w src) (fs w))) w)).
Proof.
  intros Hsrc. unfold shutil_move. unfold lookup_path in Hsrc.
  destruct (os_path_isdir w dst && os_path_exists w src
            && bool_decide (resolve w src = resolve w dst)) eqn:Hsame.
  { apply andb_prop in Hsame as [Hsame Heq]. apply andb_prop in Hsame as [Hd _].
    apply bool_decide_eq_true_1 in Heq. apply isdir_node in Hd.
    rewrite <- Heq, Hsrc in Hd. discriminate Hd. }
  set (real_dst := if os_path_isdir w dst then _ else dst).
  destruct (os_path_isdir w dst && os_path_exists w real_dst); [discriminate|].
  rewrite Hsrc. intros H. exists (resolve w real_dst). split.
  { subst real_dst. destruct (os_path_isdir w dst); [now right | now left]. }
  destruct (bool_decide (resolve w src = resolve w real_dst)) eqn:Heq.
  - left. apply bool_decide_eq_true_1 in Heq. injection H as <-. now split.
  - right. apply bool_decide_eq_false_1 in Heq.
    destruct (check_writable (fs w) (resolve w real_dst)) eqn:Hcw; [discriminate|].
    injection H as <-. split; [exact Heq|]. split; [|reflexivity].
    apply check_writable_not_dir in Hcw. intros E. rewrite E in Hcw. now apply Hcw.
Qed.

Lemma lookup_path_set_makedirs (p : string) (base rest : list string) (w : World)
    (nd : node) :
  lookup_path w p = Some nd ->
  lookup_path (set_fs (makedirs_from base rest (fs w)).1 w) p = Some nd.
Proof.
  unfold lookup_path, resolve. cbn [cwd set_fs fs].
  destruct (posixpath.abs_comps (cwd w) p) as [|c k]; [trivial|]. cbn [node_at].
  apply makedirs_from_mono.
Qed.

End Moved.

(** X22.  The source path of a Moved event is not used: once it has
    passed the exclusion check, [sync_file] does to the tree exactly
    what it does for any other source path that passes the check; what
    it moves is the file at the local destination path. *)
Theorem sync_file_moved_ignores_source (config : Config) (src src' dst : string)
    (w : World) :
  _should_sync_file config src = true ->
  _should_sync_file config src' = true ->
  dst <> "" ->
  fs (final_world (sync_file config "moved" src (Some dst) w) w)
  = fs (final_world (sync_file config "moved" src' (Some dst) w) w).
Proof.
  intros Hs Hs' Hne. apply truthy_ne in Hne.
  unfold sync_file, dest_or_remote. rewrite Hs, Hs', Hne. cbn [negb].
  unfold mbind, M_bind, mret, M_ret. cbn [truthy_opt]. rewrite Hne.
  now rewrite !try_logger_fs.
Qed.

Lemma sync_file_moved_ignores_source_witness :
  fs (final_world (sync_file cfg_example "moved" "/data/proj/a.txt"
                     (Some "/data/proj/b.txt") w_renamed) w_renamed)
  = fs (final_world (sync_file cfg_example "moved" "/elsewhere/c.txt"
                       (Some "/data/proj/b.txt") w_renamed) w_renamed).
Proof.
  apply (sync_file_moved_ignores_source cfg_example "/data/proj/a.txt" "/elsewhere/c.txt"
           "/data/proj/b.txt" w_renamed); [reflexivity | reflexivity | discriminate].
Defined.

(** X23.  A Moved event takes the local file away.  When the local
    destination path is a regular file, the source name is not excluded
    and the destination is resolvable, [sync_file] returns and either
    logs an error, or the file is at the remote counterpart of the
    destination (inside it, under the same name, when that is a
    directory) with its bytes, modification time and mode, and is no
    longer at the local destination path. *)
Theorem sync_file_moved_takes_local (config : Config) (src dst remote_dst : string)
    (w : World) (data : string) (mt md : Z) :
  _should_sync_file config src = true ->
  dst <> "" ->
  _get_remote_path (cwd w) config dst = Returns (Some remote_dst) ->
  lookup_path w dst = Some (File data mt md) ->
  exists w',
    sync_file config "moved" src (Some dst) w = Done tt w' /\
    ((exists e,
        log w' = log w ++ [log_entry ERROR ("Error syncing file " +:+ src) (Some e)])
     \/ exists kd,
          (kd = resolve w remote_dst
           \/ kd = resolve w (posixpath.join remote_dst
                                (posixpath.basename (Str.rstrip_slash dst))))
          /\ node_at (fs w') kd = Some (File data mt md)
          /\ (resolve w dst <> kd -> node_at (fs w') (resolve w dst) = None)).
Proof.
  intros Hs Hne Hr Hfile.
  apply truthy_ne in Hne.
  pose proof (get_remote_path_truthy _ _ _ _ Hr) as Hrt.
  unfold sync_file, dest_or_remote. rewrite Hs, Hne. cbn [negb]. munfold.
  cbn [truthy_opt]. rewrite Hne.
  unfold sync_action. cbn [String.eqb Ascii.eqb Bool.eqb orb truthy_opt].
  rewrite Hne. munfold. rewrite Hr. munfold. cbn [truthy_opt]. rewrite Hrt.
  destruct (os_makedirs_inv (posixpath.dirname remote_dst) w)
    as [[e He] | [[e He] | [He _]]]; rewrite He.
  { eexists. split; [reflexivity|]. left. eexists. reflexivity. }
  { eexists. split; [reflexivity|]. left. eexists. reflexivity. }
  set (w1 := set_fs _ w).
  assert (lookup_path w1 dst = Some (File data mt md)) as Hfile1
    by (now apply lookup_path_set_makedirs).
  destruct (shutil_move dst remote_dst w1) as [[] w2|e w2|] eqn:Hm.
  - eexists. split; [reflexivity|]. right.
    destruct (shutil_move_file_done _ _ _ _ _ _ _ Hfile1 Hm) as (kd & Hkd & Hcase).
    exists kd. split; [exact Hkd|]. cbn [fs add_log].
    change (resolve w1 dst) with (resolve w dst) in Hcase.
    destruct Hcase as [[Heq ->] | (Hneq & Hnil & ->)].
    + split; [|now intros H]. rewrite <- Heq. exact Hfile1.
    + cbn [fs set_fs]. split.
      * destruct kd as [|c k]; [now destruct Hnil|]. cbn [node_at].
        apply lookup_insert_eq.
      * intros _. unfold lookup_path in Hfile1.
        change (resolve w1 dst) with (resolve w dst) in Hfile1.
        destruct (resolve w dst) as [|c k]; [discriminate Hfile1|]. cbn [node_at].
        rewrite lookup_insert_ne by congruence. apply lookup_delete_eq.
  - eexists. split; [reflexivity|]. left. exists e.
    destruct (shutil_move_spec dst remote_dst w1) as [(e' & w2' & Hm' & Hsame) | (w2' & Hm' & _)];
      rewrite Hm in Hm'; [|discriminate].
    injection Hm' as _ <-. apply same_but_fs_fields in Hsame as (_ & Hlog & _).
    cbn [log add_log]. now rewrite Hlog.
  - exfalso. exact (total_move dst remote_dst w1 Hm).
Qed.

Lemma sync_file_moved_takes_local_witness :
  exists w',
    sync_file cfg_example "moved" "/data/proj/a.txt" (Some "/data/proj/b.txt") w_renamed
    = Done tt w' /\
    ((exists e,
        log w' = log w_renamed
                 ++ [log_entry ERROR ("Error syncing file " +:+ "/data/proj/a.txt") (Some e)])
     \/ exists kd,
          (kd = resolve w_renamed "/mnt/remote/proj/b.txt"
           \/ kd = resolve w_renamed
                     (posixpath.join "/mnt/remote/proj/b.txt"
                        (posixpath.basename (Str.rstrip_slash "/data/proj/b.txt"))))
          /\ node_at (fs w') kd = Some (File "hello" 5 420)
          /\ (resolve w_renamed "/data/proj/b.txt" <> kd ->
              node_at (fs w') (resolve w_renamed "/data/proj/b.txt") = None)).
Proof.
  apply (sync_file_moved_takes_local cfg_example "/data/proj/a.txt" "/data/proj/b.txt"
           "/mnt/remote/proj/b.txt" w_renamed "hello" 5 420).
  - reflexivity.
  - discriminate.
  - reflexivity.
  - reflexivity.
Defined.

(** ** A local root that is a regular file *)

(** X24.  When the local directory handed to [sync_directory] is a
    regular file, the walk has nothing to visit: the call logs its
    start, makes the remote directory and stops there, with the outcome
    of [os.makedirs]. *)
Theorem sync_directory_regular_file (fuel : nat) (config : Config)
    (local_dir remote_dir : string) (w : World) (data : string) (mt md : Z) :
  lookup_path w local_dir = Some (File data mt md) ->
  sync_directory (S fuel) config local_dir remote_dir w
  = (logger INFO ("Starting directory sync: " +:+ local_dir +:+ " -> " +:+ remote_dir) None;;
     os_makedirs remote_dir) w.
Proof.
  intros Hfile. unfold sync_directory. unfold mbind at 1 3, M_bind at 1 3.
  unfold logger, modify.
  set (w0 := add_log _ w).
  assert (lookup_path w0 local_dir = Some (File data mt md)) as Hfile0 by exact Hfile.
  unfold mbind, M_bind.
  destruct (os_makedirs_inv remote_dir w0) as [[e ->] | [[e ->] | [-> _]]];
    [reflexivity | reflexivity |].
  cbn [os_walk]. unfold mbind, M_bind, get.
  pose proof (lookup_path_set_makedirs local_dir [] (resolve w0 remote_dir) w0 _ Hfile0) as H.
  unfold scandir. now rewrite H.
Qed.

Lemma sync_directory_regular_file_witness :
  sync_directory 1 cfg_example "/data/proj/z.txt" "/mnt/remote/z" w_tree
  = (logger INFO ("Starting directory sync: " +:+ "/data/proj/z.txt" +:+ " -> "
                  +:+ "/mnt/remote/z") None;;
     os_makedirs "/mnt/remote/z") w_tree.
Proof.
  apply (sync_directory_regular_file 0 cfg_example "/data/proj/z.txt" "/mnt/remote/z"
           w_tree "zed" 7 420).
  reflexivity.
Defined.

(** ** The store and the answer of [needs_sync] *)

Lemma answer_needs_sync (w : World) (q : string) :
  answer (MetadataDB.needs_sync q w)
  = Some (match stat_of w q with
          | None => false
          | Some st =>
              match records w !! q with
              | None => true
              | Some r => bool_decide (modified_time r < st.1)
                          || negb (bool_decide (st.2 = size r))
              end
          end).
Proof.
  unfold MetadataDB.needs_sync. munfold.
  destruct (os_path_exists w q) eqn:He; cbn [negb].
  - destruct (exists_stat_of w q He) as [st Hst]. rewrite Hst. unfold records.
    destruct (db w) as [d|] eqn:Hd.
    + rewrite (get_file_metadata_table w d q Hd).
      destruct (files d !! q) as [r|]; [|reflexivity].
      unfold os_stat. now rewrite Hst.
    + rewrite (get_file_metadata_no_table w q Hd). now rewrite lookup_empty.
  - assert (stat_of w q = None) as ->; [|reflexivity].
    destruct (stat_of w q) as [st|] eqn:Hst; [|reflexivity].
    apply stat_of_exists in Hst. congruence.
Qed.

Lemma update_file_metadata_records (w : World) (p : string) :
  exists w1,
    MetadataDB.update_file_metadata p w = Done tt w1
    /\ fs w1 = fs w /\ cwd w1 = cwd w /\ dir_stat w1 = dir_stat w
    /\ (os_path_exists w p = true -> records w1 = records w)
    /\ (os_path_exists w p = false -> records w1 = delete p (records w)).
Proof.
  destruct (os_path_exists w p) eqn:He.
  - destruct (update_file_metadata_existing w p He) as [e ->].
    eexists. split; [reflexivity|]. do 3 (split; [reflexivity|]).
    split; [reflexivity | discriminate].
  - assert (MetadataDB.update_file_metadata p w = MetadataDB.delete_file_metadata p w) as ->.
    { unfold MetadataDB.update_file_metadata. unfold try_except at 1.
      unfold mbind at 1, M_bind at 1, get at 1. rewrite He. cbn [negb].
      destruct (db w) as [d|] eqn:Hd.
      - now rewrite (delete_file_metadata_table w d p Hd).
      - now rewrite (delete_file_metadata_no_table w p Hd). }
    destruct (db w) as [d|] eqn:Hd.
    + rewrite (delete_file_metadata_table w d p Hd). eexists.
      split; [reflexivity|]. do 3 (split; [reflexivity|]).
      split; [discriminate|]. intros _. unfold records.
      cbn [db add_log set_db files]. now rewrite Hd.
    + rewrite (delete_file_metadata_no_table w p Hd). eexists.
      split; [reflexivity|]. do 3 (split; [reflexivity|]).
      split; [discriminate|]. intros _. unfold records. cbn [db add_log].
      rewrite Hd. now rewrite delete_empty.
Qed.

(** X25.  [update_file_metadata] never changes an answer of
    [needs_sync]: whatever path was updated, [needs_sync] answers for
    every path what it answered before.  A file that needs syncing
    still needs it after its metadata was "updated". *)
Theorem update_keeps_needs_sync (w : World) (p q : string) :
  answer (MetadataDB.needs_sync q
            (final_world (MetadataDB.update_file_metadata p w) w))
  = answer (MetadataDB.needs_sync q w).
Proof.
  destruct (update_file_metadata_records w p) as (w1 & -> & Hfs & Hcwd & Hds & Hex & Hmiss).
  cbn [final_world]. rewrite !answer_needs_sync.
  assert (stat_of w1 q = stat_of w q) as ->.
  { unfold stat_of, lookup_path, resolve. now rewrite Hfs, Hcwd, Hds. }
  destruct (stat_of w q) as [st|] eqn:Hst; [|reflexivity].
  destruct (os_path_exists w p) eqn:He.
  - now rewrite (Hex eq_refl).
  - rewrite (Hmiss eq_refl). destruct (decide (p = q)) as [-> | Hne].
    + apply stat_of_exists in Hst. congruence.
    + now rewrite lookup_delete_ne.
Qed.

(** ** Where the mapper sends a path *)

Section Mapper.

Lemma sepjoin_head_relative (x : string) (l : list string) :
  x <> "" -> Str.has_slash x = false -> Str.startswith (Str.sepjoin (x :: l)) "/" = false.
Proof.
  intros Hx Hs. destruct l as [|y l].
  - cbn [Str.sepjoin]. now apply no_slash_relative.
  - rewrite sepjoin_cons2, startswith_app_l by exact Hx. now apply no_slash_relative.
Qed.

Lemma norm_comps_dotdot (k : nat) (st l : list string) :
  posixpath.norm_comps st (repeat ".." k ++ l)
  = posixpath.norm_comps (Nat.iter k (@removelast string) st) l.
Proof.
  revert st. induction k as [|k IH]; intros st; [reflexivity|].
  cbn [repeat app posixpath.norm_comps String.eqb Ascii.eqb Bool.eqb orb andb].
  rewrite IH. f_equal. now rewrite Nat.iter_swap.
Qed.

Lemma relpath_resolves (cwd a path start : string) :
  path <> "" ->
  let Lc := posixpath.abs_comps cwd start in
  let P := posixpath.abs_comps cwd path in
  let i := length (posixpath.commonprefix Lc P) in
  exists rel,
    posixpath.relpath cwd path start = Some rel
    /\ posixpath.abs_comps cwd (posixpath.join a rel)
       = Nat.iter (length Lc - i) (@removelast string) (posixpath.abs_comps cwd a) ++ drop i P.
Proof.
  intros Hne Lc P i. unfold posixpath.relpath.
  apply truthy_ne in Hne. rewrite Hne. cbn [negb]. fold Lc P i.
  assert (Forall clean (drop i P)) as Hcl by (apply Forall_drop, abs_comps_clean).
  destruct (repeat ".." (length Lc - i) ++ drop i P) as [|x l] eqn:E.
  - apply app_eq_nil in E as [Ek Ed].
    assert ((length Lc - i)%nat = 0%nat) as -> by (now destruct (length Lc - i)%nat).
    rewrite Ed, app_nil_r. eexists. split; [reflexivity|].
    now rewrite abs_comps_join by reflexivity.
  - eexists. split; [reflexivity|].
    assert (x <> "" /\ Str.has_slash x = false) as [Hx Hs].
    { destruct (length Lc - i)%nat as [|k]; cbn [repeat app] in E.
      - rewrite E in Hcl. apply Forall_cons in Hcl as [(H1 & _ & _ & H4) _]. now split.
      - injection E as <- _. now split. }
    rewrite abs_comps_join by (now apply sepjoin_head_relative).
    rewrite split_sepjoin; [|discriminate|].
    + rewrite <- E, norm_comps_dotdot. now apply norm_comps_clean_id.
    + rewrite <- E. apply Forall_app. split; [|now apply clean_no_slash].
      apply Forall_forall. intros y Hy. apply list_elem_of_In, repeat_spec in Hy.
      now subst y.
Qed.

End Mapper.

(** X26.  Where [_get_remote_path] sends a path, in full.  For a
    non-empty path, the mapping chosen is the first whose local root is
    a string prefix; the result resolves to the remote target of that
    mapping, with as many trailing components removed as the local root
    has components that the path does not share, followed by the
    components of the path beyond the shared ones.  A path that shares
    only part of the last component of the local root is so sent
    outside the remote target. *)
Theorem get_remote_path_resolves (cwd : string) (config : Config) (local : string)
    (pre post : list DirConfig) (d : DirConfig) :
  sync_directories config = pre ++ d :: post ->
  Forall (fun d' => Str.startswith local (local_path d') = false) pre ->
  Str.startswith local (local_path d) = true ->
  local <> "" ->
  let Lc := posixpath.abs_comps cwd (local_path d) in
  let P := posixpath.abs_comps cwd local in
  let i := length (posixpath.commonprefix Lc P) in
  exists remote,
    _get_remote_path cwd config local = Returns (Some remote)
    /\ posixpath.abs_comps cwd remote
       = Nat.iter (length Lc - i) (@removelast string)
           (posixpath.abs_comps cwd (posixpath.join (mount_point config) (remote_path d)))
         ++ drop i P.
Proof.
  intros Hdirs Hpre Hd Hne Lc P i.
  destruct (relpath_resolves cwd (posixpath.join (mount_point config) (remote_path d))
              local (local_path d) Hne) as (rel & Hrel & Hres).
  exists (posixpath.join (posixpath.join (mount_point config) (remote_path d)) rel).
  split; [|exact Hres].
  unfold _get_remote_path. rewrite Hdirs, get_remote_path_loop_skip by exact Hpre.
  cbn [get_remote_path_loop]. now rewrite Hd, Hrel.
Qed.

Lemma get_remote_path_resolves_witness :
  exists remote,
    _get_remote_path "/" cfg_overlap "/database/x" = Returns (Some remote)
    /\ posixpath.abs_comps "/" remote
       = Nat.iter (length (posixpath.abs_comps "/" "/data")
                   - length (posixpath.commonprefix (posixpath.abs_comps "/" "/data")
                               (posixpath.abs_comps "/" "/database/x")))
           (@removelast string) (posixpath.abs_comps "/" (posixpath.join "/mnt/remote" "proj"))
         ++ drop (length (posixpath.commonprefix (posixpath.abs_comps "/" "/data")
                            (posixpath.abs_comps "/" "/database/x")))
              (posixpath.abs_comps "/" "/database/x").
Proof.
  apply (get_remote_path_resolves "/" cfg_overlap "/database/x" []
           [ {| local_path := "/database"; remote_path := "db"; exclude_patterns := [] |} ]
           {| local_path := "/data"; remote_path := "proj"; exclude_patterns := [] |}).
  - reflexivity.
  - constructor.
  - reflexivity.
  - discriminate.
Defined.

Example get_remote_path_escapes_ex :
  exists remote,
    _get_remote_path "/" cfg_overlap "/database/x" = Returns (Some remote)
    /\ posixpath.abs_comps "/" remote = ["mnt"; "remote"; "database"; "x"].
Proof. eexists. split; reflexivity. Qed.

(** ** A Created event for something that is not a regular file *)

(** X27.  A Created or Modified event for a path that is a directory,
    or that no longer exists, copies nothing: for a name that is not
    excluded and a resolvable remote path, [sync_file] returns after
    logging an error, and the tree has gained at most directories (the
    parents of the remote path).  The remote counterpart of a new local
    directory is not made by its event. *)
Theorem sync_file_created_not_a_file (config : Config) (action file_path remote : string)
    (w : World) :
  action = "created" \/ action = "modified" ->
  _should_sync_file config file_path = true ->
  _get_remote_path (cwd w) config file_path = Returns (Some remote) ->
  (forall data mt md, lookup_path w file_path <> Some (File data mt md)) ->
  exists w' e,
    sync_file config action file_path None w = Done tt w'
    /\ log w' = log w ++ [log_entry ERROR ("Error syncing file " +:+ file_path) (Some e)]
    /\ (forall k n, fs w' !! k = Some n -> fs w !! k = Some n \/ n = Dir)
    /\ (forall k n, fs w !! k = Some n -> fs w' !! k = Some n).
Proof.
  intros Ha Hs Hr Hnf. rewrite (sync_file_mapped _ _ _ _ _ Hs Hr).
  unfold try_except, sync_action.
  replace (String.eqb action "created" || String.eqb action "modified") with true
    by (destruct Ha as [-> | ->]; reflexivity).
  unfold mbind, M_bind.
  assert (forall f, f = (makedirs_from [] (resolve w (posixpath.dirname remote)) (fs w)).1 ->
            (forall k n, f !! k = Some n -> fs w !! k = Some n \/ n = Dir)
            /\ (forall k n, fs w !! k = Some n -> f !! k = Some n)) as Hdirs.
  { intros f ->. split; intros k n Hk.
    - apply makedirs_from_new in Hk. tauto.
    - now apply makedirs_from_mono. }
  destruct (os_makedirs_inv (posixpath.dirname remote) w) as [[e ->] | [[e ->] | [-> _]]].
  - eexists _, e. split; [reflexivity|]. split; [reflexivity|]. split; auto.
  - eexists _, e. split; [reflexivity|]. split; [reflexivity|].
    exact (Hdirs _ eq_refl).
  - set (w1 := set_fs _ w).
    destruct (shutil_copy2_inv file_path remote w1)
      as [[e ->] | (data & mt & md & d & _ & Hsrc & _)].
    + eexists _, e. split; [reflexivity|]. split; [reflexivity|].
      exact (Hdirs _ eq_refl).
    + apply lookup_path_makedirs in Hsrc. now destruct (Hnf data mt md).
Qed.

Lemma sync_file_created_not_a_file_witness :
  exists w' e,
    sync_file cfg_example "created" "/data/proj/sub" None w_tree = Done tt w'
    /\ log w' = log w_tree
                ++ [log_entry ERROR ("Error syncing file " +:+ "/data/proj/sub") (Some e)]
    /\ (forall k n, fs w' !! k = Some n -> fs w_tree !! k = Some n \/ n = Dir)
    /\ (forall k n, fs w_tree !! k = Some n -> fs w' !! k = Some n).
Proof.
  apply (sync_file_created_not_a_file cfg_example "created" "/data/proj/sub"
           "/mnt/remote/proj/sub" w_tree).
  - now left.
  - reflexivity.
  - reflexivity.
  - intros data mt md H. vm_compute in H. discriminate H.
Defined.
